(** * Glimpse: randomized decision tree training and inference

    A shallow embedding of the numeric core of [train_rdt.cc] and of the
    feature evaluator [sample_uv] that training and inference share,
    together with the properties the specification states about them.

    Machine integers are integers of [Z] with their wrap-around written
    out; arrays are lists read by index; [float] is IEEE 754 binary32 as
    given by the Standard Library's [SpecFloat] (precision 24, [emax] 128),
    and [half] is binary16, promoted on every access.  The functions that
    only do arithmetic on histograms are written once over an interface
    of float operations, so that they can be read in binary32 and in
    exact real arithmetic. *)

From Stdlib Require Import ZArith List Bool Lia Floats.SpecFloat.
From Stdlib Require Import Reals Lra.
Import ListNotations.

Local Open Scope Z_scope.

(** * Part I: the model *)

(** ** Machine integers *)

Definition to_uint32 (z : Z) : Z := z mod 2 ^ 32.

Definition to_int32 (z : Z) : Z := (z + 2 ^ 31) mod 2 ^ 32 - 2 ^ 31.

Definition INT32_MIN : Z := - 2 ^ 31.

Definition UINT32_MAX : Z := 2 ^ 32 - 1.

(** ** Arrays *)

(** [a[start], ..., a[start + len - 1]]; a read past the end of the list,
    which the C code never checks for, yields [d]. *)
Definition slice {A : Type} (d : A) (a : list A) (start len : Z) : list A :=
  map (fun k => nth (Z.to_nat start + k) a d) (seq 0 (Z.to_nat len)).

(** [++a[k]] on an array of [uint32_t]. *)
Fixpoint incr (k : nat) (a : list Z) : list Z :=
  match a, k with
  | [], _ => []
  | h :: tl, O => to_uint32 (h + 1) :: tl
  | h :: tl, S k' => h :: incr k' tl
  end.

(** [a[k] = v]. *)
Fixpoint store {A : Type} (k : nat) (v : A) (a : list A) : list A :=
  match a, k with
  | [], _ => []
  | _ :: tl, O => v :: tl
  | h :: tl, S k' => h :: store k' v tl
  end.

(** ** binary32 and binary16 *)

Definition float := spec_float.
Definition half := spec_float.

Module F32.

Definition prec : Z := 24.
Definition emax : Z := 128.

Definition add : float -> float -> float := SFadd prec emax.
Definition sub : float -> float -> float := SFsub prec emax.
Definition mul : float -> float -> float := SFmul prec emax.
Definition div : float -> float -> float := SFdiv prec emax.
Definition neg : float -> float := SFopp.
Definition abs : float -> float := SFabs.
Definition ltb : float -> float -> bool := SFltb.

(** [(float)n] for an integer [n]: round to nearest, ties to even. *)
Definition of_Z (n : Z) : float := binary_normalize prec emax n 0 false.

(** [(float)h] for a binary16 value: the value is kept, the mantissa is
    realigned to 24 bits. *)
Definition of_half (h : half) : float :=
  match h with
  | S754_finite s m e => binary_round prec emax s m e
  | _ => h
  end.

(** [(double)f] for a binary32 value. *)
Definition to_double (f : float) : spec_float :=
  match f with
  | S754_finite s m e => binary_round 53 1024 s m e
  | _ => f
  end.

(** The integer part of a float, rounding toward zero; infinities and NaN
    have none. *)
Definition trunc (f : float) : option Z :=
  match f with
  | S754_zero _ => Some 0
  | S754_finite s m e => Some (cond_Zopp s (Z.shiftl (Zpos m) e))
  | S754_infinity _ | S754_nan => None
  end.

(** [(int32_t)f]. C leaves the conversion undefined when the integer part
    does not fit; the model takes what the SSE conversion instruction the
    compiler emits returns there, the "integer indefinite" value
    [INT32_MIN]. *)
Definition to_int32 (f : float) : Z :=
  match trunc f with
  | Some z => if (INT32_MIN <=? z) && (z <? 2 ^ 31) then z else INT32_MIN
  | None => INT32_MIN
  end.

Definition zero : float := S754_zero false.

Definition is_nan (f : float) : bool :=
  match f with S754_nan => true | _ => false end.

(** Neither NaN nor negative; [-0.0] counts as zero. *)
Definition nonneg (f : float) : bool :=
  match f with
  | S754_zero _ => true
  | S754_finite s _ _ | S754_infinity s => negb s
  | S754_nan => false
  end.

End F32.

(** ** utils.h *)

(** [Int2D] and [UVPair] are GCC vectors of two [int32_t] and of four
    [float]; an [Int3D] is a pixel and the index of its image. *)
Definition Int2D : Type := (Z * Z)%type.

Record UVPair := mkUV { uv0 : float; uv1 : float; uv2 : float; uv3 : float }.

Record Int3D := mkInt3D { px_xy : Int2D; px_i : Z }.

Record Node := mkNode {
  node_uv : UVPair;          (* U and V parameters *)
  node_t : float;            (* Threshold *)
  node_label_pr_idx : Z      (* Index into label probability table (1-based) *)
}.

Record RDTHeader := mkHeader {
  hdr_depth : Z;
  hdr_n_labels : Z;
  hdr_fov : float
}.

Record RDTree := mkTree {
  rdt_header : RDTHeader;
  rdt_nodes : list Node;
  rdt_n_pr_tables : Z;
  rdt_label_pr_tables : list float
}.

(** [(float)depth_image[idx]]. *)
Definition depth_at (depth_image : list half) (idx : Z) : float :=
  F32.of_half (nth (Z.to_nat idx) depth_image F32.zero).

Definition in_image (width height : Z) (p : Int2D) : bool :=
  (0 <=? fst p) && (fst p <? to_int32 width) &&
  (0 <=? snd p) && (snd p <? to_int32 height).

Definition sample_uv (depth_image : list half) (width height : Z)
    (pixel : Int2D) (depth : float) (uv : UVPair) : float :=
  let u : Int2D :=
    (F32.to_int32 (F32.add (F32.of_Z (fst pixel)) (F32.div (uv0 uv) depth)),
     F32.to_int32 (F32.add (F32.of_Z (snd pixel)) (F32.div (uv1 uv) depth))) in
  let v : Int2D :=
    (F32.to_int32 (F32.add (F32.of_Z (fst pixel)) (F32.div (uv2 uv) depth)),
     F32.to_int32 (F32.add (F32.of_Z (snd pixel)) (F32.div (uv3 uv) depth))) in
  let upixel :=
    if in_image width height u
    then depth_at depth_image (to_uint32 (to_uint32 (snd u) * width + fst u))
    else F32.of_Z 1000 in
  let vpixel :=
    if in_image width height v
    then depth_at depth_image (to_uint32 (to_uint32 (snd v) * width + fst v))
    else F32.of_Z 1000 in
  F32.sub upixel vpixel.

(** *** The feature as the specification words it

    [u] and [v] are the pixel moved by [uv / depth], each coordinate cut
    to its integer part; a point contributes the depth stored there when
    it lies in the image and [1000.0] otherwise. *)

Definition offset_coord (c : Z) (o depth : float) : option Z :=
  F32.trunc (F32.add (F32.of_Z c) (F32.div o depth)).

Definition inside (width height : Z) (p : option Z * option Z) : bool :=
  match p with
  | (Some px, Some py) =>
      (0 <=? px) && (px <? width) && (0 <=? py) && (py <? height)
  | _ => false
  end.

Definition depth_or_background (depth_image : list half) (width height : Z)
    (p : option Z * option Z) : float :=
  match p with
  | (Some px, Some py) =>
      if inside width height p
      then depth_at depth_image (py * width + px)
      else F32.of_Z 1000
  | _ => F32.of_Z 1000
  end.

Definition point_u (pixel : Int2D) (depth : float) (uv : UVPair) :=
  (offset_coord (fst pixel) (uv0 uv) depth,
   offset_coord (snd pixel) (uv1 uv) depth).

Definition point_v (pixel : Int2D) (depth : float) (uv : UVPair) :=
  (offset_coord (fst pixel) (uv2 uv) depth,
   offset_coord (snd pixel) (uv3 uv) depth).

Definition depth_difference (depth_image : list half) (width height : Z)
    (pixel : Int2D) (depth : float) (uv : UVPair) : float :=
  F32.sub
    (depth_or_background depth_image width height (point_u pixel depth uv))
    (depth_or_background depth_image width height (point_v pixel depth uv)).

(** ** Float operations as an interface

    [normalize_histogram], [calculate_shannon_entropy], [calculate_gain]
    and the threshold table use nothing of a float but these operations.
    [of_int] is the conversion [(float)n]; [flog2] is [log2f], which the
    C library provides. *)

Class FloatOps (F : Type) := {
  of_int : Z -> F;
  fadd : F -> F -> F;
  fsub : F -> F -> F;
  fmul : F -> F -> F;
  fdiv : F -> F -> F;
  fneg : F -> F;
  fltb : F -> F -> bool
}.

Class Log2 (F : Type) := flog2 : F -> F.

#[export] Instance binary32 : FloatOps float := {|
  of_int := F32.of_Z;
  fadd := F32.add;
  fsub := F32.sub;
  fmul := F32.mul;
  fdiv := F32.div;
  fneg := F32.neg;
  fltb := F32.ltb
|}.

(** Exact real arithmetic. *)
#[export] Instance exact : FloatOps R := {|
  of_int := IZR;
  fadd := Rplus;
  fsub := Rminus;
  fmul := Rmult;
  fdiv := Rdiv;
  fneg := Ropp;
  fltb := fun a b => if Rlt_dec a b then true else false
|}.

#[export] Instance exact_log2 : Log2 R := fun x => (ln x / ln 2)%R.

Section Numeric.

Context {F : Type} {ops : FloatOps F} {log : Log2 F}.

(** The two sums of [normalize_histogram]: the total count, accumulated in
    an [int32_t], and the number of non-empty labels. *)
Definition histogram_sums (histogram : list Z) (n_labels : Z) : Int2D :=
  fold_left
    (fun (sums : Int2D) (h : Z) =>
       if 0 <? h then (to_int32 (fst sums + h), snd sums + 1) else sums)
    (slice 0 histogram 0 n_labels) (0, 0).

(** Returns the sums and the contents of [normalized] after the call. *)
Definition normalize_histogram (histogram : list Z) (n_labels : Z)
    : Int2D * list F :=
  let sums := histogram_sums histogram n_labels in
  (sums,
   if 0 <? fst sums
   then map (fun h => fdiv (of_int h) (of_int (fst sums)))
            (slice 0 histogram 0 n_labels)
   else repeat (of_int 0) (Z.to_nat n_labels)).

Definition calculate_shannon_entropy (normalized_histogram : list F)
    (n_labels : Z) : F :=
  fold_left
    (fun (entropy value : F) =>
       if fltb (of_int 0) value && fltb value (of_int 1)
       then fadd entropy (fmul (fneg value) (flog2 value))
       else entropy)
    (slice (of_int 0) normalized_histogram 0 n_labels) (of_int 0).

Definition calculate_gain (entropy : F) (n_pixels : Z)
    (l_entropy : F) (l_n_pixels : Z) (r_entropy : F) (r_n_pixels : Z) : F :=
  fsub entropy
       (fadd (fmul (fdiv (of_int l_n_pixels) (of_int n_pixels)) l_entropy)
             (fmul (fdiv (of_int r_n_pixels) (of_int n_pixels)) r_entropy)).

(** The threshold table [ctx.ts] that [main] fills in. *)
Definition threshold (t_range : F) (n_t : Z) (i : Z) : F :=
  fadd (fdiv (fneg t_range) (of_int 2))
       (fdiv (fmul (of_int i) t_range) (of_int (to_uint32 (n_t - 1)))).

Definition thresholds (t_range : F) (n_t : Z) : list F :=
  map (fun i => threshold t_range n_t (Z.of_nat i)) (seq 0 (Z.to_nat n_t)).

End Numeric.

(** ** train_rdt.cc: data *)

Record TrainContext := mkContext {
  ctx_width : Z;                  (* Width of training images *)
  ctx_height : Z;                 (* Height of training images *)
  ctx_fov : float;                (* Camera field of view *)
  ctx_n_labels : Z;               (* Number of labels in label images *)
  ctx_n_images : Z;               (* Number of training images *)
  ctx_label_images : list Z;      (* Label images (row-major) *)
  ctx_depth_images : list half;   (* Depth images (row-major) *)
  ctx_n_uv : Z;                   (* Number of combinations of u,v pairs *)
  ctx_uv_range : float;           (* Range of u,v combinations to generate *)
  ctx_n_t : Z;                    (* The number of thresholds *)
  ctx_t_range : float;            (* Range of thresholds to test *)
  ctx_max_depth : Z;              (* Maximum depth to train to *)
  ctx_n_pixels : Z;               (* Number of pixels to sample *)
  ctx_uvs : list UVPair;          (* A list of uv pairs to test *)
  ctx_ts : list float             (* A list of thresholds to test *)
}.

Record NodeTrainData := mkNodeData {
  nd_id : Z;                      (* Unique id to place the node a tree *)
  nd_depth : Z;                   (* Tree depth at which this node sits *)
  nd_n_pixels : Z;                (* Number of pixels that have reached this node *)
  nd_pixels : list Int3D          (* A list of pixel pairs and image indices *)
}.

(** What a worker publishes through the pointers of its
    [TrainThreadData]. *)
Record ThreadBest := mkBest {
  best_gain : float;              (* Best gain achieved *)
  best_uv : Z;                    (* Index of the best uv combination *)
  best_t : Z;                     (* Index of the best threshold *)
  n_lr_pixels : Z * Z             (* Number of pixels in each branch *)
}.

(** How a run of the program can end early: the messages it prints before
    leaving with status 1. *)
Inductive message :=
| LabelTooBig (label max : Z)     (* Label '%u' is bigger than expected *)
| CheckpointLabels                (* Checkpoint has %d labels, expected %d *)
| CheckpointFov                   (* Checkpoint has FOV %.2f, expected %.2f *)
| CheckpointDepth                 (* Can't train with a lower depth than checkpoint *)
| AlreadyTrained.                 (* Tree already fully trained. *)

(** A computation yields a value, leaves the program, or steps outside of
    what C defines (a write past a buffer, a null pointer). *)
Inductive outcome (A : Type) : Type :=
| Ok (a : A)
| Exit (code : Z) (m : message)
| Undefined.

Arguments Ok {A} a.
Arguments Exit {A} code m.
Arguments Undefined {A}.

Definition bind {A B : Type} (x : outcome A) (f : A -> outcome B)
    : outcome B :=
  match x with
  | Ok a => f a
  | Exit code m => Exit code m
  | Undefined => Undefined
  end.

Notation "x <- c1 ;; c2" := (bind c1 (fun x => c2))
  (at level 61, c1 at next level, right associativity).
Notation "' p <- c1 ;; c2" := (bind c1 (fun p => c2))
  (at level 61, p pattern, c1 at next level, right associativity).

Definition default_pixel : Int3D := mkInt3D (0, 0) 0.

Definition default_uv : UVPair := mkUV F32.zero F32.zero F32.zero F32.zero.

Definition default_node : Node := mkNode default_uv F32.zero 0.

(** [create_node_train_data]: [pixels] is [None] for the root, whose
    pixels are then drawn with [std::mt19937]; the draw is [root_pixels]. *)
Definition create_node_train_data (root_pixels : list Int3D)
    (ctx : TrainContext) (id depth n_pixels : Z)
    (pixels : option (list Int3D)) : NodeTrainData :=
  match pixels with
  | Some pixels => mkNodeData id depth n_pixels pixels
  | None =>
      mkNodeData id depth (to_uint32 (ctx_n_images ctx * ctx_n_pixels ctx))
                 root_pixels
  end.

(** The pixels [data->pixels[0 .. n_pixels)] a loop over a node visits. *)
Definition node_pixels (data : NodeTrainData) : list Int3D :=
  slice default_pixel (nd_pixels data) 0 (nd_n_pixels data).

(** The image a pixel belongs to, its label and its depth, as the loops
    of [accumulate_histograms] and [collect_pixels] look them up. *)
Definition image_offset (ctx : TrainContext) (px : Int3D) : nat :=
  Z.to_nat (to_uint32 (px_i px * ctx_width ctx * ctx_height ctx)).

Definition pixel_index (ctx : TrainContext) (px : Int3D) : Z :=
  to_uint32 (snd (px_xy px) * ctx_width ctx + fst (px_xy px)).

Definition pixel_depth_image (ctx : TrainContext) (px : Int3D) : list half :=
  skipn (image_offset ctx px) (ctx_depth_images ctx).

Definition pixel_label (ctx : TrainContext) (px : Int3D) : Z :=
  nth (Z.to_nat (pixel_index ctx px))
      (skipn (image_offset ctx px) (ctx_label_images ctx)) 0.

Definition pixel_depth (ctx : TrainContext) (px : Int3D) : float :=
  depth_at (pixel_depth_image ctx px) (pixel_index ctx px).

Definition pixel_sample (ctx : TrainContext) (px : Int3D) (uv : UVPair)
    : float :=
  sample_uv (pixel_depth_image ctx px) (ctx_width ctx) (ctx_height ctx)
            (px_xy px) (pixel_depth ctx px) uv.

(** ** train_rdt.cc: the histogram engine *)

(** "Partition on thresholds": one pixel of label [label] is counted, for
    every sample and threshold, on the left or on the right; the loops run
    [lr_histogram_idx] over the blocks of [2 * n_labels] counters. *)
Definition partition_on_thresholds (ctx : TrainContext) (label : Z)
    (samples : list float) (lr_histograms : list Z) : list Z :=
  snd
    (fold_left
       (fun (st : Z * list Z) (sample : float) =>
          fold_left
            (fun (st : Z * list Z) (threshold : float) =>
               let lr_histogram_idx := fst st in
               (lr_histogram_idx + ctx_n_labels ctx * 2,
                incr (Z.to_nat
                        (if F32.ltb sample threshold
                         then lr_histogram_idx + label
                         else lr_histogram_idx + ctx_n_labels ctx + label))
                     (snd st)))
            (slice F32.zero (ctx_ts ctx) 0 (ctx_n_t ctx)) st)
       samples (0, lr_histograms)).

(** The body of the loop of [accumulate_histograms] for one pixel. *)
Definition accumulate_pixel (ctx : TrainContext) (data : NodeTrainData)
    (c_start c_end : Z) (px : Int3D) (hs : list Z * list Z)
    : outcome (list Z * list Z) :=
  let label := pixel_label ctx px in
  if ctx_n_labels ctx <=? label
  then Exit 1 (LabelTooBig label (to_uint32 (ctx_n_labels ctx - 1)))
  else
    (* Accumulate root histogram *)
    let root_histogram := incr (Z.to_nat label) (fst hs) in
    (* Don't waste processing time if this is the last depth *)
    if to_uint32 (ctx_max_depth ctx - 1) <=? nd_depth data
    then Ok (root_histogram, snd hs)
    else
      let samples :=
        map (pixel_sample ctx px)
            (slice default_uv (ctx_uvs ctx) c_start (c_end - c_start)) in
      Ok (root_histogram,
          partition_on_thresholds ctx label samples (snd hs)).

(** The loop itself. [interrupted k] is what the [k]-th evaluation of the
    loop condition reads from the flag the signal handler sets. *)
Fixpoint accumulate_loop (ctx : TrainContext) (data : NodeTrainData)
    (c_start c_end : Z) (interrupted : nat -> bool) (p : nat)
    (pixels : list Int3D) (hs : list Z * list Z)
    : outcome (list Z * list Z) :=
  match pixels with
  | [] => Ok hs
  | px :: rest =>
      if interrupted p then Ok hs
      else
        hs' <- accumulate_pixel ctx data c_start c_end px hs ;;
        accumulate_loop ctx data c_start c_end interrupted (S p) rest hs'
  end.

Definition accumulate_histograms (ctx : TrainContext) (data : NodeTrainData)
    (c_start c_end : Z) (interrupted : nat -> bool)
    (root_histogram lr_histograms : list Z) : outcome (list Z * list Z) :=
  accumulate_loop ctx data c_start c_end interrupted 0 (node_pixels data)
                  (root_histogram, lr_histograms).

(** ** train_rdt.cc: the gain-search worker *)

Section Worker.

(** [log2f] of the C library. *)
Variable log2f : float -> float.

#[local] Instance libm : Log2 float := log2f.

(** The body of the candidate loops of [thread_body] for the uv
    combination [i] and the threshold [j], whose two histograms start at
    [lr_histo_base]. *)
Definition evaluate_candidate (ctx : TrainContext) (root_n_pixels : Int2D)
    (entropy : float) (lr_histograms : list Z) (i j lr_histo_base : Z)
    (best : ThreadBest) : ThreadBest :=
  let '(l_n_pixels, nhistogram) :=
    normalize_histogram (skipn (Z.to_nat lr_histo_base) lr_histograms)
                        (ctx_n_labels ctx) in
  if (fst l_n_pixels =? 0) || (fst l_n_pixels =? fst root_n_pixels)
  then best
  else
    let l_entropy := calculate_shannon_entropy nhistogram (ctx_n_labels ctx) in
    let '(r_n_pixels, nhistogram) :=
      normalize_histogram
        (skipn (Z.to_nat (lr_histo_base + ctx_n_labels ctx)) lr_histograms)
        (ctx_n_labels ctx) in
    let r_entropy := calculate_shannon_entropy nhistogram (ctx_n_labels ctx) in
    let gain :=
      calculate_gain entropy (to_uint32 (fst root_n_pixels))
                     l_entropy (to_uint32 (fst l_n_pixels))
                     r_entropy (to_uint32 (fst r_n_pixels)) in
    if F32.ltb (best_gain best) gain
    then mkBest gain i j
                (to_uint32 (fst l_n_pixels), to_uint32 (fst r_n_pixels))
    else best.

(** The uv combinations and thresholds in the order the two loops visit
    them. *)
Definition candidates (ctx : TrainContext) (c_start c_end : Z)
    : list (Z * Z) :=
  list_prod (map (fun k => c_start + Z.of_nat k)
                 (seq 0 (Z.to_nat (c_end - c_start))))
            (map Z.of_nat (seq 0 (Z.to_nat (ctx_n_t ctx)))).

(** The two loops. Both conditions read the interrupt flag, which is only
    ever set while workers run: once a condition has read it the inner and
    the outer loop both end, so the pairs evaluated are a prefix of
    [candidates]. [interrupted k] is what the condition reads before the
    [k]-th pair. *)
Fixpoint search_loop (ctx : TrainContext) (root_n_pixels : Int2D)
    (entropy : float) (lr_histograms : list Z) (interrupted : nat -> bool)
    (k : nat) (pairs : list (Z * Z)) (lr_histo_base : Z) (best : ThreadBest)
    : ThreadBest :=
  match pairs with
  | [] => best
  | (i, j) :: rest =>
      if interrupted k then best
      else
        search_loop ctx root_n_pixels entropy lr_histograms interrupted
          (S k) rest (lr_histo_base + ctx_n_labels ctx * 2)
          (evaluate_candidate ctx root_n_pixels entropy lr_histograms
                              i j lr_histo_base best)
  end.

(** What the flag reads during one pass of a worker. *)
Record Signals := mkSignals {
  in_accumulate : nat -> bool;
  in_search : nat -> bool
}.

Definition quiet : Signals := mkSignals (fun _ => false) (fun _ => false).

(** One pass of the [while (1)] loop of [thread_body], between the two
    barriers, for the node [data]: from what the worker published for the
    previous node to what it publishes for this one, and the contents of
    its [root_nhistogram] buffer. *)
Definition thread_body (ctx : TrainContext) (data : NodeTrainData)
    (c_start c_end : Z) (sig : Signals) (previous : ThreadBest)
    : outcome (ThreadBest * list float) :=
  (* Clear histogram accumulators *)
  let root_histogram := repeat 0 (Z.to_nat (ctx_n_labels ctx)) in
  let lr_histograms :=
    repeat 0 (Z.to_nat (to_uint32 (ctx_n_labels ctx * (c_end - c_start)
                                   * ctx_n_t ctx * 2))) in
  (* Accumulate histograms *)
  '(root_histogram, lr_histograms) <-
    accumulate_histograms ctx data c_start c_end (in_accumulate sig)
                          root_histogram lr_histograms ;;
  let '(root_n_pixels, root_nhistogram) :=
    normalize_histogram root_histogram (ctx_n_labels ctx) in
  (* Determine the best u,v,t combination *)
  let best :=
    mkBest (of_int 0) (best_uv previous) (best_t previous)
           (n_lr_pixels previous) in
  (* If there's only 1 label, skip all this, gain is zero *)
  if (1 <? snd root_n_pixels)
     && (nd_depth data <? to_uint32 (ctx_max_depth ctx - 1))
  then
    let entropy :=
      calculate_shannon_entropy root_nhistogram (ctx_n_labels ctx) in
    Ok (search_loop ctx root_n_pixels entropy lr_histograms (in_search sig)
                    0 (candidates ctx c_start c_end) 0 best,
        root_nhistogram)
  else Ok (best, root_nhistogram).

(** ** train_rdt.cc: the partitioner *)

(** A child buffer holds [n_lr_pixels] pixels when the hint is not zero
    and as many as the parent otherwise. *)
Definition child_capacity (hint n_pixels : Z) : Z :=
  if hint =? 0 then n_pixels else hint.

(** The loop of [collect_pixels] for one pixel: it goes to the end of the
    left or of the right buffer; writing past the allocation is
    undefined. *)
Definition collect_pixel (ctx : TrainContext) (uv : UVPair) (t : float)
    (l_capacity r_capacity : Z) (lr : list Int3D * list Int3D) (px : Int3D)
    : outcome (list Int3D * list Int3D) :=
  let value := pixel_sample ctx px uv in
  if F32.ltb value t
  then if Z.of_nat (length (fst lr)) <? l_capacity
       then Ok (fst lr ++ [px], snd lr) else Undefined
  else if Z.of_nat (length (snd lr)) <? r_capacity
       then Ok (fst lr, snd lr ++ [px]) else Undefined.

Fixpoint collect_loop (ctx : TrainContext) (uv : UVPair) (t : float)
    (l_capacity r_capacity : Z) (pixels : list Int3D)
    (lr : list Int3D * list Int3D) : outcome (list Int3D * list Int3D) :=
  match pixels with
  | [] => Ok lr
  | px :: rest =>
      lr' <- collect_pixel ctx uv t l_capacity r_capacity lr px ;;
      collect_loop ctx uv t l_capacity r_capacity rest lr'
  end.

(** Returns [*l_pixels], [*r_pixels] and the two counts it leaves in
    [n_lr_pixels]. *)
Definition collect_pixels (ctx : TrainContext) (data : NodeTrainData)
    (uv : UVPair) (t : float) (n_lr_pixels : Z * Z)
    : outcome (list Int3D * list Int3D * (Z * Z)) :=
  let l_capacity := child_capacity (fst n_lr_pixels) (nd_n_pixels data) in
  let r_capacity := child_capacity (snd n_lr_pixels) (nd_n_pixels data) in
  '(l_pixels, r_pixels) <-
    collect_loop ctx uv t l_capacity r_capacity (node_pixels data) ([], []) ;;
  let l_index := Z.of_nat (length l_pixels) in
  let r_index := Z.of_nat (length r_pixels) in
  Ok (l_pixels, r_pixels,
      (if fst n_lr_pixels =? l_index then fst n_lr_pixels else l_index,
       if snd n_lr_pixels =? r_index then snd n_lr_pixels else r_index)).

(** ** train_rdt.cc: the coordinator *)

(** The arrays [main] allocates for the workers to publish into, one slot
    per worker, and the buffer of the normalised root histogram, which
    only the first worker is given. *)
Record Published := mkPublished {
  best_gains : list float;
  best_uvs : list Z;
  best_ts : list Z;
  all_n_lr_pixels : list Z;
  root_nhistogram : list float
}.

Definition published_by (pub : Published) (i : nat) : ThreadBest :=
  mkBest (nth i (best_gains pub) F32.zero)
         (nth i (best_uvs pub) 0)
         (nth i (best_ts pub) 0)
         (nth (2 * i) (all_n_lr_pixels pub) 0,
          nth (2 * i + 1) (all_n_lr_pixels pub) 0).

Definition publish (pub : Published) (i : nat) (best : ThreadBest)
    (nhistogram : list float) : Published :=
  mkPublished
    (store i (best_gain best) (best_gains pub))
    (store i (best_uv best) (best_uvs pub))
    (store i (best_t best) (best_ts pub))
    (store (2 * i + 1) (snd (n_lr_pixels best))
       (store (2 * i) (fst (n_lr_pixels best)) (all_n_lr_pixels pub)))
    (if (i =? 0)%nat then nhistogram else root_nhistogram pub).

(** The stripe of uv combinations [main] binds worker [i] to. *)
Definition stripe (ctx : TrainContext) (n_threads : Z) (i : Z) : Z * Z :=
  let n_c := ctx_n_uv ctx / n_threads in
  (to_uint32 (i * n_c),
   if i =? n_threads - 1 then ctx_n_uv ctx else to_uint32 ((i + 1) * n_c)).

(** Worker [i] between the two barriers. *)
Definition run_thread (ctx : TrainContext) (data : NodeTrainData)
    (n_threads : Z) (sig : nat -> Signals) (pub : Published) (i : nat)
    : outcome Published :=
  let '(c_start, c_end) := stripe ctx n_threads (Z.of_nat i) in
  '(best, nhistogram) <-
    thread_body ctx data c_start c_end (sig i) (published_by pub i) ;;
  Ok (publish pub i best nhistogram).

(** All workers between the two barriers. They share nothing they write,
    so the order in which the model runs them is immaterial. *)
Definition run_threads (ctx : TrainContext) (data : NodeTrainData)
    (n_threads : Z) (sig : nat -> Signals) (pub : Published)
    : outcome Published :=
  fold_left (fun acc i => pub <- acc ;; run_thread ctx data n_threads sig pub i)
            (seq 0 (Z.to_nat n_threads)) (Ok pub).

(** "See which thread got the best uvt combination": the best gain, its
    uv and threshold indices, and the worker whose slot of
    [all_n_lr_pixels] the pointer [n_lr_pixels] is left at, if any. *)
Definition best_of_threads (n_threads : Z) (pub : Published)
    : float * Z * Z * option nat :=
  fold_left
    (fun (acc : float * Z * Z * option nat) (i : nat) =>
       let '(best_gain, best_uv, best_t, winner) := acc in
       if F32.ltb best_gain (nth i (best_gains pub) F32.zero)
       then (nth i (best_gains pub) F32.zero,
             nth i (best_uvs pub) 0,
             nth i (best_ts pub) 0,
             Some i)
       else acc)
    (seq 0 (Z.to_nat n_threads)) (F32.zero, 0, 0, None).

(** The tree under construction, the queue of nodes to train and the list
    of leaf histograms. *)
Record Trainer := mkTrainer {
  tree : list Node;
  train_queue : list NodeTrainData;
  n_histograms : Z;
  tree_histograms : list (list float)
}.

Definition set_split (n : Node) (uv : UVPair) (t : float) : Node :=
  mkNode uv t 0.

Definition set_leaf (n : Node) (idx : Z) : Node :=
  mkNode (node_uv n) (node_t n) idx.

Definition tree_node (tree : list Node) (id : Z) : Node :=
  nth (Z.to_nat id) tree default_node.

(** The body of the training loop of [main] after the second barrier, for
    the node at the head of the queue. [None] is the [break] taken when
    the interrupt flag is set. *)
Definition train_node (ctx : TrainContext) (n_threads : Z)
    (interrupted : bool) (pub : Published) (st : Trainer)
    : outcome (option (Trainer * Published)) :=
  match train_queue st with
  | [] => Ok None
  | node_data :: rest =>
      if interrupted then Ok None
      else
        let '(best_gain, best_uv, best_t, winner) :=
          best_of_threads n_threads pub in
        let node := tree_node (tree st) (nd_id node_data) in
        if F32.ltb F32.zero best_gain
           && (to_uint32 (nd_depth node_data + 1) <? ctx_max_depth ctx)
        then
          let uv := nth (Z.to_nat best_uv) (ctx_uvs ctx) default_uv in
          let t := nth (Z.to_nat best_t) (ctx_ts ctx) F32.zero in
          match winner with
          | None => Undefined
          | Some w =>
              '(l_pixels, r_pixels, counts) <-
                collect_pixels ctx node_data uv t
                               (n_lr_pixels (published_by pub w)) ;;
              let id := to_uint32 (2 * nd_id node_data + 1) in
              let depth := to_uint32 (nd_depth node_data + 1) in
              let ldata :=
                create_node_train_data [] ctx id depth (fst counts)
                                       (Some l_pixels) in
              let rdata :=
                create_node_train_data [] ctx (to_uint32 (id + 1)) depth
                                       (snd counts) (Some r_pixels) in
              Ok (Some
                    (mkTrainer
                       (store (Z.to_nat (nd_id node_data))
                              (set_split node uv t) (tree st))
                       (rest ++ [ldata; rdata])
                       (n_histograms st)
                       (tree_histograms st),
                     mkPublished
                       (best_gains pub) (best_uvs pub) (best_ts pub)
                       (store (2 * w + 1) (snd counts)
                          (store (2 * w) (fst counts) (all_n_lr_pixels pub)))
                       (root_nhistogram pub)))
          end
        else
          let idx := to_uint32 (n_histograms st + 1) in
          Ok (Some
                (mkTrainer
                   (store (Z.to_nat (nd_id node_data)) (set_leaf node idx)
                          (tree st))
                   rest
                   idx
                   (tree_histograms st ++ [root_nhistogram pub]),
                 pub))
  end.

(** One turn of the training loop in which every worker goes on behind
    [ready_barrier]: the workers run on the head of the
    queue, then the coordinator decides. *)
Definition train_iteration (ctx : TrainContext) (n_threads : Z)
    (sig : nat -> Signals) (interrupted : bool) (pub : Published)
    (st : Trainer) : outcome (option (Trainer * Published)) :=
  match train_queue st with
  | [] => Ok None
  | node_data :: _ =>
      pub' <- run_threads ctx node_data n_threads sig pub ;;
      train_node ctx n_threads interrupted pub' st
  end.

(** ** train_rdt.cc: restoring a checkpoint *)

(** [(uint32_t)roundf(powf(2.f, depth)) - 1]. *)
Definition n_tree_nodes (depth : Z) : Z := 2 ^ depth - 1.

(** The constant [1e-6], a double. *)
Definition fov_tolerance : spec_float :=
  S754_finite false 4722366482869645 (-72).

Definition fov_differs (checkpoint_fov fov : float) : bool :=
  SFltb fov_tolerance (F32.to_double (F32.abs (F32.sub checkpoint_fov fov))).

(** "Do some basic validation". *)
Definition validate_checkpoint (ctx : TrainContext) (header : RDTHeader)
    : outcome unit :=
  if negb (hdr_n_labels header =? ctx_n_labels ctx)
  then Exit 1 CheckpointLabels
  else if fov_differs (hdr_fov header) (ctx_fov ctx)
  then Exit 1 CheckpointFov
  else if ctx_max_depth ctx <? hdr_depth header
  then Exit 1 CheckpointDepth
  else Ok tt.

(** What the walk over the saved tree builds. *)
Record Restored := mkRestored {
  r_train_queue : list NodeTrainData;
  r_n_histograms : Z;
  r_tree_histograms : list (list float)
}.

(** [train_queue ? llist_insert_after(train_queue, llist_new(data)) :
    train_queue = llist_new(data)]: [train_queue] stays the first element
    of the list, and a later node is linked in right behind it. *)
Definition enqueue_restored (train_queue : list NodeTrainData)
    (data : NodeTrainData) : list NodeTrainData :=
  match train_queue with
  | [] => [data]
  | first :: others => first :: data :: others
  end.

(** "Navigate the tree to determine any unfinished nodes": the loop over
    [checkpoint_queue]. Reading a node the tree array does not hold is
    undefined; [None] means that [fuel] turns of the loop did not empty the
    queue. *)
Fixpoint walk_checkpoint (fuel : nat) (ctx : TrainContext)
    (checkpoint : RDTree) (tree : list Node)
    (checkpoint_queue : list NodeTrainData) (acc : Restored)
    : option (outcome Restored) :=
  match checkpoint_queue with
  | [] => Some (Ok acc)
  | data :: rest =>
      match fuel with
      | O => None
      | S fuel' =>
          if Z.of_nat (length tree) <=? nd_id data then Some Undefined
          else
            let node := tree_node tree (nd_id data) in
            let header := rdt_header checkpoint in
            (* a valid probability table is copied to the list *)
            let acc :=
              if negb (node_label_pr_idx node =? 0)
                 && negb (node_label_pr_idx node =? UINT32_MAX)
              then
                mkRestored
                  (r_train_queue acc)
                  (to_uint32 (r_n_histograms acc + 1))
                  (r_tree_histograms acc ++
                   [slice F32.zero (rdt_label_pr_tables checkpoint)
                          (ctx_n_labels ctx * (node_label_pr_idx node - 1))
                          (ctx_n_labels ctx)])
              else acc in
            if (node_label_pr_idx node =? UINT32_MAX)
               || ((nd_depth data =? to_uint32 (hdr_depth header - 1))
                   && (hdr_depth header <? ctx_max_depth ctx))
            then
              (* referenced and incomplete: add it to the training queue *)
              walk_checkpoint fuel' ctx checkpoint tree rest
                (mkRestored (enqueue_restored (r_train_queue acc) data)
                            (r_n_histograms acc) (r_tree_histograms acc))
            else if node_label_pr_idx node =? 0
            then
              match collect_pixels ctx data (node_uv node) (node_t node)
                                   (0, 0) with
              | Ok (l_pixels, r_pixels, counts) =>
                  let id := to_uint32 (2 * nd_id data + 1) in
                  let depth := to_uint32 (nd_depth data + 1) in
                  let ldata :=
                    create_node_train_data [] ctx id depth (fst counts)
                                           (Some l_pixels) in
                  let rdata :=
                    create_node_train_data [] ctx (to_uint32 (id + 1)) depth
                                           (snd counts) (Some r_pixels) in
                  walk_checkpoint fuel' ctx checkpoint tree
                                  (rest ++ [ldata; rdata]) acc
              | Exit code m => Some (Exit code m)
              | Undefined => Some Undefined
              end
            else walk_checkpoint fuel' ctx checkpoint tree rest acc
      end
  end.

(** The tree array after the saved nodes have been copied into it. *)
Definition restored_tree (ctx : TrainContext) (checkpoint : RDTree)
    : list Node :=
  let n_nodes := n_tree_nodes (ctx_max_depth ctx) in
  let n_checkpoint_nodes :=
    n_tree_nodes (hdr_depth (rdt_header checkpoint)) in
  slice default_node (rdt_nodes checkpoint) 0 n_checkpoint_nodes
  ++ repeat default_node (Z.to_nat (n_nodes - n_checkpoint_nodes)).

(** The part of [main] between the creation of the workers and "Beginning
    training...". [continue] is the [-i] option and [read_tree] what
    reading the output file gave. *)
Definition prepare_training (fuel : nat) (root_pixels : list Int3D)
    (ctx : TrainContext) (continue : bool) (read_tree : option RDTree)
    : option (outcome Trainer) :=
  let n_nodes := n_tree_nodes (ctx_max_depth ctx) in
  let root := create_node_train_data root_pixels ctx 0 0 0 None in
  match continue, read_tree with
  | true, Some checkpoint =>
      match validate_checkpoint ctx (rdt_header checkpoint) with
      | Ok _ =>
          let tree := restored_tree ctx checkpoint in
          match walk_checkpoint fuel ctx checkpoint tree [root]
                                (mkRestored [] 0 []) with
          | Some (Ok r) =>
              match r_train_queue r with
              | [] => Some (Exit 1 AlreadyTrained)
              | _ :: _ =>
                  Some (Ok (mkTrainer tree (r_train_queue r)
                                      (r_n_histograms r)
                                      (r_tree_histograms r)))
              end
          | Some (Exit code m) => Some (Exit code m)
          | Some Undefined => Some Undefined
          | None => None
          end
      | Exit code m => Some (Exit code m)
      | Undefined => Some Undefined
      end
  | _, _ =>
      (* Mark nodes in tree as unfinished, for checkpoint restoration *)
      Some (Ok (mkTrainer
                  (repeat (set_leaf default_node UINT32_MAX)
                          (Z.to_nat n_nodes))
                  [root] 0 []))
  end.

End Worker.

(** * Part II: properties *)

(** ** Machine integers *)

Lemma to_uint32_range z : 0 <= to_uint32 z < 2 ^ 32.
Proof. unfold to_uint32. apply Z.mod_pos_bound. lia. Qed.

Lemma to_uint32_small z : 0 <= z < 2 ^ 32 -> to_uint32 z = z.
Proof. intros H. unfold to_uint32. now apply Z.mod_small. Qed.

Lemma to_int32_range z : - 2 ^ 31 <= to_int32 z < 2 ^ 31.
Proof.
  unfold to_int32.
  pose proof (Z.mod_pos_bound (z + 2 ^ 31) (2 ^ 32) ltac:(lia)). lia.
Qed.

Lemma to_int32_small z : - 2 ^ 31 <= z < 2 ^ 31 -> to_int32 z = z.
Proof. intros H. unfold to_int32. rewrite Z.mod_small; lia. Qed.

(** Above [2^31] the signed reading of an unsigned value is negative. *)
Lemma to_int32_large z : 2 ^ 31 <= z < 2 ^ 32 -> to_int32 z = z - 2 ^ 32.
Proof.
  intros H. unfold to_int32.
  replace (z + 2 ^ 31) with (z - 2 ^ 31 + 1 * 2 ^ 32) by lia.
  rewrite Z.mod_add, Z.mod_small; lia.
Qed.

(** Two unsigned 32-bit values with the same signed reading are equal:
    the conversion to [int32_t] loses nothing. *)
Lemma to_int32_inj a b :
  0 <= a < 2 ^ 32 -> 0 <= b < 2 ^ 32 -> to_int32 a = to_int32 b -> a = b.
Proof.
  intros Ha Hb H.
  destruct (Z_lt_ge_dec a (2 ^ 31)), (Z_lt_ge_dec b (2 ^ 31));
    rewrite ?(to_int32_small a), ?(to_int32_large a),
            ?(to_int32_small b), ?(to_int32_large b) in H by lia; lia.
Qed.

Lemma to_int32_mod z : to_int32 (to_uint32 z) = to_int32 z.
Proof.
  unfold to_int32, to_uint32.
  now rewrite Z.add_mod_idemp_l by lia.
Qed.

Lemma to_uint32_of_int32 z : to_uint32 (to_int32 z) = to_uint32 z.
Proof.
  unfold to_int32, to_uint32.
  rewrite <- Zminus_mod_idemp_l, Z.mod_mod by lia.
  rewrite Zminus_mod_idemp_l. f_equal. lia.
Qed.

(** ** The feature evaluator *)

(** The cast to [int32_t] agrees with the integer part wherever the
    bounds test can succeed. *)
Lemma to_int32_in_range (f : float) (bound : Z) :
  0 <= bound < 2 ^ 31 ->
  match F32.trunc f with
  | Some z =>
      (0 <=? F32.to_int32 f) && (F32.to_int32 f <? bound)
      = (0 <=? z) && (z <? bound)
      /\ ((0 <=? z) && (z <? bound) = true -> F32.to_int32 f = z)
  | None => (0 <=? F32.to_int32 f) = false
  end.
Proof.
  intros Hb. unfold F32.to_int32.
  destruct (F32.trunc f) as [z|]; [|reflexivity].
  destruct ((INT32_MIN <=? z) && (z <? 2 ^ 31)) eqn:E.
  - split; [reflexivity|trivial].
  - assert (Hz : z < 0 \/ bound <= z).
    { apply andb_false_iff in E. unfold INT32_MIN in E.
      destruct E as [E|E]; [apply Z.leb_gt in E|apply Z.ltb_ge in E]; lia. }
    assert (R : (0 <=? z) && (z <? bound) = false).
    { apply andb_false_iff.
      destruct Hz; [left; apply Z.leb_gt|right; apply Z.ltb_ge]; lia. }
    rewrite R. split; [reflexivity|discriminate].
Qed.

(** Subtraction is odd, up to the sign of a zero result. *)
Lemma binary_round_aux_sign s m e l :
  binary_round_aux F32.prec F32.emax (negb s) m e l
  = SFopp (binary_round_aux F32.prec F32.emax s m e l).
Proof.
  unfold binary_round_aux.
  destruct (shr_fexp F32.prec F32.emax m e l) as [mrs e'].
  destruct (shr_fexp _ _ _ e' loc_Exact) as [mrs' e''].
  destruct (shr_m mrs'); try reflexivity.
  now destruct (e'' <=? F32.emax - F32.prec).
Qed.

Lemma binary_normalize_opp m e :
  m <> 0 ->
  binary_normalize F32.prec F32.emax (- m) e false
  = SFopp (binary_normalize F32.prec F32.emax m e false).
Proof.
  destruct m as [|p|p]; [congruence| |]; intros _; cbn [Z.opp binary_normalize];
    unfold binary_round;
    destruct (shl_align p e _) as [mz ez].
  - apply (binary_round_aux_sign false).
  - rewrite (binary_round_aux_sign false).
    now destruct (binary_round_aux _ _ false _ _ _) as [[]|[]| |[] ? ?].
Qed.

Lemma sub_swap (a b : float) :
  F32.sub a b = F32.neg (F32.sub b a)
  \/ (F32.sub a b = F32.zero /\ F32.sub b a = F32.zero).
Proof.
  unfold F32.sub, F32.neg, F32.zero.
  destruct a as [sa|sa| |sa ma ea], b as [sb|sb| |sb mb eb];
    try (left; reflexivity);
    try (destruct sa, sb; cbn; auto; fail);
    try (destruct sa; cbn; auto; fail);
    try (destruct sb; cbn; auto; fail).
  cbn [SFsub]. rewrite (Z.min_comm eb ea).
  set (ez := Z.min ea eb).
  set (x := cond_Zopp sa (Z.pos (fst (shl_align ma ea ez)))).
  set (y := cond_Zopp sb (Z.pos (fst (shl_align mb eb ez)))).
  destruct (Z.eq_dec (y - x) 0) as [E|E].
  - right. replace (x - y) with 0 by lia. rewrite E. now split.
  - left. replace (x - y) with (- (y - x)) by lia.
    now apply binary_normalize_opp.
Qed.

Section SampleUV.

Variables (depth_image : list half) (width height : Z).
Hypothesis Hw : 0 <= width < 2 ^ 31.
Hypothesis Hh : 0 <= height < 2 ^ 31.
Hypothesis Hwh : width * height <= 2 ^ 32.

(** One point: the code's cast, bounds test and flat index against the
    specification's integer part and two-dimensional lookup. *)
Lemma sample_point (fx fy : float) :
  (if in_image width height (F32.to_int32 fx, F32.to_int32 fy)
   then depth_at depth_image
          (to_uint32 (to_uint32 (F32.to_int32 fy) * width + F32.to_int32 fx))
   else F32.of_Z 1000)
  = depth_or_background depth_image width height (F32.trunc fx, F32.trunc fy).
Proof.
  unfold in_image, depth_or_background, inside; cbn [fst snd].
  rewrite !to_int32_small by lia.
  pose proof (to_int32_in_range fx width Hw) as Hx.
  pose proof (to_int32_in_range fy height Hh) as Hy.
  rewrite <- andb_assoc.
  destruct (F32.trunc fx) as [zx|].
  - destruct Hx as [Hx Hx']. rewrite Hx.
    destruct (F32.trunc fy) as [zy|].
    + destruct Hy as [Hy Hy']. rewrite Hy.
      rewrite <- (andb_assoc ((0 <=? zx) && (zx <? width))).
      destruct ((0 <=? zx) && (zx <? width)) eqn:Ex; [|reflexivity].
      destruct ((0 <=? zy) && (zy <? height)) eqn:Ey; [|reflexivity].
      cbn [andb]. rewrite Hx', Hy' by reflexivity.
      apply andb_true_iff in Ex, Ey.
      destruct Ex as [E1 E2], Ey as [E3 E4].
      apply Z.leb_le in E1, E3. apply Z.ltb_lt in E2, E4.
      rewrite (to_uint32_small zy) by lia.
      rewrite to_uint32_small; [reflexivity|nia].
    + rewrite Hy. now rewrite andb_false_r.
  - rewrite Hx. reflexivity.
Qed.

Lemma sample_uv_depth_difference pixel depth uv :
  sample_uv depth_image width height pixel depth uv
  = depth_difference depth_image width height pixel depth uv.
Proof.
  unfold sample_uv, depth_difference, point_u, point_v, offset_coord.
  cbv zeta. now rewrite !sample_point.
Qed.

End SampleUV.

(** A 2 x 1 image holding the depths 1.0 and 3.0. *)
Definition two_pixels : list half :=
  [S754_finite false 1024 (-10); S754_finite false 1536 (-9)].

(** Offsets of 1.75 and -0.5 pixels for [u], none for [v]. *)
Definition uv_fraction : UVPair :=
  mkUV (F32.div (F32.of_Z 7) (F32.of_Z 4))
       (F32.div (F32.of_Z (-1)) (F32.of_Z 2))
       F32.zero F32.zero.

(** Coordinates are cut, neither rounded nor floored: 1.75 becomes 1 and
    -0.5 becomes 0, so [u] is the second pixel of the image. *)
Example sample_uv_truncates :
  point_u (0, 0) (F32.of_Z 1) uv_fraction = (Some 1, Some 0)
  /\ sample_uv two_pixels 2 1 (0, 0) (F32.of_Z 1) uv_fraction = F32.of_Z 2.
Proof. split; reflexivity. Qed.

(** C1. For every pixel, depth, image and uv 4-tuple, [sample_uv] returns
    the binary32 difference [D_u - D_v], where [u] and [v] are the pixel
    moved by [uv / depth] with every coordinate cut to its integer part
    and [D_p] is the depth stored at [p] when [p] lies in the image and
    1000.0 otherwise. The result is [+0.0] when both points are outside,
    [1000 - D] when only [u] is outside and [D - 1000], the opposite of
    [1000 - D], when only [v] is. *)
Theorem sample_uv_spec (depth_image : list half) (width height : Z)
    (pixel : Int2D) (depth : float) (uv : UVPair) :
  0 <= width < 2 ^ 31 ->
  0 <= height < 2 ^ 31 ->
  width * height <= 2 ^ 32 ->
  let u := point_u pixel depth uv in
  let v := point_v pixel depth uv in
  let value := sample_uv depth_image width height pixel depth uv in
  value = F32.sub (depth_or_background depth_image width height u)
                  (depth_or_background depth_image width height v)
  /\ (inside width height u = false -> inside width height v = false ->
      value = F32.zero)
  /\ (forall px py,
        inside width height u = false ->
        v = (Some px, Some py) -> inside width height v = true ->
        value = F32.sub (F32.of_Z 1000)
                        (depth_at depth_image (py * width + px)))
  /\ (forall px py,
        u = (Some px, Some py) -> inside width height u = true ->
        inside width height v = false ->
        let D := depth_at depth_image (py * width + px) in
        value = F32.sub D (F32.of_Z 1000)
        /\ (value = F32.neg (F32.sub (F32.of_Z 1000) D)
            \/ (value = F32.zero
                /\ F32.sub (F32.of_Z 1000) D = F32.zero))).
Proof.
  intros Hw Hh Hwh u v value.
  assert (E : value = F32.sub
                        (depth_or_background depth_image width height u)
                        (depth_or_background depth_image width height v))
    by (apply sample_uv_depth_difference; assumption).
  assert (Out : forall p, inside width height p = false ->
                  depth_or_background depth_image width height p
                  = F32.of_Z 1000).
  { intros [[px|] [py|]] Hp; cbn [depth_or_background]; try reflexivity.
    now rewrite Hp. }
  split; [exact E|]. split; [|split].
  - intros Hu Hv. rewrite E, (Out u Hu), (Out v Hv). reflexivity.
  - intros px py Hu Ev Hv. rewrite E, (Out u Hu).
    rewrite Ev in Hv |- *. cbn [depth_or_background]. now rewrite Hv.
  - intros px py Eu Hu Hv D. rewrite E, (Out v Hv).
    rewrite Eu in Hu |- *. cbn [depth_or_background]. rewrite Hu.
    fold D. split; [reflexivity|apply sub_swap].
Qed.

(** The theorem at the 2 x 1 image, where [u] is inside and [v] is the
    pixel itself. *)
Lemma sample_uv_spec_witness :
  let u := point_u (0, 0) (F32.of_Z 1) uv_fraction in
  let v := point_v (0, 0) (F32.of_Z 1) uv_fraction in
  sample_uv two_pixels 2 1 (0, 0) (F32.of_Z 1) uv_fraction
  = F32.sub (depth_or_background two_pixels 2 1 u)
            (depth_or_background two_pixels 2 1 v).
Proof.
  intros u v.
  apply (sample_uv_spec two_pixels 2 1 (0, 0) (F32.of_Z 1) uv_fraction);
    lia.
Defined.

(** ** The threshold table *)

Section Thresholds.

Context {F : Type} {ops : FloatOps F}.

Lemma thresholds_length (t_range : F) (n_t : Z) :
  length (thresholds t_range n_t) = Z.to_nat n_t.
Proof. unfold thresholds. now rewrite length_map, length_seq. Qed.

Lemma thresholds_nth (t_range : F) (n_t : Z) (i : nat) (d : F) :
  (i < Z.to_nat n_t)%nat ->
  nth i (thresholds t_range n_t) d = threshold t_range n_t (Z.of_nat i).
Proof.
  intros Hi. unfold thresholds.
  rewrite (nth_indep _ d (threshold t_range n_t (Z.of_nat 0)))
    by now rewrite length_map, length_seq.
  rewrite (map_nth (fun i => threshold t_range n_t (Z.of_nat i))).
  now rewrite seq_nth.
Qed.

End Thresholds.

(** In exact arithmetic the thresholds are the points
    [-t_range/2 + i * t_range / (n_t - 1)]. *)
Lemma threshold_exact (t_range : R) (n_t i : Z) :
  2 <= n_t < 2 ^ 32 ->
  threshold t_range n_t i
  = (- t_range / 2 + IZR i * t_range / IZR (n_t - 1))%R.
Proof.
  intros Hn. unfold threshold; cbn.
  rewrite to_uint32_small by lia. reflexivity.
Qed.

(** The default range of thresholds, [1.29f]. *)
Definition default_t_range : float := S754_finite false 10821304 (-23).

(** With one threshold the table holds a NaN, the result of [0 / 0]; with
    fourteen thresholds over the default range the last one lies above
    [t_range / 2]. *)
Lemma thresholds_counterexample :
  thresholds default_t_range 1 = [S754_nan]
  /\ F32.ltb (F32.div default_t_range (F32.of_Z 2))
             (nth 13 (thresholds default_t_range 14) F32.zero) = true.
Proof. split; reflexivity. Qed.

(** ** The order of binary32 *)

(** [SFcompare] on finite numbers of one sign, as a comparison of pairs. *)
Definition lex_compare (e1 : Z) (m1 : positive) (e2 : Z) (m2 : positive)
    : comparison :=
  match e1 ?= e2 with
  | Lt => Lt
  | Gt => Gt
  | Eq => (m1 ?= m2)%positive
  end.

Lemma lex_compare_lt_trans e1 m1 e2 m2 e3 m3 :
  lex_compare e1 m1 e2 m2 = Lt -> lex_compare e2 m2 e3 m3 = Lt ->
  lex_compare e1 m1 e3 m3 = Lt.
Proof.
  unfold lex_compare.
  destruct (Z.compare_spec e1 e2), (Z.compare_spec e2 e3),
           (Z.compare_spec e1 e3); try discriminate; try lia; trivial.
  rewrite !Pos.compare_lt_iff. lia.
Qed.

Lemma lex_compare_gt_trans e1 m1 e2 m2 e3 m3 :
  lex_compare e1 m1 e2 m2 = Gt -> lex_compare e2 m2 e3 m3 = Gt ->
  lex_compare e1 m1 e3 m3 = Gt.
Proof.
  unfold lex_compare.
  destruct (Z.compare_spec e1 e2), (Z.compare_spec e2 e3),
           (Z.compare_spec e1 e3); try discriminate; try lia; trivial.
  rewrite !Pos.compare_gt_iff. lia.
Qed.

Lemma lex_compare_eq e1 m1 e2 m2 :
  lex_compare e1 m1 e2 m2 = Eq -> e1 = e2 /\ m1 = m2.
Proof.
  unfold lex_compare.
  destruct (Z.compare_spec e1 e2); try discriminate.
  intros Hm. apply Pos.compare_eq in Hm. now split.
Qed.

Lemma lex_compare_antisym e1 m1 e2 m2 :
  lex_compare e2 m2 e1 m1 = CompOpp (lex_compare e1 m1 e2 m2).
Proof.
  unfold lex_compare.
  rewrite (Z.compare_antisym e1 e2), (Pos.compare_antisym m1 m2).
  now destruct (e1 ?= e2).
Qed.

Lemma SFcompare_finite s1 m1 e1 s2 m2 e2 :
  SFcompare (S754_finite s1 m1 e1) (S754_finite s2 m2 e2)
  = Some match s1, s2 with
         | true, false => Lt
         | false, true => Gt
         | false, false => lex_compare e1 m1 e2 m2
         | true, true => CompOpp (lex_compare e1 m1 e2 m2)
         end.
Proof.
  unfold lex_compare; cbn [SFcompare].
  destruct s1, s2; try reflexivity; now destruct (e1 ?= e2).
Qed.

Ltac float_cases :=
  repeat match goal with
         | x : float |- _ => destruct x as [[]|[]| |[] ? ?]
         end.

Lemma ltb_trans (a b c : float) :
  F32.ltb a b = true -> F32.ltb b c = true -> F32.ltb a c = true.
Proof.
  unfold F32.ltb, SFltb.
  float_cases; rewrite ?SFcompare_finite; cbn; try discriminate; trivial;
    destruct (lex_compare e1 m1 e0 m0) eqn:E1; try discriminate;
    destruct (lex_compare e0 m0 e m) eqn:E2; try discriminate;
    intros _ _;
    first [ now rewrite (lex_compare_lt_trans _ _ _ _ _ _ E1 E2)
          | now rewrite (lex_compare_gt_trans _ _ _ _ _ _ E1 E2) ].
Qed.

(** A value equal to the greater side of [<] is greater too. *)
Lemma ltb_eqb_r (a b c : float) :
  F32.ltb a b = true -> SFeqb c b = true -> F32.ltb a c = true.
Proof.
  unfold F32.ltb, SFltb, SFeqb.
  float_cases; rewrite ?SFcompare_finite; cbn; try discriminate; trivial.
  - destruct (lex_compare e m e0 m0) eqn:E; try discriminate.
    apply lex_compare_eq in E. destruct E; subst. trivial.
  - destruct (lex_compare e m e0 m0) eqn:E; try discriminate.
    apply lex_compare_eq in E. destruct E; subst. trivial.
Qed.

(** Of two numbers, neither a NaN, one is below the other or they are
    equal. *)
Lemma ltb_total (a b : float) :
  F32.is_nan a = false -> F32.is_nan b = false ->
  F32.ltb a b = false -> F32.ltb b a = false -> SFeqb a b = true.
Proof.
  unfold F32.ltb, SFltb, SFeqb, F32.is_nan.
  float_cases; rewrite ?SFcompare_finite; cbn; try discriminate; trivial;
    rewrite (lex_compare_antisym e0 m0 e m);
    now destruct (lex_compare e0 m0 e m).
Qed.

Lemma ltb_irrefl (a : float) : F32.ltb a a = false.
Proof.
  unfold F32.ltb, SFltb.
  float_cases; rewrite ?SFcompare_finite; cbn; trivial;
    unfold lex_compare; now rewrite Z.compare_refl, Pos.compare_refl.
Qed.

(** ** The reduction over the workers *)

(** What holds of the running best after the first [k] workers have been
    looked at. *)
Definition reduced (pub : Published) (k : nat)
    (acc : float * Z * Z * option nat) : Prop :=
  let G := fun j => nth j (best_gains pub) F32.zero in
  let '(best_gain, best_uv, best_t, winner) := acc in
  match winner with
  | Some w =>
      (w < k)%nat
      /\ best_gain = G w
      /\ best_uv = nth w (best_uvs pub) 0
      /\ best_t = nth w (best_ts pub) 0
      /\ F32.ltb F32.zero (G w) = true
      /\ (forall j, (j < k)%nat -> F32.ltb (G w) (G j) = false)
      /\ (forall j, (j < w)%nat -> SFeqb (G j) (G w) = false)
  | None =>
      best_gain = F32.zero /\ best_uv = 0 /\ best_t = 0
      /\ (forall j, (j < k)%nat -> F32.ltb F32.zero (G j) = false)
  end.

Lemma ltb_not_nan (a b : float) :
  F32.ltb a b = true -> F32.is_nan b = false.
Proof.
  destruct b; try reflexivity.
  unfold F32.ltb, SFltb. now destruct a.
Qed.

Lemma not_ltb_after (a b c : float) :
  F32.ltb a b = true -> F32.ltb a c = false -> F32.ltb b c = false.
Proof.
  intros Hab Hac. destruct (F32.ltb b c) eqn:Hbc; [|reflexivity].
  now rewrite (ltb_trans a b c Hab Hbc) in Hac.
Qed.

Lemma not_eqb_after (a b c : float) :
  F32.ltb a b = true -> F32.ltb a c = false -> SFeqb c b = false.
Proof.
  intros Hab Hac. destruct (SFeqb c b) eqn:E; [|reflexivity].
  now rewrite (ltb_eqb_r a b c Hab E) in Hac.
Qed.

Lemma best_of_threads_step (pub : Published) (k : nat) acc :
  reduced pub k acc ->
  reduced pub (S k)
    (let '(best_gain, best_uv, best_t, winner) := acc in
     if F32.ltb best_gain (nth k (best_gains pub) F32.zero)
     then (nth k (best_gains pub) F32.zero, nth k (best_uvs pub) 0,
           nth k (best_ts pub) 0, Some k)
     else acc).
Proof.
  destruct acc as [[[g u] t] [w|]]; unfold reduced.
  - intros (Hw & -> & -> & -> & Hpos & Hmax & Hfirst).
    destruct (F32.ltb _ (nth k _ _)) eqn:E.
    + repeat split; try lia.
      * exact (ltb_trans _ _ _ Hpos E).
      * intros j Hj. destruct (Nat.eq_dec j k) as [->|Hne].
        -- apply ltb_irrefl.
        -- apply (not_ltb_after _ _ _ E). apply Hmax. lia.
      * intros j Hj. apply (not_eqb_after _ _ _ E).
        destruct (Nat.eq_dec j w) as [->|Hne]; [apply ltb_irrefl|].
        apply Hmax. lia.
    + repeat split; try lia; trivial.
      intros j Hj. destruct (Nat.eq_dec j k) as [->|Hne]; [exact E|].
      apply Hmax. lia.
  - intros (-> & -> & -> & Hz).
    destruct (F32.ltb _ (nth k _ _)) eqn:E.
    + repeat split; try lia; trivial.
      * intros j Hj. destruct (Nat.eq_dec j k) as [->|Hne].
        -- apply ltb_irrefl.
        -- apply (not_ltb_after _ _ _ E). apply Hz. lia.
      * intros j Hj. apply (not_eqb_after _ _ _ E). apply Hz. lia.
    + repeat split; trivial.
      intros j Hj. destruct (Nat.eq_dec j k) as [->|Hne]; [exact E|].
      apply Hz. lia.
Qed.

Lemma best_of_threads_reduced (n_threads : Z) (pub : Published) :
  reduced pub (Z.to_nat n_threads) (best_of_threads n_threads pub).
Proof.
  unfold best_of_threads.
  induction (Z.to_nat n_threads) as [|k IH].
  - cbn. repeat split; trivial. intros j Hj. lia.
  - rewrite seq_S, fold_left_app. cbn [fold_left Nat.add].
    apply best_of_threads_step in IH. exact IH.
Qed.




(** ** The early exit of the worker *)

Section EarlyExit.

Variable log2f : float -> float.

(** At the last depth a pixel only reaches the root histogram. *)
Lemma accumulate_pixel_last_depth ctx data c_start c_end px hs hs' :
  to_uint32 (ctx_max_depth ctx - 1) <= nd_depth data ->
  accumulate_pixel ctx data c_start c_end px hs = Ok hs' ->
  snd hs' = snd hs.
Proof.
  intros Hd. unfold accumulate_pixel.
  destruct (ctx_n_labels ctx <=? pixel_label ctx px); [discriminate|].
  apply Z.leb_le in Hd. rewrite Hd.
  intros [= <-]. reflexivity.
Qed.

Lemma accumulate_loop_last_depth ctx data c_start c_end interrupted :
  to_uint32 (ctx_max_depth ctx - 1) <= nd_depth data ->
  forall pixels p hs hs',
    accumulate_loop ctx data c_start c_end interrupted p pixels hs = Ok hs' ->
    snd hs' = snd hs.
Proof.
  intros Hd. induction pixels as [|px rest IH]; intros p hs hs'; cbn.
  - now intros [= <-].
  - destruct (interrupted p); [now intros [= <-]|].
    destruct (accumulate_pixel ctx data c_start c_end px hs) as [hs1| |] eqn:E;
      cbn; try discriminate.
    intros H. rewrite (IH _ _ _ H).
    exact (accumulate_pixel_last_depth _ _ _ _ _ _ _ Hd E).
Qed.

(** C6. A worker whose node has at most one non-empty label, or sits at
    depth [max_depth - 1], publishes a gain of 0 and leaves the rest of
    its slot as it was: the candidate loops are not entered. At that depth
    the histogram engine leaves the left and right histograms as they
    were cleared. *)
Theorem thread_body_early_exit (ctx : TrainContext) (data : NodeTrainData)
    (c_start c_end : Z) (sig : Signals) (previous : ThreadBest)
    (root_histogram lr_histograms : list Z) :
  let cleared_root := repeat 0 (Z.to_nat (ctx_n_labels ctx)) in
  let cleared_lr :=
    repeat 0 (Z.to_nat (to_uint32 (ctx_n_labels ctx * (c_end - c_start)
                                   * ctx_n_t ctx * 2))) in
  accumulate_histograms ctx data c_start c_end (in_accumulate sig)
                        cleared_root cleared_lr
  = Ok (root_histogram, lr_histograms) ->
  snd (histogram_sums root_histogram (ctx_n_labels ctx)) <= 1
  \/ nd_depth data = to_uint32 (ctx_max_depth ctx - 1) ->
  thread_body log2f ctx data c_start c_end sig previous
  = Ok (mkBest F32.zero (best_uv previous) (best_t previous)
               (n_lr_pixels previous),
        snd (normalize_histogram root_histogram (ctx_n_labels ctx)))
  /\ (nd_depth data = to_uint32 (ctx_max_depth ctx - 1) ->
      lr_histograms = cleared_lr).
Proof.
  intros cleared_root cleared_lr Hacc Hexit. split.
  - unfold thread_body. fold cleared_root cleared_lr. rewrite Hacc.
    cbn [bind]. unfold normalize_histogram at 1. cbv zeta.
    replace ((1 <? snd (histogram_sums root_histogram (ctx_n_labels ctx)))
             && (nd_depth data <? to_uint32 (ctx_max_depth ctx - 1)))
      with false; [reflexivity|].
    symmetry. apply andb_false_iff.
    destruct Hexit as [H|H]; [left|right]; apply Z.ltb_ge; lia.
  - intros Hd. unfold accumulate_histograms in Hacc.
    apply accumulate_loop_last_depth in Hacc; [exact Hacc|lia].
Qed.

End EarlyExit.

(** ** Arrays of counters *)

(** The sum of [n] counters from [a[base]] on. *)
Definition total (l : list Z) : Z := fold_right Z.add 0 l.

Definition segment (a : list Z) (base n : Z) : Z := total (slice 0 a base n).

(** How many elements of a list satisfy a test. *)
Definition count {A : Type} (p : A -> bool) (l : list A) : Z :=
  Z.of_nat (length (filter p l)).

Lemma slice_length {A} (d : A) a start len :
  length (slice d a start len) = Z.to_nat len.
Proof. unfold slice. now rewrite length_map, length_seq. Qed.

Lemma slice_nth {A} (d : A) a start len k :
  (k < Z.to_nat len)%nat ->
  nth k (slice d a start len) d = nth (Z.to_nat start + k) a d.
Proof.
  intros Hk. unfold slice.
  rewrite (nth_indep _ d (nth (Z.to_nat start + 0) a d))
    by (rewrite length_map, length_seq; exact Hk).
  rewrite (map_nth (fun k => nth (Z.to_nat start + k) a d) _ 0%nat).
  now rewrite seq_nth.
Qed.

Lemma slice_skipn {A} (d : A) a base start len :
  slice d (skipn base a) start len
  = slice d a (Z.of_nat base + Z.max 0 start) len.
Proof.
  unfold slice. apply map_ext. intros k.
  rewrite nth_skipn. f_equal. lia.
Qed.

Lemma slice_succ {A} (d : A) a start (n : nat) :
  slice d a start (Z.of_nat (S n))
  = slice d a start (Z.of_nat n) ++ [nth (Z.to_nat start + n) a d].
Proof.
  unfold slice. rewrite !Nat2Z.id, seq_S, map_app. reflexivity.
Qed.

Lemma total_app l1 l2 : total (l1 ++ l2) = total l1 + total l2.
Proof.
  unfold total. induction l1 as [|x l1 IH]; cbn; [reflexivity|].
  rewrite IH. lia.
Qed.

Lemma total_repeat_zero n : total (repeat 0 n) = 0.
Proof. unfold total. induction n; cbn; lia. Qed.

Lemma count_nil {A} (p : A -> bool) : count p [] = 0.
Proof. reflexivity. Qed.

Lemma count_app {A} (p : A -> bool) l1 l2 :
  count p (l1 ++ l2) = count p l1 + count p l2.
Proof. unfold count. rewrite filter_app, length_app. lia. Qed.

Lemma count_one {A} (p : A -> bool) x :
  count p [x] = if p x then 1 else 0.
Proof. unfold count. cbn. now destruct (p x). Qed.

Lemma count_range {A} (p : A -> bool) l :
  0 <= count p l <= Z.of_nat (length l).
Proof. unfold count. pose proof (filter_length_le p l). lia. Qed.

Lemma count_complement {A} (p : A -> bool) l :
  count p l + count (fun x => negb (p x)) l = Z.of_nat (length l).
Proof.
  unfold count. induction l as [|x l IH]; cbn; [reflexivity|].
  destruct (p x); cbn [negb length]; lia.
Qed.

(** *** [incr] and [store] *)

Lemma incr_length k a : length (incr k a) = length a.
Proof.
  revert k. induction a as [|h tl IH]; intros [|k]; cbn; auto.
Qed.

Lemma incr_nth_same k a :
  (k < length a)%nat -> nth k (incr k a) 0 = to_uint32 (nth k a 0 + 1).
Proof.
  revert k. induction a as [|h tl IH]; intros [|k]; cbn; intros H;
    try lia; trivial.
  apply IH. lia.
Qed.

Lemma incr_nth_other k j a : j <> k -> nth j (incr k a) 0 = nth j a 0.
Proof.
  revert k j. induction a as [|h tl IH]; intros [|k] [|j]; cbn; intros H;
    try lia; trivial.
  apply IH. lia.
Qed.

Lemma store_length {A} k (v : A) a : length (store k v a) = length a.
Proof.
  revert k. induction a as [|h tl IH]; intros [|k]; cbn; auto.
Qed.

Lemma store_nth_same {A} k (v d : A) a :
  (k < length a)%nat -> nth k (store k v a) d = v.
Proof.
  revert k. induction a as [|h tl IH]; intros [|k]; cbn; intros H;
    try lia; trivial.
  apply IH. lia.
Qed.

Lemma store_nth_other {A} k j (v d : A) a :
  j <> k -> nth j (store k v a) d = nth j a d.
Proof.
  revert k j. induction a as [|h tl IH]; intros [|k] [|j]; cbn; intros H;
    try lia; trivial.
  apply IH. lia.
Qed.

(** A segment sees an increment inside it, and only that. *)
Lemma segment_incr k a base (n : nat) :
  (k < length a)%nat -> 0 <= nth k a 0 < 2 ^ 32 - 1 -> 0 <= base ->
  segment (incr k a) base (Z.of_nat n)
  = segment a base (Z.of_nat n)
    + (if (base <=? Z.of_nat k) && (Z.of_nat k <? base + Z.of_nat n)
       then 1 else 0).
Proof.
  intros Hk Hv Hb. unfold segment.
  induction n as [|n IH].
  - cbn. replace (Z.of_nat k <? base + 0) with (Z.of_nat k <? base)
      by (f_equal; lia).
    destruct (Z.leb_spec base (Z.of_nat k)), (Z.ltb_spec (Z.of_nat k) base);
      cbn; lia.
  - rewrite !slice_succ, !total_app, IH. cbn [total fold_right].
    destruct (Nat.eq_dec (Z.to_nat base + n) k) as [E|E].
    + rewrite E, incr_nth_same, to_uint32_small by lia.
      replace ((base <=? Z.of_nat k) && (Z.of_nat k <? base + Z.of_nat n))
        with false
        by (symmetry; apply andb_false_iff; right; apply Z.ltb_ge; lia).
      replace ((base <=? Z.of_nat k)
               && (Z.of_nat k <? base + Z.of_nat (S n)))
        with true
        by (symmetry; apply andb_true_iff; split;
            [apply Z.leb_le|apply Z.ltb_lt]; lia).
      lia.
    + rewrite incr_nth_other by congruence.
      replace ((base <=? Z.of_nat k)
               && (Z.of_nat k <? base + Z.of_nat (S n)))
        with ((base <=? Z.of_nat k) && (Z.of_nat k <? base + Z.of_nat n));
        [lia|].
      f_equal.
      destruct (Z.ltb_spec (Z.of_nat k) (base + Z.of_nat n)),
               (Z.ltb_spec (Z.of_nat k) (base + Z.of_nat (S n)));
        try reflexivity; try lia.
Qed.

Lemma segment_incr_inside k a base n :
  (k < length a)%nat -> 0 <= nth k a 0 < 2 ^ 32 - 1 -> 0 <= base ->
  base <= Z.of_nat k < base + n ->
  segment (incr k a) base n = segment a base n + 1.
Proof.
  intros Hk Hv Hb Hin.
  rewrite <- (Z2Nat.id n) by lia.
  rewrite segment_incr by assumption.
  replace ((base <=? Z.of_nat k)
           && (Z.of_nat k <? base + Z.of_nat (Z.to_nat n))) with true;
    [reflexivity|].
  symmetry. apply andb_true_iff.
  split; [apply Z.leb_le|apply Z.ltb_lt]; lia.
Qed.

Lemma segment_incr_outside k a base n :
  0 <= base -> Z.of_nat k < base \/ base + n <= Z.of_nat k ->
  segment (incr k a) base n = segment a base n.
Proof.
  intros Hb Hout. unfold segment, slice. f_equal.
  apply map_ext_in. intros i Hi. apply in_seq in Hi.
  apply incr_nth_other. lia.
Qed.

(** ** The sums of a histogram *)

Lemma to_int32_add_l a b : to_int32 (to_int32 a + b) = to_int32 (a + b).
Proof.
  unfold to_int32.
  replace ((a + 2 ^ 31) mod 2 ^ 32 - 2 ^ 31 + b + 2 ^ 31)
    with ((a + 2 ^ 31) mod 2 ^ 32 + b) by lia.
  rewrite Z.add_mod_idemp_l by lia.
  do 2 f_equal. lia.
Qed.

Lemma histogram_sums_fold (l : list Z) (a c : Z) :
  (forall x, In x l -> 0 <= x) ->
  fold_left
    (fun (sums : Int2D) (h : Z) =>
       if 0 <? h then (to_int32 (fst sums + h), snd sums + 1) else sums)
    l (to_int32 a, c)
  = (to_int32 (a + total l), c + count (fun h => 0 <? h) l).
Proof.
  revert a c. induction l as [|h l IH]; intros a c Hpos.
  - cbn. f_equal; [f_equal|]; lia.
  - cbn [fold_left fst snd].
    assert (Hh : 0 <= h) by (apply Hpos; now left).
    assert (Hl : forall x, In x l -> 0 <= x)
      by (intros x Hx; apply Hpos; now right).
    change (h :: l) with ([h] ++ l). rewrite count_app, count_one.
    unfold total; cbn [fold_right app]; fold (total l).
    destruct (Z.ltb_spec 0 h).
    + rewrite to_int32_add_l, IH by assumption.
      now rewrite Z.add_assoc, (Z.add_assoc c).
    + rewrite IH by assumption.
      replace h with 0 by lia. now rewrite !Z.add_0_l.
Qed.

(** The total is the sum of the counters, read as an [int32_t]; the
    second sum is the number of counters that are not zero. *)
Lemma histogram_sums_spec (histogram : list Z) (n_labels : Z) :
  (forall x, In x (slice 0 histogram 0 n_labels) -> 0 <= x) ->
  histogram_sums histogram n_labels
  = (to_int32 (segment histogram 0 n_labels),
     count (fun h => 0 <? h) (slice 0 histogram 0 n_labels)).
Proof.
  intros Hpos. unfold histogram_sums, segment.
  change (0, 0) with (to_int32 0, 0).
  now rewrite histogram_sums_fold.
Qed.

Lemma slice_in_nth (a : list Z) start len x :
  In x (slice 0 a start len) -> exists j, x = nth j a 0.
Proof.
  unfold slice. rewrite in_map_iff. intros (k & <- & _). eauto.
Qed.

(** ** One pixel in the left and right histograms *)

(** The loops of "Partition on thresholds" as one loop over the outcomes
    of the comparisons, in the order the samples and thresholds are
    visited. *)
Definition bump_all (n_labels label : Z) (went_left : list bool)
    (st : Z * list Z) : Z * list Z :=
  fold_left
    (fun (st : Z * list Z) (b : bool) =>
       (fst st + n_labels * 2,
        incr (Z.to_nat (if b then fst st + label
                        else fst st + n_labels + label))
             (snd st)))
    went_left st.

Lemma fold_left_list_prod {A B S : Type} (g : S -> A -> B -> S)
    (l1 : list A) (l2 : list B) (s : S) :
  fold_left (fun s a => fold_left (fun s b => g s a b) l2 s) l1 s
  = fold_left (fun s ab => g s (fst ab) (snd ab)) (list_prod l1 l2) s.
Proof.
  revert s. induction l1 as [|a l1 IH]; intros s; cbn; [reflexivity|].
  rewrite fold_left_app, <- IH. f_equal.
  clear. revert s. induction l2 as [|b l2 IH]; intros s; cbn; auto.
Qed.

Lemma partition_on_thresholds_flat ctx label samples lr :
  partition_on_thresholds ctx label samples lr
  = snd (bump_all (ctx_n_labels ctx) label
           (map (fun st => F32.ltb (fst st) (snd st))
                (list_prod samples
                           (slice F32.zero (ctx_ts ctx) 0 (ctx_n_t ctx))))
           (0, lr)).
Proof.
  unfold partition_on_thresholds, bump_all. f_equal.
  rewrite (fold_left_list_prod
             (fun (st : Z * list Z) sample threshold =>
                (fst st + ctx_n_labels ctx * 2,
                 incr (Z.to_nat
                         (if F32.ltb sample threshold
                          then fst st + label
                          else fst st + ctx_n_labels ctx + label))
                      (snd st)))).
  generalize (list_prod samples (slice F32.zero (ctx_ts ctx) 0 (ctx_n_t ctx))).
  intros l. generalize (0, lr). induction l as [|x l IH]; intros st; cbn; auto.
Qed.

Definition indicator (b : bool) : Z := if b then 1 else 0.

Section Bump.

Variables (n_labels label : Z).
Hypothesis Hlabel : 0 <= label < n_labels.

(** Every comparison adds one to its own block of counters, on the left
    half or on the right half, and nothing else changes. *)
Lemma bump_all_spec (M : Z) :
  M < 2 ^ 32 - 1 ->
  forall (went_left : list bool) (base : Z) (lr : list Z),
    0 <= base ->
    base + Z.of_nat (length went_left) * (n_labels * 2)
      <= Z.of_nat (length lr) ->
    (forall j, 0 <= nth j lr 0 <= M + 1) ->
    (forall j, (Z.to_nat base <= j)%nat -> nth j lr 0 <= M) ->
    let lr' := snd (bump_all n_labels label went_left (base, lr)) in
    length lr' = length lr
    /\ (forall j, 0 <= nth j lr' 0 <= M + 1)
    /\ (forall j, (j < Z.to_nat base)%nat -> nth j lr' 0 = nth j lr 0)
    /\ (forall k, (k < length went_left)%nat ->
          let block := base + Z.of_nat k * (n_labels * 2) in
          segment lr' block n_labels
          = segment lr block n_labels + indicator (nth k went_left false)
          /\ segment lr' (block + n_labels) n_labels
             = segment lr (block + n_labels) n_labels
               + indicator (negb (nth k went_left false))).
Proof.
  intros HM. induction went_left as [|b bs IH]; intros base lr Hb Hlen Hall Hhi.
  - cbn. split; [reflexivity|]. split; [exact Hall|].
    split; [intros; reflexivity|]. intros k Hk. lia.
  - cbn [bump_all fold_left fst snd length] in *.
    set (idx := Z.to_nat (if b then base + label
                          else base + n_labels + label)).
    assert (Hidx : (Z.to_nat base <= idx < Z.to_nat (base + n_labels * 2))%nat)
      by (unfold idx; destruct b; lia).
    assert (Hn2 : 0 <= Z.of_nat (length bs) * (n_labels * 2)) by nia.
    rewrite Nat2Z.inj_succ, Z.mul_succ_l in Hlen.
    assert (Hin : (idx < length lr)%nat) by lia.
    assert (Hv : 0 <= nth idx lr 0 < 2 ^ 32 - 1).
    { split; [apply Hall|]. pose proof (Hhi idx ltac:(lia)). lia. }
    specialize (IH (base + n_labels * 2) (incr idx lr)).
    fold (bump_all n_labels label bs (base + n_labels * 2, incr idx lr)) in *.
    destruct IH as (L & B & U & Seg).
    + lia.
    + rewrite incr_length. lia.
    + intros j. destruct (Nat.eq_dec j idx) as [->|Hne].
      * rewrite incr_nth_same, to_uint32_small by lia.
        pose proof (Hhi idx (proj1 Hidx)). lia.
      * rewrite incr_nth_other by assumption. apply Hall.
    + intros j Hj. rewrite incr_nth_other by lia. apply Hhi. lia.
    + rewrite incr_length in L.
      split; [exact L|]. split; [exact B|]. split.
      * intros j Hj. rewrite U by lia. apply incr_nth_other. lia.
      * intros [|k] Hk.
        -- cbn [nth].
           replace (base + Z.of_nat 0 * (n_labels * 2)) with base by lia.
           assert (Same : forall s, base <= s ->
                     s + n_labels <= base + n_labels * 2 ->
                     segment (snd (bump_all n_labels label bs
                                     (base + n_labels * 2, incr idx lr)))
                             s n_labels
                     = segment (incr idx lr) s n_labels).
           { intros s Hs1 Hs2. unfold segment, slice. f_equal.
             apply map_ext_in. intros i Hi. apply in_seq in Hi.
             apply U. lia. }
           rewrite !Same by lia.
           assert (Hidx' : Z.of_nat idx = if b then base + label
                                          else base + n_labels + label)
             by (unfold idx; destruct b; lia).
           clearbody idx. unfold indicator. destruct b; cbn [negb].
           ++ rewrite segment_incr_inside, segment_incr_outside by lia. lia.
           ++ rewrite segment_incr_outside, segment_incr_inside by lia. lia.
        -- cbn [nth].
           replace (base + Z.of_nat (S k) * (n_labels * 2))
             with (base + n_labels * 2 + Z.of_nat k * (n_labels * 2)) by lia.
           cbn [length] in Hk.
           destruct (Seg k ltac:(lia)) as [S1 S2]. cbv zeta in S1, S2.
           rewrite S1, S2.
           assert (0 <= Z.of_nat k * (n_labels * 2)) by nia.
           rewrite !segment_incr_outside by lia. lia.
Qed.

End Bump.

(** ** What the histogram engine counts *)

(** Does the pixel go left under the uv combination and the threshold of
    a candidate? *)
Definition goes_left (ctx : TrainContext) (cand : Z * Z) (px : Int3D)
    : bool :=
  F32.ltb
    (pixel_sample ctx px (nth (Z.to_nat (fst cand)) (ctx_uvs ctx) default_uv))
    (nth (Z.to_nat (snd cand)) (ctx_ts ctx) F32.zero).

Definition goes_right (ctx : TrainContext) (cand : Z * Z) (px : Int3D)
    : bool :=
  negb (goes_left ctx cand px).

Definition has_label (ctx : TrainContext) (l : Z) (px : Int3D) : bool :=
  pixel_label ctx px =? l.

(** The pixels a loop has visited when its condition reads the interrupt
    flag as [interrupted] says. *)
Fixpoint processed (interrupted : nat -> bool) (p : nat)
    (pixels : list Int3D) : list Int3D :=
  match pixels with
  | [] => []
  | px :: rest =>
      if interrupted p then [] else px :: processed interrupted (S p) rest
  end.

Lemma processed_quiet p pixels : processed (fun _ => false) p pixels = pixels.
Proof.
  revert p. induction pixels as [|px rest IH]; intros p; cbn; [reflexivity|].
  now rewrite IH.
Qed.

Lemma processed_length interrupted p pixels :
  (length (processed interrupted p pixels) <= length pixels)%nat.
Proof.
  revert p. induction pixels as [|px rest IH]; intros p; cbn; [lia|].
  destruct (interrupted p); cbn; [lia|]. specialize (IH (S p)). lia.
Qed.

(** The sizes the buffers of a worker are allocated with make sense. *)
Record well_sized (ctx : TrainContext) (c_start c_end : Z) : Prop := {
  ws_labels : 0 <= ctx_n_labels ctx;
  ws_bytes : Forall (fun b => 0 <= b) (ctx_label_images ctx);
  ws_stripe : 0 <= c_start <= c_end;
  ws_thresholds : 0 <= ctx_n_t ctx;
  ws_block :
    ctx_n_labels ctx * (c_end - c_start) * ctx_n_t ctx * 2 < 2 ^ 32
}.

Lemma list_prod_map {A B C D} (f : A -> C) (g : B -> D) l1 l2 :
  list_prod (map f l1) (map g l2)
  = map (fun ab => (f (fst ab), g (snd ab))) (list_prod l1 l2).
Proof.
  induction l1 as [|a l1 IH]; cbn; [reflexivity|].
  rewrite map_app, IH, !map_map. reflexivity.
Qed.

Lemma pixel_label_nonneg ctx px :
  Forall (fun b => 0 <= b) (ctx_label_images ctx) -> 0 <= pixel_label ctx px.
Proof.
  intros H. unfold pixel_label.
  set (l := skipn _ _).
  assert (Hl : Forall (fun b => 0 <= b) l).
  { unfold l. rewrite Forall_forall in *. intros x Hx. apply H.
    rewrite <- (firstn_skipn (image_offset ctx px)). apply in_or_app. now right. }
  destruct (nth_in_or_default (Z.to_nat (pixel_index ctx px)) l 0)
    as [Hin|Heq]; [|rewrite Heq; lia].
  rewrite Forall_forall in Hl. now apply Hl.
Qed.

Section Engine.

Variables (ctx : TrainContext) (data : NodeTrainData) (c_start c_end : Z).
Hypothesis Hws : well_sized ctx c_start c_end.

Let n := ctx_n_labels ctx.
Let cands := candidates ctx c_start c_end.

(** The outcomes of the comparisons for one pixel are those of the
    candidates, in the order of the candidate loops. *)
Lemma comparisons_of_pixel px :
  map (fun st => F32.ltb (fst st) (snd st))
      (list_prod
         (map (pixel_sample ctx px)
              (slice default_uv (ctx_uvs ctx) c_start (c_end - c_start)))
         (slice F32.zero (ctx_ts ctx) 0 (ctx_n_t ctx)))
  = map (fun cand => goes_left ctx cand px) cands.
Proof.
  destruct Hws. unfold cands, candidates, slice.
  rewrite map_map, !list_prod_map, !map_map.
  apply map_ext. intros [a b]; cbn [fst snd]. unfold goes_left; cbn [fst snd].
  do 3 f_equal; lia.
Qed.

Lemma candidates_length :
  Z.of_nat (length cands) = (c_end - c_start) * ctx_n_t ctx.
Proof.
  destruct Hws. unfold cands, candidates.
  rewrite length_prod, !length_map, !length_seq. nia.
Qed.

(** The state of the two histograms after the pixels [ps]. *)
Definition counted (ps : list Int3D) (hs : list Z * list Z) : Prop :=
  length (fst hs) = Z.to_nat n
  /\ length (snd hs)
     = Z.to_nat (n * (c_end - c_start) * ctx_n_t ctx * 2)
  /\ (forall j, 0 <= nth j (fst hs) 0 <= Z.of_nat (length ps))
  /\ (forall j, 0 <= nth j (snd hs) 0 <= Z.of_nat (length ps))
  /\ segment (fst hs) 0 n = Z.of_nat (length ps)
  /\ (forall l, 0 <= l < n ->
        nth (Z.to_nat l) (fst hs) 0 = count (has_label ctx l) ps)
  /\ (nd_depth data < to_uint32 (ctx_max_depth ctx - 1) ->
      forall k, (k < length cands)%nat ->
        segment (snd hs) (Z.of_nat k * (n * 2)) n
        = count (goes_left ctx (nth k cands (0, 0))) ps
        /\ segment (snd hs) (Z.of_nat k * (n * 2) + n) n
           = count (goes_right ctx (nth k cands (0, 0))) ps).

Lemma counted_cleared :
  counted [] (repeat 0 (Z.to_nat n),
              repeat 0 (Z.to_nat (n * (c_end - c_start) * ctx_n_t ctx * 2))).
Proof.
  assert (Zero : forall m j, nth j (repeat 0 m) 0 = 0).
  { intros m j. destruct (Nat.lt_ge_cases j m).
    - now apply nth_repeat_lt.
    - apply nth_overflow. now rewrite repeat_length. }
  assert (Sg : forall m base len, segment (repeat 0 m) base len = 0).
  { intros m base len. unfold segment, slice.
    induction (seq 0 (Z.to_nat len)) as [|x l IH]; [reflexivity|].
    cbn [map]. unfold total in *. cbn [fold_right]. rewrite IH, Zero. lia. }
  unfold counted; cbn [fst snd length].
  rewrite !repeat_length.
  repeat split; try (rewrite Zero; lia); try apply Sg.
  intros l _. now rewrite Zero.
Qed.

Lemma accumulate_pixel_counted ps px hs hs' :
  Z.of_nat (length ps) < 2 ^ 32 - 1 ->
  counted ps hs ->
  accumulate_pixel ctx data c_start c_end px hs = Ok hs' ->
  counted (ps ++ [px]) hs'.
Proof.
  intros Hps (Lr & Ll & Br & Bl & Sr & Cr & Cl).
  pose proof Hws as [Hn Hbytes Hc Hnt Hsize]. fold n in Hn, Hsize.
  unfold accumulate_pixel. fold n.
  pose proof (pixel_label_nonneg ctx px Hbytes) as Hlab0.
  set (label := pixel_label ctx px) in *.
  destruct (Z.leb_spec n label) as [|Hlab]; [discriminate|].
  assert (Hidx : (Z.to_nat label < length (fst hs))%nat) by lia.
  assert (Root :
    length (incr (Z.to_nat label) (fst hs)) = Z.to_nat n
    /\ (forall j, 0 <= nth j (incr (Z.to_nat label) (fst hs)) 0
                  <= Z.of_nat (length (ps ++ [px])))
    /\ segment (incr (Z.to_nat label) (fst hs)) 0 n
       = Z.of_nat (length (ps ++ [px]))
    /\ (forall l, 0 <= l < n ->
          nth (Z.to_nat l) (incr (Z.to_nat label) (fst hs)) 0
          = count (has_label ctx l) (ps ++ [px]))).
  { rewrite length_app; cbn [length].
    split; [now rewrite incr_length|]. split; [|split].
    - intros j. destruct (Nat.eq_dec j (Z.to_nat label)) as [->|Hne].
      + rewrite incr_nth_same, to_uint32_small by
          (try assumption; specialize (Br (Z.to_nat label)); lia).
        specialize (Br (Z.to_nat label)). lia.
      + rewrite incr_nth_other by assumption. specialize (Br j). lia.
    - rewrite segment_incr_inside; try lia.
      specialize (Br (Z.to_nat label)). lia.
    - intros l Hl. rewrite count_app, count_one. unfold has_label at 2.
      fold label.
      destruct (Z.eqb_spec label l) as [->|Hne].
      + rewrite incr_nth_same, to_uint32_small by
          (try assumption; specialize (Br (Z.to_nat l)); lia).
        rewrite Cr by assumption. reflexivity.
      + rewrite incr_nth_other by lia. rewrite Cr by assumption. lia. }
  destruct Root as (Lr' & Br' & Sr' & Cr').
  assert (Hbl : forall j, 0 <= nth j (snd hs) 0
                          <= Z.of_nat (length (ps ++ [px]))).
  { intros j. specialize (Bl j). rewrite length_app; cbn [length]. lia. }
  destruct (Z.leb_spec (to_uint32 (ctx_max_depth ctx - 1)) (nd_depth data))
    as [Hlast|Hdeep]; intros [= <-]; unfold counted; cbn [fst snd].
  - split; [exact Lr'|]. split; [exact Ll|]. split; [exact Br'|].
    split; [exact Hbl|]. split; [exact Sr'|]. split; [exact Cr'|].
    intros Hd. lia.
  - rewrite partition_on_thresholds_flat, comparisons_of_pixel. fold n.
    pose proof candidates_length as Hcl.
    destruct (bump_all_spec n label (conj Hlab0 Hlab)
                (Z.of_nat (length ps)) Hps
                (map (fun cand => goes_left ctx cand px) cands) 0 (snd hs))
      as (L' & B' & _ & Seg').
    + lia.
    + rewrite length_map, Ll. nia.
    + intros j. specialize (Bl j). lia.
    + intros j _. apply Bl.
    + cbv zeta in L', B', Seg'.
      split; [exact Lr'|]. split; [now rewrite L'|].
      split; [exact Br'|]. split.
      { intros j. rewrite length_app; cbn [length]. specialize (B' j). lia. }
      split; [exact Sr'|]. split; [exact Cr'|].
      intros _ k Hk.
      destruct (Seg' k ltac:(now rewrite length_map)) as [S1 S2].
      destruct (Cl Hdeep k Hk) as [C1 C2].
      rewrite Z.add_0_l in S1, S2.
      rewrite S1, S2, C1, C2, !count_app, !count_one.
      rewrite (nth_indep _ false (goes_left ctx (0, 0) px))
        by now rewrite length_map.
      rewrite (map_nth (fun cand => goes_left ctx cand px)).
      unfold goes_right, indicator. split; reflexivity.
Qed.

Lemma accumulate_loop_counted interrupted :
  forall pixels p ps hs hs',
    Z.of_nat (length ps + length pixels) <= 2 ^ 32 - 1 ->
    counted ps hs ->
    accumulate_loop ctx data c_start c_end interrupted p pixels hs = Ok hs' ->
    counted (ps ++ processed interrupted p pixels) hs'.
Proof.
  induction pixels as [|px rest IH]; intros p ps hs hs' Hlen Hc; cbn.
  - intros [= <-]. now rewrite app_nil_r.
  - destruct (interrupted p); [intros [= <-]; now rewrite app_nil_r|].
    destruct (accumulate_pixel ctx data c_start c_end px hs) as [hs1| |] eqn:E;
      cbn; try discriminate.
    intros H. cbn [length] in Hlen.
    apply (accumulate_pixel_counted ps px) in E; [|lia|assumption].
    apply (IH (S p) (ps ++ [px])) in H; [|rewrite length_app; cbn; lia|exact E].
    now rewrite <- app_assoc in H.
Qed.

(** The histogram engine, started on cleared buffers, counts the pixels it
    visits: every one of them in the root histogram under its label, and,
    above the last depth, once per candidate on the side the candidate
    sends it to. *)
Lemma accumulate_histograms_counted interrupted hs :
  0 <= nd_n_pixels data <= 2 ^ 32 - 1 ->
  accumulate_histograms ctx data c_start c_end interrupted
    (repeat 0 (Z.to_nat n))
    (repeat 0 (Z.to_nat (to_uint32 (n * (c_end - c_start)
                                    * ctx_n_t ctx * 2))))
  = Ok hs ->
  counted (processed interrupted 0 (node_pixels data)) hs.
Proof.
  intros Hpix. pose proof Hws as [Hn Hbytes Hc Hnt Hsize]. fold n in Hn, Hsize.
  assert (H1 : 0 <= n * (c_end - c_start)) by nia.
  assert (H2 : 0 <= n * (c_end - c_start) * ctx_n_t ctx) by nia.
  rewrite to_uint32_small by lia.
  unfold accumulate_histograms. intros H.
  apply (accumulate_loop_counted interrupted _ 0%nat []) in H.
  - exact H.
  - unfold node_pixels. rewrite slice_length. cbn [length]. lia.
  - apply counted_cleared.
Qed.

End Engine.

(** ** The candidate search *)

Lemma histogram_sums_at (lr : list Z) (base n : Z) :
  0 <= base ->
  (forall j, 0 <= nth j lr 0) ->
  histogram_sums (skipn (Z.to_nat base) lr) n
  = (to_int32 (segment lr base n),
     count (fun h => 0 <? h) (slice 0 lr base n)).
Proof.
  intros Hb Hpos.
  rewrite histogram_sums_spec.
  - unfold segment. rewrite slice_skipn.
    replace (Z.of_nat (Z.to_nat base) + Z.max 0 0) with base by lia.
    reflexivity.
  - intros x Hx. apply slice_in_nth in Hx. destruct Hx as [j ->].
    rewrite nth_skipn. apply Hpos.
Qed.

(** A split is trivial when one of its sides is empty or holds every
    pixel. *)
Definition trivial_split (ctx : TrainContext) (ps : list Int3D)
    (cand : Z * Z) : Prop :=
  count (goes_left ctx cand) ps = 0
  \/ count (goes_left ctx cand) ps = Z.of_nat (length ps)
  \/ count (goes_right ctx cand) ps = 0
  \/ count (goes_right ctx cand) ps = Z.of_nat (length ps).

Lemma left_right_all ctx ps cand :
  count (goes_left ctx cand) ps + count (goes_right ctx cand) ps
  = Z.of_nat (length ps).
Proof. apply count_complement. Qed.

Lemma trivial_split_left ctx ps cand :
  trivial_split ctx ps cand <->
  count (goes_left ctx cand) ps = 0
  \/ count (goes_left ctx cand) ps = Z.of_nat (length ps).
Proof.
  unfold trivial_split. pose proof (left_right_all ctx ps cand). lia.
Qed.

Section Search.

Variable log2f : float -> float.
Variables (ctx : TrainContext) (data : NodeTrainData) (c_start c_end : Z).
Variables (ps : list Int3D) (root_histogram lr_histograms : list Z).
Hypothesis Hws : well_sized ctx c_start c_end.
Hypothesis Hps : Z.of_nat (length ps) <= 2 ^ 32 - 1.
Hypothesis Hdeep : nd_depth data < to_uint32 (ctx_max_depth ctx - 1).
Hypothesis Hcounted :
  counted ctx data c_start c_end ps (root_histogram, lr_histograms).

Let n := ctx_n_labels ctx.
Let cands := candidates ctx c_start c_end.
Let root_n_pixels := histogram_sums root_histogram n.

Lemma root_total : fst root_n_pixels = to_int32 (Z.of_nat (length ps)).
Proof.
  destruct Hcounted as (_ & _ & Br & _ & Sr & _).
  unfold root_n_pixels. rewrite histogram_sums_spec.
  - cbn [fst snd] in Sr |- *. unfold n. now rewrite Sr.
  - intros x Hx. apply slice_in_nth in Hx. destruct Hx as [j ->].
    apply Br.
Qed.

(** What the body of the candidate loops does with the [k]-th candidate:
    nothing when its split is trivial; otherwise it either keeps the best
    so far or replaces it by this candidate, with the two counts of its
    split. *)
Lemma evaluate_candidate_spec (entropy : float) (k : nat) (best : ThreadBest) :
  (k < length cands)%nat ->
  let cand := nth k cands (0, 0) in
  let result :=
    evaluate_candidate log2f ctx root_n_pixels entropy lr_histograms
      (fst cand) (snd cand) (Z.of_nat k * (n * 2)) best in
  (trivial_split ctx ps cand -> result = best)
  /\ (result = best
      \/ (~ trivial_split ctx ps cand
          /\ F32.ltb (best_gain best) (best_gain result) = true
          /\ (best_uv result, best_t result) = cand
          /\ n_lr_pixels result
             = (count (goes_left ctx cand) ps,
                count (goes_right ctx cand) ps))).
Proof.
  intros Hk cand result.
  pose proof Hws as [Hn Hbytes Hc Hnt Hsize]. fold n in Hn, Hsize.
  destruct Hcounted as (_ & _ & _ & Bl & _ & _ & Cl).
  cbn [fst snd] in Bl, Cl.
  destruct (Cl Hdeep k Hk) as [CL CR]. fold cand n in CL, CR.
  pose proof (count_range (goes_left ctx cand) ps) as RL.
  pose proof (count_range (goes_right ctx cand) ps) as RR.
  assert (Hbase : 0 <= Z.of_nat k * (n * 2)) by nia.
  assert (Hpos : forall j, 0 <= nth j lr_histograms 0)
    by (intros j; apply Bl).
  assert (HL : histogram_sums
                 (skipn (Z.to_nat (Z.of_nat k * (n * 2))) lr_histograms) n
               = (to_int32 (count (goes_left ctx cand) ps),
                  count (fun h => 0 <? h)
                        (slice 0 lr_histograms (Z.of_nat k * (n * 2)) n)))
    by (rewrite histogram_sums_at, CL by assumption; reflexivity).
  assert (HR : histogram_sums
                 (skipn (Z.to_nat (Z.of_nat k * (n * 2) + n)) lr_histograms) n
               = (to_int32 (count (goes_right ctx cand) ps),
                  count (fun h => 0 <? h)
                        (slice 0 lr_histograms (Z.of_nat k * (n * 2) + n) n)))
    by (rewrite histogram_sums_at, CR by (try assumption; lia); reflexivity).
  assert (Skip :
    (to_int32 (count (goes_left ctx cand) ps) =? 0)
    || (to_int32 (count (goes_left ctx cand) ps) =? fst root_n_pixels) = true
    <-> trivial_split ctx ps cand).
  { rewrite trivial_split_left, orb_true_iff, !Z.eqb_eq, root_total.
    split; intros [H|H].
    - left. apply to_int32_inj; try lia. exact H.
    - right. apply to_int32_inj in H; lia.
    - left. now rewrite H.
    - right. now rewrite H. }
  unfold result, evaluate_candidate. fold n.
  unfold normalize_histogram. cbv beta iota zeta. rewrite HL, HR.
  cbn [fst snd].
  destruct ((to_int32 (count (goes_left ctx cand) ps) =? 0)
            || (to_int32 (count (goes_left ctx cand) ps)
                =? fst root_n_pixels)) eqn:E.
  - split; [reflexivity|]. now left.
  - assert (NT : ~ trivial_split ctx ps cand).
    { intros T. apply Skip in T. discriminate T. }
    split; [intros T; now destruct NT|].
    match goal with
    | |- context [if F32.ltb (best_gain best) ?g then _ else _] =>
        destruct (F32.ltb (best_gain best) g) eqn:G
    end; [right|now left].
    cbn [best_gain best_uv best_t n_lr_pixels].
    split; [exact NT|]. split; [exact G|]. split; [now destruct cand|].
    rewrite !to_uint32_of_int32, !to_uint32_small by lia. reflexivity.
Qed.

(** What a worker holds while it searches: the best it started with, or
    a candidate with a positive gain and a split that is not trivial. *)
Definition searched (best0 best : ThreadBest) : Prop :=
  best = best0
  \/ (F32.ltb F32.zero (best_gain best) = true
      /\ exists k, (k < length cands)%nat
           /\ (best_uv best, best_t best) = nth k cands (0, 0)
           /\ ~ trivial_split ctx ps (nth k cands (0, 0))
           /\ n_lr_pixels best
              = (count (goes_left ctx (nth k cands (0, 0))) ps,
                 count (goes_right ctx (nth k cands (0, 0))) ps)).

Lemma search_loop_searched (entropy : float) (interrupted : nat -> bool)
    (best0 : ThreadBest) :
  best_gain best0 = F32.zero ->
  forall (pairs : list (Z * Z)) (k : nat) (best : ThreadBest),
    pairs = skipn k cands ->
    searched best0 best ->
    searched best0
      (search_loop log2f ctx root_n_pixels entropy lr_histograms interrupted
                   k pairs (Z.of_nat k * (n * 2)) best).
Proof.
  intros Hzero. induction pairs as [|[i j] rest IH]; intros k best Hp Hs.
  - exact Hs.
  - cbn [search_loop]. destruct (interrupted k); [exact Hs|].
    assert (Hk : (k < length cands)%nat).
    { destruct (Nat.lt_ge_cases k (length cands)) as [|Hge]; [assumption|].
      rewrite skipn_all2 in Hp by assumption. discriminate. }
    assert (Hij : nth k cands (0, 0) = (i, j)).
    { rewrite <- (Nat.add_0_r k), <- nth_skipn, <- Hp. reflexivity. }
    replace (Z.of_nat k * (n * 2) + ctx_n_labels ctx * 2)
      with (Z.of_nat (S k) * (n * 2)) by (unfold n; lia).
    apply IH.
    + rewrite <- (Nat.add_1_l k), <- skipn_skipn, <- Hp. reflexivity.
    + pose proof (evaluate_candidate_spec entropy k best Hk) as [_ Hstep].
      cbv zeta in Hstep. rewrite Hij in Hstep. cbn [fst snd] in Hstep.
      destruct Hstep as [->|(NT & G & Huv & Hlr)]; [exact Hs|].
      right. split.
      * destruct Hs as [->|[Hpos _]].
        -- now rewrite Hzero in G.
        -- exact (ltb_trans _ _ _ Hpos G).
      * exists k. rewrite Hij. repeat split; assumption.
Qed.

End Search.

(** ** One pass of a worker *)

(** The histogram of the labels of the pixels of a node. *)
Definition label_histogram (ctx : TrainContext) (data : NodeTrainData)
    : list Z :=
  map (fun l => count (has_label ctx (Z.of_nat l)) (node_pixels data))
      (seq 0 (Z.to_nat (ctx_n_labels ctx))).

Definition cleared_root (ctx : TrainContext) : list Z :=
  repeat 0 (Z.to_nat (ctx_n_labels ctx)).

Definition cleared_lr (ctx : TrainContext) (c_start c_end : Z) : list Z :=
  repeat 0 (Z.to_nat (to_uint32 (ctx_n_labels ctx * (c_end - c_start)
                                 * ctx_n_t ctx * 2))).

Lemma thread_body_unfold log2f ctx data c_start c_end sig previous :
  thread_body log2f ctx data c_start c_end sig previous
  = (hs <- accumulate_histograms ctx data c_start c_end (in_accumulate sig)
             (cleared_root ctx) (cleared_lr ctx c_start c_end) ;;
     let root_n_pixels := histogram_sums (fst hs) (ctx_n_labels ctx) in
     let root_nhistogram :=
       snd (normalize_histogram (fst hs) (ctx_n_labels ctx)) in
     let best :=
       mkBest F32.zero (best_uv previous) (best_t previous)
              (n_lr_pixels previous) in
     if (1 <? snd root_n_pixels)
        && (nd_depth data <? to_uint32 (ctx_max_depth ctx - 1))
     then
       Ok (search_loop log2f ctx root_n_pixels
             (calculate_shannon_entropy (log := log2f) root_nhistogram
                                        (ctx_n_labels ctx))
             (snd hs) (in_search sig) 0 (candidates ctx c_start c_end) 0 best,
           root_nhistogram)
     else Ok (best, root_nhistogram)).
Proof.
  unfold thread_body, cleared_root, cleared_lr.
  destruct (accumulate_histograms _ _ _ _ _ _ _) as [[r l]| |]; reflexivity.
Qed.

(** C2. In one pass of a worker over a node, a candidate whose split of
    the pixels the histogram engine visited is trivial (its left or its
    right side is empty or holds all of them) is skipped: the body of the
    candidate loops leaves the best so far as it is. What the pass
    publishes is therefore either the worker's previous slot with gain 0
    or a candidate of its stripe with a positive gain whose split is not
    trivial, together with the sizes of the two sides. *)
Theorem trivial_splits_skipped (log2f : float -> float)
    (ctx : TrainContext) (data : NodeTrainData) (c_start c_end : Z)
    (sig : Signals) (previous : ThreadBest)
    (root_histogram lr_histograms : list Z) :
  well_sized ctx c_start c_end ->
  0 <= nd_n_pixels data <= 2 ^ 32 - 1 ->
  accumulate_histograms ctx data c_start c_end (in_accumulate sig)
    (cleared_root ctx) (cleared_lr ctx c_start c_end)
  = Ok (root_histogram, lr_histograms) ->
  let ps := processed (in_accumulate sig) 0 (node_pixels data) in
  let cands := candidates ctx c_start c_end in
  let n := ctx_n_labels ctx in
  (nd_depth data < to_uint32 (ctx_max_depth ctx - 1) ->
   forall (k : nat) (entropy : float) (best : ThreadBest),
     (k < length cands)%nat ->
     trivial_split ctx ps (nth k cands (0, 0)) ->
     evaluate_candidate log2f ctx (histogram_sums root_histogram n) entropy
       lr_histograms (fst (nth k cands (0, 0))) (snd (nth k cands (0, 0)))
       (Z.of_nat k * (n * 2)) best
     = best)
  /\ exists best root_nhistogram,
       thread_body log2f ctx data c_start c_end sig previous
       = Ok (best, root_nhistogram)
       /\ (best = mkBest F32.zero (best_uv previous) (best_t previous)
                         (n_lr_pixels previous)
           \/ (F32.ltb F32.zero (best_gain best) = true
               /\ exists k,
                    (k < length cands)%nat
                    /\ (best_uv best, best_t best) = nth k cands (0, 0)
                    /\ ~ trivial_split ctx ps (nth k cands (0, 0))
                    /\ n_lr_pixels best
                       = (count (goes_left ctx (nth k cands (0, 0))) ps,
                          count (goes_right ctx (nth k cands (0, 0))) ps))).
Proof.
  intros Hws Hpix Hacc ps cands n.
  assert (Hc : counted ctx data c_start c_end ps
                       (root_histogram, lr_histograms))
    by (apply accumulate_histograms_counted; assumption).
  assert (Hps : Z.of_nat (length ps) <= 2 ^ 32 - 1).
  { pose proof (processed_length (in_accumulate sig) 0 (node_pixels data)).
    unfold ps, node_pixels in *. rewrite slice_length in *. lia. }
  split.
  - intros Hdeep k entropy best Hk T.
    now apply (evaluate_candidate_spec log2f ctx data c_start c_end ps
                 root_histogram lr_histograms Hws Hps Hdeep Hc entropy k best
                 Hk).
  - rewrite thread_body_unfold, Hacc. cbn [bind fst snd]. cbv zeta.
    destruct ((1 <? _) && (nd_depth data <? _)) eqn:G;
      eexists; eexists; (split; [reflexivity|]); [|now left].
    apply andb_true_iff in G. destruct G as [_ Hdeep].
    apply Z.ltb_lt in Hdeep.
    apply (search_loop_searched log2f ctx data c_start c_end ps
             root_histogram lr_histograms Hws Hps Hdeep Hc _ _
             (mkBest F32.zero (best_uv previous) (best_t previous)
                     (n_lr_pixels previous))
             eq_refl (candidates ctx c_start c_end) 0%nat).
    + reflexivity.
    + now left.
Qed.

(** A pass over the pixels that is not interrupted leaves in the root
    histogram the number of pixels of each label, all the pixels of the
    node together. *)
Lemma accumulate_label_histogram (ctx : TrainContext)
    (data : NodeTrainData) (c_start c_end : Z) (interrupted : nat -> bool)
    (root lr : list Z) :
  well_sized ctx c_start c_end ->
  0 <= nd_n_pixels data <= 2 ^ 32 - 1 ->
  (forall p, interrupted p = false) ->
  accumulate_histograms ctx data c_start c_end interrupted
    (cleared_root ctx) (cleared_lr ctx c_start c_end)
  = Ok (root, lr) ->
  root = label_histogram ctx data /\ total root = nd_n_pixels data.
Proof.
  intros Hws Hpix Hq Hacc.
  apply accumulate_histograms_counted in Hacc; try assumption.
  replace (processed interrupted 0 (node_pixels data))
    with (node_pixels data) in Hacc.
  2:{ rewrite <- (processed_quiet 0 (node_pixels data)) at 1.
      generalize (node_pixels data), 0%nat.
      induction l as [|px rest IH]; intros p; cbn; [reflexivity|].
      now rewrite Hq, IH. }
  destruct Hacc as (Lr & _ & _ & _ & Sr & Cr & _). cbn [fst snd] in *.
  split.
  - apply (nth_ext _ _ 0 0).
    + unfold label_histogram. now rewrite length_map, length_seq.
    + intros j Hj. unfold label_histogram.
      rewrite (nth_indep (map _ _) 0
                 (count (has_label ctx (Z.of_nat 0)) (node_pixels data)))
        by (rewrite length_map, length_seq; lia).
      rewrite (map_nth (fun l => count (has_label ctx (Z.of_nat l))
                                       (node_pixels data))).
      rewrite seq_nth by lia. cbn [Nat.add].
      rewrite <- (Cr (Z.of_nat j)) by lia. now rewrite Nat2Z.id.
  - unfold segment in Sr.
    assert (W : slice 0 root 0 (ctx_n_labels ctx) = root).
    { rewrite <- (Z2Nat.id (ctx_n_labels ctx)) by apply Hws.
      rewrite <- Lr. unfold slice. rewrite Nat2Z.id. cbn [Z.to_nat Nat.add].
      apply (nth_ext _ _ 0 0).
      - now rewrite length_map, length_seq.
      - intros k Hk. rewrite length_map, length_seq in Hk.
        rewrite (nth_indep _ 0 (nth 0 root 0))
          by now rewrite length_map, length_seq.
        rewrite (map_nth (fun k => nth k root 0)). now rewrite seq_nth. }
    rewrite W in Sr. rewrite Sr. unfold node_pixels.
    rewrite slice_length. lia.
Qed.

(** C10, for one worker: whatever its stripe, a pass that is not
    interrupted leaves in [root_nhistogram] the normalised histogram of
    the labels of all the pixels of the node. *)
Lemma thread_body_root_nhistogram (log2f : float -> float)
    (ctx : TrainContext) (data : NodeTrainData) (c_start c_end : Z)
    (sig : Signals) (previous best : ThreadBest) (nhistogram : list float) :
  well_sized ctx c_start c_end ->
  0 <= nd_n_pixels data <= 2 ^ 32 - 1 ->
  (forall p, in_accumulate sig p = false) ->
  thread_body log2f ctx data c_start c_end sig previous
  = Ok (best, nhistogram) ->
  nhistogram
  = snd (normalize_histogram (label_histogram ctx data) (ctx_n_labels ctx)).
Proof.
  intros Hws Hpix Hq. rewrite thread_body_unfold.
  destruct (accumulate_histograms _ _ _ _ _ _ _) as [[root lr]| |] eqn:Hacc;
    cbn [bind]; try discriminate.
  apply accumulate_label_histogram in Hacc; try assumption.
  destruct Hacc as [-> _]. cbv zeta. cbn [fst snd].
  destruct ((1 <? _) && _); now intros [= _ <-].
Qed.

(** A pass that ends without an error has found a label below [n_labels]
    at every pixel, so the histogram of the labels holds every pixel of
    the node. *)
Lemma label_histogram_total (log2f : float -> float)
    (ctx : TrainContext) (data : NodeTrainData) (c_start c_end : Z)
    (sig : Signals) (previous best : ThreadBest) (nhistogram : list float) :
  well_sized ctx c_start c_end ->
  0 <= nd_n_pixels data <= 2 ^ 32 - 1 ->
  (forall p, in_accumulate sig p = false) ->
  thread_body log2f ctx data c_start c_end sig previous
  = Ok (best, nhistogram) ->
  total (label_histogram ctx data) = nd_n_pixels data.
Proof.
  intros Hws Hpix Hq. rewrite thread_body_unfold.
  destruct (accumulate_histograms _ _ _ _ _ _ _) as [[root lr]| |] eqn:Hacc;
    cbn [bind]; try discriminate.
  apply accumulate_label_histogram in Hacc; try assumption.
  destruct Hacc as [<- T]. intros _. exact T.
Qed.

(** ** The partitioner *)

Section Partition.

Variables (ctx : TrainContext) (uv : UVPair) (t : float).

(** The test of [collect_pixels]: [value < t]. *)
Definition left_of (px : Int3D) : bool := F32.ltb (pixel_sample ctx px uv) t.

Definition right_of (px : Int3D) : bool := negb (left_of px).

Lemma collect_loop_filter (l_capacity r_capacity : Z) :
  forall (pixels l r : list Int3D),
    Z.of_nat (length l + length (filter left_of pixels)) <= l_capacity ->
    Z.of_nat (length r + length (filter right_of pixels)) <= r_capacity ->
    collect_loop ctx uv t l_capacity r_capacity pixels (l, r)
    = Ok (l ++ filter left_of pixels, r ++ filter right_of pixels).
Proof.
  induction pixels as [|px rest IH]; intros l r Hl Hr; cbn [collect_loop].
  - cbn. now rewrite !app_nil_r.
  - unfold collect_pixel; cbn [fst snd].
    change (F32.ltb (pixel_sample ctx px uv) t) with (left_of px).
    assert (FL : filter left_of (px :: rest)
                 = if left_of px then px :: filter left_of rest
                   else filter left_of rest) by reflexivity.
    assert (FR : filter right_of (px :: rest)
                 = if left_of px then filter right_of rest
                   else px :: filter right_of rest).
    { cbn. unfold right_of at 1. now destruct (left_of px). }
    rewrite FL, FR in *. clear FL FR.
    destruct (left_of px); cbn [length] in *.
    + destruct (Z.ltb_spec (Z.of_nat (length l)) l_capacity); [|lia].
      cbn [bind]. rewrite IH.
      * now rewrite <- app_assoc.
      * rewrite length_app; cbn [length]. lia.
      * exact Hr.
    + destruct (Z.ltb_spec (Z.of_nat (length r)) r_capacity); [|lia].
      cbn [bind]. rewrite IH.
      * now rewrite <- app_assoc.
      * exact Hl.
      * rewrite length_app; cbn [length]. lia.
Qed.

Lemma filter_left_right (pixels : list Int3D) :
  (length (filter left_of pixels) + length (filter right_of pixels)
   = length pixels)%nat.
Proof.
  induction pixels as [|px rest IH]; cbn; [reflexivity|].
  unfold right_of at 1. destruct (left_of px); cbn; lia.
Qed.

End Partition.

(** A hint is usable when it is zero, in which case the buffer is as large
    as the parent's, or at least the number of pixels that go to the
    child. *)
Definition hint_fits (hint : Z) (actual : nat) : Prop :=
  hint = 0 \/ Z.of_nat actual <= hint.

(** C4, amended. [collect_pixels] sends every pixel of the parent to
    exactly one child, the left one iff the feature is below the
    threshold; the two children together have as many pixels as the
    parent, and the counts it leaves in [n_lr_pixels] are the numbers of
    pixels it appended, also when the hints differ from them, as long as
    each hint is 0 or not below the size of its child, so that the buffer
    it sized holds the child. *)
Theorem collect_pixels_partition (ctx : TrainContext) (data : NodeTrainData)
    (uv : UVPair) (t : float) (hints : Z * Z) :
  let l_pixels := filter (left_of ctx uv t) (node_pixels data) in
  let r_pixels := filter (right_of ctx uv t) (node_pixels data) in
  0 <= nd_n_pixels data ->
  hint_fits (fst hints) (length l_pixels) ->
  hint_fits (snd hints) (length r_pixels) ->
  collect_pixels ctx data uv t hints
  = Ok (l_pixels, r_pixels,
        (Z.of_nat (length l_pixels), Z.of_nat (length r_pixels)))
  /\ Z.of_nat (length l_pixels) + Z.of_nat (length r_pixels)
     = nd_n_pixels data.
Proof.
  intros l_pixels r_pixels Hn Hl Hr.
  assert (Hsum : (length l_pixels + length r_pixels
                  = Z.to_nat (nd_n_pixels data))%nat).
  { unfold l_pixels, r_pixels. rewrite filter_left_right.
    unfold node_pixels. apply slice_length. }
  split; [|lia].
  unfold collect_pixels.
  rewrite (collect_loop_filter ctx uv t).
  - cbn [bind app]. fold l_pixels r_pixels. do 2 f_equal.
    f_equal.
    + now destruct (Z.eqb_spec (fst hints) (Z.of_nat (length l_pixels))).
    + now destruct (Z.eqb_spec (snd hints) (Z.of_nat (length r_pixels))).
  - cbn [length Nat.add]. fold l_pixels. unfold child_capacity.
    destruct Hl as [->|Hl]; [cbn; lia|].
    destruct (Z.eqb_spec (fst hints) 0); lia.
  - cbn [length Nat.add]. fold r_pixels. unfold child_capacity.
    destruct Hr as [->|Hr]; [cbn; lia|].
    destruct (Z.eqb_spec (snd hints) 0); lia.
Qed.

(** The sizes a worker publishes for a candidate are the sizes of the
    children [collect_pixels] builds for it, so the hints of the winning
    worker always fit. *)
Lemma worker_counts_are_children (ctx : TrainContext) (cand : Z * Z)
    (pixels : list Int3D) :
  let uv := nth (Z.to_nat (fst cand)) (ctx_uvs ctx) default_uv in
  let t := nth (Z.to_nat (snd cand)) (ctx_ts ctx) F32.zero in
  count (goes_left ctx cand) pixels
  = Z.of_nat (length (filter (left_of ctx uv t) pixels))
  /\ count (goes_right ctx cand) pixels
     = Z.of_nat (length (filter (right_of ctx uv t) pixels)).
Proof. split; reflexivity. Qed.

(** ** All workers on one node *)

(** What [main] has set up makes sense for the node [data]. *)
Record valid_run (ctx : TrainContext) (data : NodeTrainData)
    (n_threads : Z) : Prop := {
  vr_threads : 0 < n_threads;
  vr_n_uv : 0 <= ctx_n_uv ctx < 2 ^ 32;
  vr_labels : 0 <= ctx_n_labels ctx;
  vr_bytes : Forall (fun b => 0 <= b) (ctx_label_images ctx);
  vr_thresholds : 0 <= ctx_n_t ctx;
  vr_block : ctx_n_labels ctx * ctx_n_uv ctx * ctx_n_t ctx * 2 < 2 ^ 32;
  vr_pixels : 0 <= nd_n_pixels data <= 2 ^ 32 - 1
}.

(** The stripes [main] hands out lie in the table of uv combinations, so
    the buffers of every worker are well sized. *)
Lemma stripe_well_sized ctx data n_threads i :
  valid_run ctx data n_threads ->
  0 <= i < n_threads ->
  well_sized ctx (fst (stripe ctx n_threads i)) (snd (stripe ctx n_threads i)).
Proof.
  intros [Ht Huv Hn Hb Hnt Hblock _] Hi. unfold stripe. cbn [fst snd].
  set (n_c := ctx_n_uv ctx / n_threads).
  assert (Hc : 0 <= n_c) by (apply Z.div_pos; lia).
  assert (Hmul : n_threads * n_c <= ctx_n_uv ctx)
    by (apply Z.mul_div_le; lia).
  assert (H1 : 0 <= i * n_c <= ctx_n_uv ctx) by nia.
  assert (H2 : i + 1 <= n_threads -> (i + 1) * n_c <= ctx_n_uv ctx) by nia.
  rewrite (to_uint32_small (i * n_c)) by lia.
  assert (E : i * n_c
              <= (if i =? n_threads - 1 then ctx_n_uv ctx
                  else to_uint32 ((i + 1) * n_c))
              <= ctx_n_uv ctx).
  { destruct (Z.eqb_spec i (n_threads - 1)); [lia|].
    rewrite to_uint32_small by nia. nia. }
  set (c_end := if i =? n_threads - 1 then _ else _) in *.
  constructor; try assumption; try lia.
  assert (0 <= ctx_n_labels ctx * (c_end - i * n_c)
          <= ctx_n_labels ctx * ctx_n_uv ctx) by nia.
  nia.
Qed.

Section Threads.

Variable log2f : float -> float.
Variables (ctx : TrainContext) (data : NodeTrainData) (n_threads : Z).
Variable sig : nat -> Signals.

Let step (acc : outcome Published) (i : nat) : outcome Published :=
  pub <- acc ;; run_thread log2f ctx data n_threads sig pub i.

Lemma run_threads_stuck (l : list nat) (acc : outcome Published) pub' :
  fold_left step l acc = Ok pub' -> exists pub, acc = Ok pub.
Proof.
  revert acc. induction l as [|i l IH]; intros acc; cbn.
  - intros ->. eauto.
  - intros H. apply IH in H. destruct H as [pub H].
    destruct acc as [pub0| |]; cbn in H; try discriminate. eauto.
Qed.

(** Only the first worker writes the shared [root_nhistogram]. *)
Lemma run_thread_keeps_root pub pub' i :
  i <> 0%nat ->
  run_thread log2f ctx data n_threads sig pub i = Ok pub' ->
  root_nhistogram pub' = root_nhistogram pub.
Proof.
  intros Hi. unfold run_thread.
  destruct (stripe ctx n_threads (Z.of_nat i)) as [c_start c_end].
  destruct (thread_body _ _ _ _ _ _ _) as [[best nh]| |]; cbn;
    try discriminate.
  intros [= <-]. cbn. destruct i; [congruence|reflexivity].
Qed.

Lemma run_threads_keep_root (l : list nat) pub pub' :
  (forall i, In i l -> i <> 0%nat) ->
  fold_left step l (Ok pub) = Ok pub' ->
  root_nhistogram pub' = root_nhistogram pub.
Proof.
  revert pub. induction l as [|i l IH]; intros pub Hl; cbn [fold_left].
  - now intros [= <-].
  - intros H. destruct (run_threads_stuck _ _ _ H) as [pub1 E].
    rewrite E in H. apply IH in H; [|intros j Hj; apply Hl; now right].
    rewrite H. apply (run_thread_keeps_root pub pub1 i); [|exact E].
    apply Hl. now left.
Qed.

(** After the second barrier the shared buffer holds what the first
    worker computed for this node. *)
Lemma run_threads_root pub pub' :
  0 < n_threads ->
  run_threads log2f ctx data n_threads sig pub = Ok pub' ->
  exists best nhistogram,
    thread_body log2f ctx data (fst (stripe ctx n_threads 0))
                (snd (stripe ctx n_threads 0)) (sig 0%nat)
                (published_by pub 0)
    = Ok (best, nhistogram)
    /\ root_nhistogram pub' = nhistogram.
Proof.
  intros Ht. unfold run_threads. fold step.
  destruct (Z.to_nat n_threads) as [|m] eqn:Em; [lia|].
  cbn [seq fold_left]. intros H.
  destruct (run_threads_stuck _ _ _ H) as [pub1 E].
  rewrite E in H.
  apply run_threads_keep_root in H.
  2:{ intros i Hi. apply in_seq in Hi. lia. }
  unfold step in E. cbn [bind] in E. unfold run_thread in E.
  change (Z.of_nat 0) with 0 in E.
  destruct (stripe ctx n_threads 0) as [c_start c_end]. cbn [fst snd].
  destruct (thread_body _ _ _ _ _ _ _) as [[best nh]| |]; cbn in E;
    try discriminate.
  injection E as <-. exists best, nh. split; [reflexivity|].
  rewrite H. reflexivity.
Qed.

End Threads.

(** C10. Whatever its stripe, a worker whose pass is not interrupted
    counts every pixel of the current node in its root histogram, so its
    [root_nhistogram] is the normalised histogram of the labels of the
    node. The first worker does so into the shared buffer for every node,
    also when its stripe is empty, and the distribution the coordinator
    appends for a leaf is that of the node it is deciding. *)
Theorem root_nhistogram_is_current (log2f : float -> float)
    (ctx : TrainContext) (data : NodeTrainData) (n_threads : Z)
    (sig : nat -> Signals) :
  valid_run ctx data n_threads ->
  (forall p, in_accumulate (sig 0%nat) p = false) ->
  let current :=
    snd (normalize_histogram (label_histogram ctx data) (ctx_n_labels ctx)) in
  (forall c_start c_end s previous best nhistogram,
     well_sized ctx c_start c_end ->
     (forall p, in_accumulate s p = false) ->
     thread_body log2f ctx data c_start c_end s previous
     = Ok (best, nhistogram) ->
     nhistogram = current)
  /\ (forall pub pub',
        run_threads log2f ctx data n_threads sig pub = Ok pub' ->
        root_nhistogram pub' = current)
  /\ (forall interrupted pub st rest st' pub',
        train_queue st = data :: rest ->
        train_iteration log2f ctx n_threads sig interrupted pub st
        = Ok (Some (st', pub')) ->
        tree_histograms st' = tree_histograms st
        \/ tree_histograms st' = tree_histograms st ++ [current]).
Proof.
  intros Hv Hq current.
  assert (A : forall c_start c_end s previous best nhistogram,
            well_sized ctx c_start c_end ->
            (forall p, in_accumulate s p = false) ->
            thread_body log2f ctx data c_start c_end s previous
            = Ok (best, nhistogram) ->
            nhistogram = current).
  { intros c_start c_end s previous best nh Hws Hs H.
    apply (thread_body_root_nhistogram log2f ctx data c_start c_end s
             previous best nh Hws (vr_pixels _ _ _ Hv) Hs H). }
  assert (B : forall pub pub',
            run_threads log2f ctx data n_threads sig pub = Ok pub' ->
            root_nhistogram pub' = current).
  { intros pub pub' H.
    apply run_threads_root in H; [|apply (vr_threads _ _ _ Hv)].
    destruct H as (best & nh & H & ->).
    apply (A _ _ _ _ _ _ (stripe_well_sized ctx data n_threads 0 Hv
                            (conj (Z.le_refl 0) (vr_threads _ _ _ Hv)))
             Hq H). }
  split; [exact A|]. split; [exact B|].
  intros interrupted pub st rest st' pub' Hqueue.
  unfold train_iteration. rewrite Hqueue.
  destruct (run_threads log2f ctx data n_threads sig pub) as [pub1| |] eqn:R;
    cbn [bind]; try discriminate.
  apply B in R. unfold train_node. rewrite Hqueue.
  destruct interrupted; [discriminate|].
  destruct (best_of_threads n_threads pub1) as [[[g u] t] w].
  destruct (F32.ltb F32.zero g && _).
  - destruct w as [w|]; [|discriminate].
    destruct (collect_pixels _ _ _ _ _) as [[[l r] counts]| |]; cbn [bind];
      try discriminate.
    intros [= <- _]. now left.
  - intros [= <- _]. right. cbn. now rewrite R.
Qed.

(** ** Restoring a checkpoint *)

Definition binary32_of_ratio (a b : Z) : float :=
  F32.div (F32.of_Z a) (F32.of_Z b).

(** Scenario 6 of the specification: a checkpoint of field of view 1.0
    against a dataset of field of view 1.2. Equal fields of view, and
    fields of view half a millionth apart, do not differ. *)
Example fov_differs_examples :
  fov_differs (F32.of_Z 1) (binary32_of_ratio 12 10) = true
  /\ fov_differs (F32.of_Z 1) (F32.of_Z 1) = false
  /\ fov_differs (F32.of_Z 1) (binary32_of_ratio 2000001 2000000) = false
  /\ fov_differs (F32.of_Z 1) (binary32_of_ratio 1000002 1000000) = true.
Proof. repeat split; reflexivity. Qed.

Lemma validate_checkpoint_cases (ctx : TrainContext) (header : RDTHeader) :
  match validate_checkpoint ctx header with
  | Ok _ =>
      hdr_n_labels header = ctx_n_labels ctx
      /\ fov_differs (hdr_fov header) (ctx_fov ctx) = false
      /\ hdr_depth header <= ctx_max_depth ctx
  | Exit code m =>
      code = 1
      /\ (m = CheckpointLabels \/ m = CheckpointFov \/ m = CheckpointDepth)
      /\ (hdr_n_labels header <> ctx_n_labels ctx
          \/ fov_differs (hdr_fov header) (ctx_fov ctx) = true
          \/ ctx_max_depth ctx < hdr_depth header)
  | Undefined => False
  end.
Proof.
  unfold validate_checkpoint.
  destruct (Z.eqb_spec (hdr_n_labels header) (ctx_n_labels ctx)); cbn [negb];
    [|now auto].
  destruct (fov_differs _ _); [now auto|].
  destruct (Z.ltb_spec (ctx_max_depth ctx) (hdr_depth header)); [now auto|].
  repeat split; trivial; lia.
Qed.

(** *** The walk over the saved tree ends

    The walk visits node [id] and then, for a split, its children
    [2 id + 1] and [2 id + 2]; it stops at the first node the tree array
    does not hold. [walk_weight] counts the turns of the loop a node of
    the queue can cost: itself and, while it lies in an array of [len]
    nodes, its two subtrees. *)
Fixpoint walk_weight (len : Z) (n : nat) (id : Z) : nat :=
  match n with
  | O => 1
  | S n' =>
      if len <=? id then 1
      else S (walk_weight len n' (to_uint32 (2 * id + 1))
              + walk_weight len n' (to_uint32 (to_uint32 (2 * id + 1) + 1)))
  end.

Definition queue_weight (len : Z) (n : nat) (queue : list NodeTrainData)
    : nat :=
  list_sum (map (fun d => walk_weight len n (nd_id d)) queue).

Lemma queue_weight_cons len n d queue :
  queue_weight len n (d :: queue)
  = (walk_weight len n (nd_id d) + queue_weight len n queue)%nat.
Proof. reflexivity. Qed.

Lemma walk_weight_pos len n id : (1 <= walk_weight len n id)%nat.
Proof. destruct n; cbn; [lia|]. destruct (len <=? id); lia. Qed.

(** Below [2^31] nodes the ids of the children do not wrap, and a weight
    taken with at least [len - id] levels is the final one. *)
Lemma walk_weight_stable len :
  len < 2 ^ 31 ->
  forall n id,
    0 <= id -> len - id <= Z.of_nat n ->
    walk_weight len (S n) id = walk_weight len n id.
Proof.
  intros Hlen. induction n as [|n IH]; intros id Hid Hn.
  - cbn. destruct (Z.leb_spec len id); [reflexivity|lia].
  - change (walk_weight len (S (S n)) id)
      with (if len <=? id then 1%nat
            else S (walk_weight len (S n) (to_uint32 (2 * id + 1))
                    + walk_weight len (S n)
                        (to_uint32 (to_uint32 (2 * id + 1) + 1)))).
    change (walk_weight len (S n) id)
      with (if len <=? id then 1%nat
            else S (walk_weight len n (to_uint32 (2 * id + 1))
                    + walk_weight len n
                        (to_uint32 (to_uint32 (2 * id + 1) + 1)))).
    destruct (Z.leb_spec len id); [reflexivity|].
    rewrite (to_uint32_small (2 * id + 1)) by lia.
    rewrite (to_uint32_small (2 * id + 1 + 1)) by lia.
    rewrite !IH by lia. reflexivity.
Qed.

Lemma walk_checkpoint_total (ctx : TrainContext) (checkpoint : RDTree)
    (tree : list Node) :
  Z.of_nat (length tree) < 2 ^ 31 ->
  forall (fuel : nat) (queue : list NodeTrainData) (acc : Restored),
    Forall (fun d => 0 <= nd_id d) queue ->
    (queue_weight (Z.of_nat (length tree)) (length tree) queue <= fuel)%nat ->
    walk_checkpoint fuel ctx checkpoint tree queue acc <> None.
Proof.
  remember (length tree) as L eqn:EL.
  remember (Z.of_nat L) as len eqn:Elen.
  intros Hlen.
  assert (App : forall q1 q2,
            queue_weight len L (q1 ++ q2)
            = (queue_weight len L q1 + queue_weight len L q2)%nat).
  { intros q1 q2. unfold queue_weight. now rewrite map_app, list_sum_app. }
  induction fuel as [|fuel IH]; intros queue acc Hq Hw;
    destruct queue as [|data rest]; try (cbn; discriminate).
  - rewrite queue_weight_cons in Hw.
    pose proof (walk_weight_pos len L (nd_id data)). lia.
  - pose proof (Forall_inv Hq) as Hid. pose proof (Forall_inv_tail Hq) as Hrest.
    rewrite queue_weight_cons in Hw.
    pose proof (walk_weight_pos len L (nd_id data)) as Hpos.
    cbn beta in Hid.
    cbn [walk_checkpoint]. rewrite <- EL, <- Elen.
    destruct (Z.leb_spec len (nd_id data)) as [Hout|Hin]; [discriminate|].
    cbv zeta.
    set (acc' := if negb _ && negb _ then _ else acc).
    destruct ((node_label_pr_idx _ =? UINT32_MAX) || _).
    { apply IH; [exact Hrest|lia]. }
    destruct (node_label_pr_idx _ =? 0); [|apply IH; [exact Hrest|lia]].
    destruct (collect_pixels _ _ _ _ _) as [[[l r] counts]| |];
      try discriminate.
    apply IH.
    + apply Forall_app. split; [exact Hrest|].
      repeat constructor; cbn; apply to_uint32_range.
    + rewrite App, !queue_weight_cons.
      change (queue_weight len L []) with 0%nat.
      cbn [nd_id create_node_train_data].
      destruct L as [|n]; [lia|].
      rewrite (to_uint32_small (2 * nd_id data + 1)) in * by lia.
      rewrite (to_uint32_small (2 * nd_id data + 1 + 1)) in * by lia.
      rewrite !(walk_weight_stable len Hlen n) by lia.
      assert (E : walk_weight len (S n) (nd_id data)
                  = S (walk_weight len n (2 * nd_id data + 1)
                       + walk_weight len n (2 * nd_id data + 1 + 1))).
      { cbn [walk_weight]. destruct (Z.leb_spec len (nd_id data)); [lia|].
        rewrite (to_uint32_small (2 * nd_id data + 1)) by lia.
        rewrite (to_uint32_small (2 * nd_id data + 1 + 1)) by lia.
        reflexivity. }
      rewrite E in Hw. lia.
Qed.

(** C7. With [-i] and a readable checkpoint, [main] leaves with status 1
    before training begins when the checkpoint's number of labels is not
    the dataset's, when the binary32 difference of the two fields of view
    exceeds [1e-6] in absolute value, or when the checkpoint is deeper
    than the requested depth; and it leaves with status 1, reporting that
    the tree is already fully trained, when the walk over the saved tree
    leaves the training queue empty. The walk always ends: for a tree
    array of fewer than [2^31] nodes, the weight of the root is fuel
    enough. *)
Theorem checkpoint_rejected (fuel : nat) (root_pixels : list Int3D)
    (ctx : TrainContext) (checkpoint : RDTree) :
  let header := rdt_header checkpoint in
  let started := prepare_training fuel root_pixels ctx true (Some checkpoint) in
  let tree := restored_tree ctx checkpoint in
  (hdr_n_labels header <> ctx_n_labels ctx
   \/ fov_differs (hdr_fov header) (ctx_fov ctx) = true
   \/ ctx_max_depth ctx < hdr_depth header ->
   exists m,
     started = Some (Exit 1 m)
     /\ (m = CheckpointLabels \/ m = CheckpointFov \/ m = CheckpointDepth))
  /\ (hdr_n_labels header <> ctx_n_labels ctx ->
      started = Some (Exit 1 CheckpointLabels))
  /\ (forall r,
        validate_checkpoint ctx header = Ok tt ->
        walk_checkpoint fuel ctx checkpoint tree
          [create_node_train_data root_pixels ctx 0 0 0 None]
          (mkRestored [] 0 [])
        = Some (Ok r) ->
        r_train_queue r = [] ->
        started = Some (Exit 1 AlreadyTrained))
  /\ (Z.of_nat (length tree) < 2 ^ 31 ->
      (walk_weight (Z.of_nat (length tree)) (length tree) 0 <= fuel)%nat ->
      started <> None).
Proof.
  intros header started tree. unfold started, prepare_training.
  fold header tree.
  pose proof (validate_checkpoint_cases ctx header) as V.
  split; [|split; [|split]].
  - intros Hbad.
    destruct (validate_checkpoint ctx header) as [[]|code m|].
    + destruct V as (V1 & V2 & V3).
      destruct Hbad as [H|[H|H]]; [congruence|congruence|lia].
    + destruct V as (-> & Hm & _). now exists m.
    + destruct V.
  - intros Hbad. unfold validate_checkpoint.
    now destruct (Z.eqb_spec (hdr_n_labels header) (ctx_n_labels ctx)).
  - intros r Hv Hw Hq. now rewrite Hv, Hw, Hq.
  - intros Hlen Hfuel.
    destruct (validate_checkpoint ctx header) as [[]|code m|];
      try discriminate.
    pose proof (walk_checkpoint_total ctx checkpoint tree Hlen fuel
                  [create_node_train_data root_pixels ctx 0 0 0 None]
                  (mkRestored [] 0 [])) as T.
    destruct (walk_checkpoint fuel ctx checkpoint tree _ _) as [[r| |]|].
    + destruct (r_train_queue r); discriminate.
    + discriminate.
    + discriminate.
    + exfalso. apply T; [| |reflexivity].
      * repeat constructor. cbn. lia.
      * rewrite queue_weight_cons.
        change (queue_weight (Z.of_nat (length tree)) (length tree) [])
          with 0%nat.
        cbn [nd_id create_node_train_data]. lia.
Qed.

(** A saved tree of depth 1 whose only node is a leaf, resumed with the
    same depth. *)
Definition finished_checkpoint : RDTree :=
  mkTree (mkHeader 1 2 (F32.of_Z 1))
         [mkNode default_uv F32.zero 1]
         1
         [F32.of_Z 1; F32.zero].

Definition resumed_context : TrainContext :=
  mkContext 2 1 (F32.of_Z 1) 2 1 [0; 1]
            [S754_finite false 1024 (-10); S754_finite false 1536 (-9)]
            1 (F32.of_Z 1) 2 (F32.of_Z 1) 1 2
            [default_uv] [F32.zero; F32.of_Z 1].

(** Such a checkpoint is reported as already trained, and the same
    checkpoint is rejected by a dataset with three labels. *)
Example checkpoint_already_trained :
  prepare_training 3 [mkInt3D (0, 0) 0; mkInt3D (1, 0) 0] resumed_context
                   true (Some finished_checkpoint)
  = Some (Exit 1 AlreadyTrained)
  /\ prepare_training 3 [] (mkContext 2 1 (F32.of_Z 1) 3 1 [0; 1] [] 1
                              (F32.of_Z 1) 2 (F32.of_Z 1) 1 2 [] [])
                      true (Some finished_checkpoint)
     = Some (Exit 1 CheckpointLabels).
Proof. split; reflexivity. Qed.

(** ** The information gain *)

(** The gain of a split as a worker computes it from the three
    histograms: the root's, the left side's and the right side's. *)
Definition gain_of_split {F : Type} {ops : FloatOps F} {log : Log2 F}
    (n_labels : Z) (root left right : list Z) : F :=
  let root_n_pixels := fst (normalize_histogram (F := F) root n_labels) in
  let entropy :=
    calculate_shannon_entropy (snd (normalize_histogram root n_labels))
                              n_labels in
  let l_n_pixels := fst (normalize_histogram (F := F) left n_labels) in
  let l_entropy :=
    calculate_shannon_entropy (snd (normalize_histogram left n_labels))
                              n_labels in
  let r_n_pixels := fst (normalize_histogram (F := F) right n_labels) in
  let r_entropy :=
    calculate_shannon_entropy (snd (normalize_histogram right n_labels))
                              n_labels in
  calculate_gain entropy (to_uint32 (fst root_n_pixels))
                 l_entropy (to_uint32 (fst l_n_pixels))
                 r_entropy (to_uint32 (fst r_n_pixels)).

(** The gain the candidate loops compare with the best so far is this
    one. *)
Lemma evaluate_candidate_gain (log2f : float -> float) (ctx : TrainContext)
    (root_histogram lr_histograms : list Z) (i j lr_histo_base : Z)
    (best : ThreadBest) :
  let n := ctx_n_labels ctx in
  let result :=
    evaluate_candidate log2f ctx (histogram_sums root_histogram n)
      (calculate_shannon_entropy (log := log2f)
         (snd (normalize_histogram root_histogram n)) n)
      lr_histograms i j lr_histo_base best in
  result = best
  \/ best_gain result
     = gain_of_split (log := log2f) n root_histogram
         (skipn (Z.to_nat lr_histo_base) lr_histograms)
         (skipn (Z.to_nat (lr_histo_base + n)) lr_histograms).
Proof.
  intros n result. unfold result, evaluate_candidate. fold n.
  unfold normalize_histogram. cbv beta iota zeta. cbn [fst snd].
  destruct ((_ =? 0) || _); [now left|].
  match goal with
  | |- context [if F32.ltb (best_gain best) ?g then _ else _] =>
      destruct (F32.ltb (best_gain best) g)
  end; [right|now left].
  reflexivity.
Qed.

(** *** In binary32 the gain can be negative *)

(** [2^k] as a binary32 number, for a small [k]. *)
Definition pow2 (k : Z) : float := S754_finite false 8388608 (k - 23).

(** [log2f] is exact at 1/2, 1/4 and 1/8. *)
Definition exact_at_powers (log2f : float -> float) : Prop :=
  log2f (pow2 (-1)) = F32.of_Z (-1)
  /\ log2f (pow2 (-2)) = F32.of_Z (-2)
  /\ log2f (pow2 (-3)) = F32.of_Z (-3).

(** The logarithm of the powers of two, and nothing else. *)
Definition log2_of_power (x : float) : float :=
  match x with
  | S754_finite false 8388608 e => F32.of_Z (e + 23)
  | _ => S754_nan
  end.

Lemma entropy_ext {F : Type} {ops : FloatOps F} (log log' : Log2 F)
    (l : list F) (acc : F) :
  (forall v, In v l -> log v = log' v) ->
  fold_left
    (fun (entropy value : F) =>
       if fltb (of_int 0) value && fltb value (of_int 1)
       then fadd entropy (fmul (fneg value) (@flog2 F log value))
       else entropy) l acc
  = fold_left
      (fun (entropy value : F) =>
         if fltb (of_int 0) value && fltb value (of_int 1)
         then fadd entropy (fmul (fneg value) (@flog2 F log' value))
         else entropy) l acc.
Proof.
  revert acc. induction l as [|v l IH]; intros acc H; cbn [fold_left].
  - reflexivity.
  - assert (Hv : @flog2 F log v = @flog2 F log' v)
      by exact (H v (or_introl eq_refl)).
    rewrite Hv. apply IH. intros w Hw. apply H. now right.
Qed.

(** A node of 24 pixels over four labels, split into 8 and 16 pixels with
    the same proportions of labels. *)
Definition flat_root : list Z := [12; 6; 3; 3].
Definition flat_left : list Z := [4; 2; 1; 1].
Definition flat_right : list Z := [8; 4; 2; 2].

(** With any [log2f] that is exact at 1/2, 1/4 and 1/8, the gain of this
    split, whose sides are neither empty nor everything and whose parent
    has four labels, is negative: the three entropies are 1.75 and the two
    rounded weights add up to more than 1. *)
Lemma gain_counterexample :
  (total flat_left, total flat_right, total flat_root) = (8, 16, 24)
  /\ map (fun lr => fst lr + snd lr) (combine flat_left flat_right)
     = flat_root
  /\ (forall log2f : float -> float,
        exact_at_powers log2f ->
        F32.ltb (gain_of_split (log := log2f) 4 flat_root flat_left flat_right)
                F32.zero = true).
Proof.
  split; [reflexivity|]. split; [reflexivity|].
  intros log2f (H1 & H2 & H3).
  assert (E : forall h,
            In h [flat_root; flat_left; flat_right] ->
            calculate_shannon_entropy (log := log2f)
              (snd (normalize_histogram h 4)) 4
            = calculate_shannon_entropy (log := log2_of_power)
                (snd (normalize_histogram h 4)) 4).
  { intros h Hh. unfold calculate_shannon_entropy.
    apply entropy_ext. intros v Hv.
    assert (Hp : In v [pow2 (-1); pow2 (-2); pow2 (-3)]).
    { cbn in Hh. destruct Hh as [<-|[<-|[<-|[]]]];
        vm_compute in Hv; vm_compute; tauto. }
    cbn in Hp. destruct Hp as [<-|[<-|[<-|[]]]];
      [rewrite H1|rewrite H2|rewrite H3]; reflexivity. }
  unfold gain_of_split. cbv zeta.
  rewrite !E by (cbn; tauto).
  vm_compute. reflexivity.
Qed.

(** *** In exact arithmetic the gain is never negative *)

Section ExactGain.

Local Open Scope R_scope.

Definition Rsum (l : list R) : R := fold_right Rplus 0 l.

(** One term of the entropy. *)
Definition phi (p : R) : R := - p * (ln p / ln 2).

Lemma ln_2_pos : 0 < ln 2.
Proof. pose proof ln_lt_2. lra. Qed.

Lemma ln_le_sub1 (x : R) : 0 < x -> ln x <= x - 1.
Proof.
  intros Hx. destruct (Rle_or_lt (ln x) (x - 1)) as [H|H]; [exact H|].
  apply exp_increasing in H. rewrite exp_ln in H by assumption.
  pose proof (exp_ineq1_le (x - 1)). lra.
Qed.

(** One side of the log-sum inequality. *)
Lemma log_sum_side (a A s S : R) :
  0 <= a -> 0 < A -> a <= s -> 0 < S ->
  a * ln (s / S) - a * ln (a / A) <= s * A / S - a.
Proof.
  intros Ha HA Hs HS.
  destruct (Req_dec a 0) as [->|Hne].
  - rewrite !Rmult_0_l.
    assert (0 <= s * A / S).
    { apply Rmult_le_pos; [nra|]. left. now apply Rinv_0_lt_compat. }
    lra.
  - assert (Ha' : 0 < a) by lra.
    assert (Hs' : 0 < s) by lra.
    assert (HsS : 0 < s / S) by (apply Rdiv_lt_0_compat; assumption).
    assert (HaA : 0 < a / A) by (apply Rdiv_lt_0_compat; assumption).
    assert (Hx : 0 < (s / S) * / (a / A))
      by (apply Rmult_lt_0_compat; [|apply Rinv_0_lt_compat]; assumption).
    pose proof (ln_le_sub1 _ Hx) as L.
    rewrite ln_mult, ln_Rinv in L
      by (try apply Rinv_0_lt_compat; assumption).
    replace (s * A / S - a) with (a * ((s / S) * / (a / A) - 1))
      by (field; lra).
    nra.
Qed.

Lemma log_sum (a b A B : R) :
  0 <= a -> 0 <= b -> 0 < A -> 0 < B ->
  (a + b) * ln ((a + b) / (A + B)) <= a * ln (a / A) + b * ln (b / B).
Proof.
  intros Ha Hb HA HB.
  pose proof (log_sum_side a A (a + b) (A + B) Ha HA ltac:(lra) ltac:(lra)).
  pose proof (log_sum_side b B (a + b) (A + B) Hb HB ltac:(lra) ltac:(lra)).
  assert ((a + b) * A / (A + B) - a + ((a + b) * B / (A + B) - b) = 0)
    by (field; lra).
  lra.
Qed.

(** The entropy of the parent's share of a label is at least the weighted
    entropies of the children's shares. *)
Lemma phi_concave (a b A B : R) :
  0 <= a -> 0 <= b -> 0 < A -> 0 < B ->
  A / (A + B) * phi (a / A) + B / (A + B) * phi (b / B)
  <= phi ((a + b) / (A + B)).
Proof.
  intros Ha Hb HA HB. unfold phi.
  pose proof (log_sum a b A B Ha Hb HA HB) as L.
  pose proof ln_2_pos as H2.
  assert (E1 : A / (A + B) * (- (a / A) * (ln (a / A) / ln 2))
               + B / (A + B) * (- (b / B) * (ln (b / B) / ln 2))
               = - (a * ln (a / A) + b * ln (b / B)) / ((A + B) * ln 2))
    by (field; lra).
  assert (E2 : - ((a + b) / (A + B)) * (ln ((a + b) / (A + B)) / ln 2)
               = - ((a + b) * ln ((a + b) / (A + B))) / ((A + B) * ln 2))
    by (field; lra).
  rewrite E1, E2.
  apply Rmult_le_compat_r.
  - left. apply Rinv_0_lt_compat. nra.
  - lra.
Qed.

(** The entropy loop adds up [phi] over the histogram. *)
Lemma entropy_fold (l : list R) (acc : R) :
  (forall p, In p l -> 0 <= p <= 1) ->
  fold_left
    (fun entropy value : R =>
       if fltb (of_int 0) value && fltb value (of_int 1)
       then fadd entropy (fmul (fneg value) (flog2 value))
       else entropy) l acc
  = acc + Rsum (map phi l).
Proof.
  revert acc. induction l as [|p l IH]; intros acc H; cbn [fold_left map Rsum fold_right].
  - lra.
  - fold (Rsum (map phi l)). rewrite IH by (intros q Hq; apply H; now right).
    assert (Hp : 0 <= p <= 1) by (apply H; now left).
    cbn. unfold flog2, exact_log2.
    destruct (Rlt_dec 0 p) as [H0|H0]; destruct (Rlt_dec p 1) as [H1|H1];
      cbn [andb]; unfold phi; try lra.
    + replace p with 1 by lra. rewrite ln_1. lra.
    + replace p with 0 by lra. lra.
Qed.

End ExactGain.

Lemma slice_all {A : Type} (d : A) (a : list A) :
  slice d a 0 (Z.of_nat (length a)) = a.
Proof.
  unfold slice. rewrite Nat2Z.id. cbn [Z.to_nat Nat.add].
  apply (nth_ext _ _ d d).
  - now rewrite length_map, length_seq.
  - intros k Hk. rewrite length_map, length_seq in Hk.
    rewrite (nth_indep _ d (nth 0 a d))
      by now rewrite length_map, length_seq.
    rewrite (map_nth (fun k => nth k a d)). now rewrite seq_nth.
Qed.

Lemma total_ge_member (l : list Z) (x : Z) :
  (forall y, In y l -> 0 <= y) -> In x l -> 0 <= x <= total l.
Proof.
  unfold total. induction l as [|h l IH]; intros Hpos Hx; [destruct Hx|].
  cbn [fold_right].
  assert (0 <= h) by (apply Hpos; now left).
  assert (Hl : forall y, In y l -> 0 <= y) by (intros y Hy; apply Hpos; now right).
  assert (0 <= fold_right Z.add 0 l).
  { clear -Hl. induction l as [|y l IH]; cbn; [lia|].
    assert (0 <= y) by (apply Hl; now left).
    assert (0 <= fold_right Z.add 0 l) by (apply IH; intros z Hz; apply Hl; now right).
    lia. }
  destruct Hx as [->|Hx]; [lia|]. specialize (IH Hl Hx). lia.
Qed.

Section ExactHistogram.

Variables (n_labels : Z) (histogram : list Z).
Hypothesis Hlen : length histogram = Z.to_nat n_labels.
Hypothesis Hn : 0 <= n_labels.
Hypothesis Hpos : forall x, In x histogram -> 0 <= x.
Hypothesis Htotal : 0 < total histogram < 2 ^ 31.

Lemma whole_slice : slice 0 histogram 0 n_labels = histogram.
Proof.
  rewrite <- (Z2Nat.id n_labels), <- Hlen by assumption. apply slice_all.
Qed.

(** In exact arithmetic, and as long as the total fits an [int32_t], a
    histogram is normalised to the shares of its labels. *)
Lemma normalize_histogram_exact :
  fst (fst (normalize_histogram (F := R) histogram n_labels))
  = total histogram
  /\ snd (normalize_histogram (F := R) histogram n_labels)
     = map (fun x => (IZR x / IZR (total histogram))%R) histogram.
Proof.
  unfold normalize_histogram. cbv zeta. cbn [fst snd].
  rewrite histogram_sums_spec by (rewrite whole_slice; exact Hpos).
  cbn [fst snd]. unfold segment. rewrite whole_slice.
  rewrite to_int32_small by lia.
  split; [reflexivity|].
  destruct (Z.ltb_spec 0 (total histogram)); [reflexivity|lia].
Qed.

Lemma shares_in_unit (p : R) :
  In p (map (fun x => (IZR x / IZR (total histogram))%R) histogram) ->
  (0 <= p <= 1)%R.
Proof.
  rewrite in_map_iff. intros (x & <- & Hx).
  pose proof (total_ge_member histogram x Hpos Hx) as [H0 H1].
  assert (HT : (0 < IZR (total histogram))%R) by (apply IZR_lt; lia).
  apply IZR_le in H0, H1.
  split.
  - apply Rmult_le_pos; [exact H0|]. left. now apply Rinv_0_lt_compat.
  - apply (Rmult_le_reg_r (IZR (total histogram))); [exact HT|].
    unfold Rdiv. rewrite Rmult_assoc, Rinv_l by lra. lra.
Qed.

Lemma entropy_exact :
  calculate_shannon_entropy
    (snd (normalize_histogram (F := R) histogram n_labels)) n_labels
  = Rsum (map phi (map (fun x => (IZR x / IZR (total histogram))%R)
                       histogram)).
Proof.
  destruct normalize_histogram_exact as [_ ->].
  unfold calculate_shannon_entropy.
  replace (slice (of_int 0) _ 0 n_labels)
    with (map (fun x => (IZR x / IZR (total histogram))%R) histogram).
  - rewrite entropy_fold by exact shares_in_unit. cbn. lra.
  - rewrite <- (Z2Nat.id n_labels), <- Hlen by assumption.
    rewrite <- (length_map (fun x => (IZR x / IZR (total histogram))%R)).
    symmetry. apply slice_all.
Qed.

End ExactHistogram.

Lemma weighted_entropies_le (A B : R) :
  (0 < A)%R -> (0 < B)%R ->
  forall (ls rs : list Z),
    length ls = length rs ->
    (forall x, In x ls -> 0 <= x) -> (forall x, In x rs -> 0 <= x) ->
    (A / (A + B) * Rsum (map phi (map (fun x => IZR x / A) ls))
     + B / (A + B) * Rsum (map phi (map (fun x => IZR x / B) rs))
     <= Rsum (map phi
                (map (fun lr => IZR (fst lr + snd lr) / (A + B))
                     (combine ls rs))))%R.
Proof.
  intros HA HB. induction ls as [|a ls IH]; intros [|b rs] Hlen Hl Hr;
    try discriminate; cbn [map combine Rsum fold_right fst snd].
  - lra.
  - fold (Rsum (map phi (map (fun x => (IZR x / A)%R) ls))).
    fold (Rsum (map phi (map (fun x => (IZR x / B)%R) rs))).
    fold (Rsum (map phi (map (fun lr => (IZR (fst lr + snd lr) / (A + B))%R)
                             (combine ls rs)))).
    specialize (IH rs ltac:(cbn in Hlen; lia)
                   ltac:(intros x Hx; apply Hl; now right)
                   ltac:(intros x Hx; apply Hr; now right)).
    assert (Ha : (0 <= IZR a)%R) by (apply IZR_le, Hl; now left).
    assert (Hb : (0 <= IZR b)%R) by (apply IZR_le, Hr; now left).
    pose proof (phi_concave (IZR a) (IZR b) A B Ha Hb HA HB) as C.
    rewrite plus_IZR. lra.
Qed.

Lemma total_sum_of_sides (ls rs : list Z) :
  length ls = length rs ->
  total (map (fun lr => fst lr + snd lr) (combine ls rs))
  = total ls + total rs.
Proof.
  unfold total. revert rs. induction ls as [|a ls IH]; intros [|b rs] Hlen;
    try discriminate; cbn; [reflexivity|].
  rewrite IH by (cbn in Hlen; lia). lia.
Qed.

(** C8, as amended. In exact real arithmetic, for a node whose total
    count fits an [int32_t] and a split of it into two sides that both
    hold pixels, the gain that [calculate_gain] computes from the Shannon
    entropies of the three normalised histograms is not negative. *)
Theorem gain_nonnegative_exact (n_labels : Z) (root left right : list Z) :
  0 <= n_labels ->
  length left = Z.to_nat n_labels ->
  length right = Z.to_nat n_labels ->
  (forall x, In x left -> 0 <= x) ->
  (forall x, In x right -> 0 <= x) ->
  root = map (fun lr => fst lr + snd lr) (combine left right) ->
  0 < total left -> 0 < total right -> total root < 2 ^ 31 ->
  (0 <= gain_of_split (F := R) n_labels root left right)%R.
Proof.
  intros Hn Hl Hr Pl Pr Hroot Tl Tr Troot.
  assert (Hlr : length left = length right) by congruence.
  assert (Ht : total root = total left + total right)
    by (rewrite Hroot; now apply total_sum_of_sides).
  assert (Hlen : length root = Z.to_nat n_labels).
  { rewrite Hroot, length_map, length_combine. lia. }
  assert (Proot : forall x, In x root -> 0 <= x).
  { intros x Hx. rewrite Hroot in Hx. apply in_map_iff in Hx.
    destruct Hx as ([a b] & <- & Hab). cbn [fst snd].
    pose proof (Pl a (in_combine_l _ _ _ _ Hab)).
    pose proof (Pr b (in_combine_r _ _ _ _ Hab)). lia. }
  unfold gain_of_split. cbv zeta.
  rewrite (entropy_exact n_labels root), (entropy_exact n_labels left),
          (entropy_exact n_labels right) by (trivial; lia).
  destruct (normalize_histogram_exact n_labels root) as [-> _];
    trivial; try lia.
  destruct (normalize_histogram_exact n_labels left) as [-> _];
    trivial; try lia.
  destruct (normalize_histogram_exact n_labels right) as [-> _];
    trivial; try lia.
  rewrite !to_uint32_small by lia.
  unfold calculate_gain. cbn [fsub fadd fmul fdiv of_int exact].
  rewrite Ht, plus_IZR.
  assert (HA : (0 < IZR (total left))%R) by (apply IZR_lt; lia).
  assert (HB : (0 < IZR (total right))%R) by (apply IZR_lt; lia).
  pose proof (weighted_entropies_le _ _ HA HB left right Hlr Pl Pr) as W.
  rewrite Hroot at 1.
  match type of W with
  | (_ <= ?r)%R =>
      match goal with
      | |- (0 <= ?g - _)%R => replace g with r by (now rewrite !map_map)
      end
  end.
  lra.
Qed.

(** The theorem at the split for which binary32 gives a negative gain. *)
Lemma gain_nonnegative_exact_witness :
  (0 <= gain_of_split (F := R) 4 flat_root flat_left flat_right)%R.
Proof.
  apply gain_nonnegative_exact; try reflexivity; try lia;
    intros x Hx; cbn in Hx; lia.
Defined.

(** ** A small training problem

    Two images of 2 x 1 pixels with depths 1.0 and 3.0 and labels 0 and
    1, two uv combinations and two thresholds, trained to depth 2 from all
    four pixels. *)

Definition uv_still : UVPair := default_uv.

Definition uv_step : UVPair := mkUV (F32.of_Z 1) F32.zero F32.zero F32.zero.

Definition demo_ctx : TrainContext :=
  mkContext 2 1 (F32.of_Z 1) 2 2
            [0; 1; 0; 1]
            [S754_finite false 1024 (-10); S754_finite false 1536 (-9);
             S754_finite false 1024 (-10); S754_finite false 1536 (-9)]
            2 (F32.of_Z 1) 2 (F32.of_Z 1) 2 2
            [uv_still; uv_step] [F32.zero; F32.of_Z 1].

Definition demo_pixels : list Int3D :=
  [mkInt3D (0, 0) 0; mkInt3D (1, 0) 0; mkInt3D (0, 0) 1; mkInt3D (1, 0) 1].

Definition demo_root : NodeTrainData := mkNodeData 0 0 4 demo_pixels.

(** The same pixels at the last depth. *)
Definition demo_last : NodeTrainData := mkNodeData 1 1 4 demo_pixels.

Definition no_best : ThreadBest := mkBest F32.zero 0 0 (0, 0).

Definition demo_published : Published :=
  mkPublished [F32.zero; F32.zero] [0; 0] [0; 0] [0; 0; 0; 0]
              [F32.zero; F32.zero].

Lemma demo_well_sized : well_sized demo_ctx 0 2.
Proof.
  constructor; cbn; try lia. repeat constructor; lia.
Defined.

Lemma demo_valid_run : valid_run demo_ctx demo_root 2.
Proof.
  constructor; cbn; try lia. repeat constructor; lia.
Defined.

(** One worker over the whole table finds the step feature with the
    threshold 1.0: it sends the two pixels of label 1 left and the two of
    label 0 right, for a gain of 1. *)
Example demo_thread_body :
  thread_body log2_of_power demo_ctx demo_root 0 2 quiet no_best
  = Ok (mkBest (F32.of_Z 1) 1 1 (2, 2), [pow2 (-1); pow2 (-1)]).
Proof. vm_compute. reflexivity. Qed.

(** With two workers and the coordinator: the root is split, and so
    are its pixels. *)
Example demo_train_iteration :
  train_iteration log2_of_power demo_ctx 2 (fun _ => quiet) false
    demo_published
    (mkTrainer (repeat (set_leaf default_node UINT32_MAX) 3) [demo_root] 0 [])
  = Ok (Some
          (mkTrainer
             [mkNode uv_step (F32.of_Z 1) 0;
              set_leaf default_node UINT32_MAX;
              set_leaf default_node UINT32_MAX]
             [mkNodeData 1 1 2 [mkInt3D (1, 0) 0; mkInt3D (1, 0) 1];
              mkNodeData 2 1 2 [mkInt3D (0, 0) 0; mkInt3D (0, 0) 1]]
             0 [],
           mkPublished [F32.zero; F32.of_Z 1] [0; 1] [0; 1] [0; 0; 2; 2]
                       [pow2 (-1); pow2 (-1)])).
Proof. vm_compute. reflexivity. Qed.

(** *** The theorems at this problem *)

Lemma trivial_splits_skipped_witness :
  exists best root_nhistogram,
    thread_body log2_of_power demo_ctx demo_root 0 2 quiet no_best
    = Ok (best, root_nhistogram)
    /\ (best = mkBest F32.zero 0 0 (0, 0)
        \/ (F32.ltb F32.zero (best_gain best) = true
            /\ exists k,
                 (k < length (candidates demo_ctx 0 2))%nat
                 /\ (best_uv best, best_t best)
                    = nth k (candidates demo_ctx 0 2) (0, 0)
                 /\ ~ trivial_split demo_ctx demo_pixels
                        (nth k (candidates demo_ctx 0 2) (0, 0))
                 /\ n_lr_pixels best
                    = (count (goes_left demo_ctx
                                (nth k (candidates demo_ctx 0 2) (0, 0)))
                             demo_pixels,
                       count (goes_right demo_ctx
                                (nth k (candidates demo_ctx 0 2) (0, 0)))
                             demo_pixels))).
Proof.
  refine (proj2 (trivial_splits_skipped log2_of_power demo_ctx demo_root 0 2
                   quiet no_best _ _ demo_well_sized _ _)).
  - cbn. lia.
  - vm_compute. reflexivity.
Defined.

Lemma thread_body_early_exit_witness :
  thread_body log2_of_power demo_ctx demo_last 0 2 quiet no_best
  = Ok (mkBest F32.zero 0 0 (0, 0),
        snd (normalize_histogram [2; 2] 2)).
Proof.
  refine (proj1 (thread_body_early_exit log2_of_power demo_ctx demo_last 0 2
                   quiet no_best [2; 2] _ _ _)).
  - vm_compute. reflexivity.
  - right. reflexivity.
Defined.

(** With a hint of 0 for the left child and a hint of 3 for the right
    one, which receive two pixels each, the counts left in [n_lr_pixels]
    are the two sizes. *)
Lemma collect_pixels_partition_witness :
  collect_pixels demo_ctx demo_root uv_step (F32.of_Z 1) (0, 3)
  = Ok ([mkInt3D (1, 0) 0; mkInt3D (1, 0) 1],
        [mkInt3D (0, 0) 0; mkInt3D (0, 0) 1], (2, 2)).
Proof.
  refine (proj1 (collect_pixels_partition demo_ctx demo_root uv_step
                   (F32.of_Z 1) (0, 3) _ _ _)).
  - cbn. lia.
  - left. reflexivity.
  - right. vm_compute. discriminate.
Defined.

(** With a hint of 1 for the left child, which receives two pixels, the
    second of them is written past the buffer of one pixel the hint
    sized: [collect_pixels] does not get to the counts. *)
Lemma collect_pixels_small_hint :
  length (filter (left_of demo_ctx uv_step (F32.of_Z 1))
                 (node_pixels demo_root)) = 2%nat
  /\ collect_pixels demo_ctx demo_root uv_step (F32.of_Z 1) (1, 2)
     = Undefined.
Proof. split; vm_compute; reflexivity. Qed.

Lemma root_nhistogram_is_current_witness :
  exists pub',
    run_threads log2_of_power demo_ctx demo_root 2 (fun _ => quiet)
                demo_published
    = Ok pub'
    /\ root_nhistogram pub'
       = snd (normalize_histogram (label_histogram demo_ctx demo_root) 2).
Proof.
  eexists. split; [vm_compute; reflexivity|].
  apply (proj1 (proj2 (root_nhistogram_is_current log2_of_power demo_ctx
                         demo_root 2 (fun _ => quiet) demo_valid_run
                         (fun _ => eq_refl)))
           demo_published).
  vm_compute. reflexivity.
Defined.

(** ** Rounding to binary32

    How far the result of a conversion or a division is from the exact
    one, from the definition of rounding to nearest. *)

(** The real number a float stands for; 0 for an infinity or a NaN. *)
Definition value (x : float) : R :=
  match x with
  | S754_finite s m e => (IZR (cond_Zopp s (Zpos m)) * powerRZ 2 e)%R
  | _ => 0%R
  end.

(** A mantissa with its round and sticky bits places a real number [x]
    between the mantissa and its successor: on the mantissa, below the
    middle, on the middle or above it. *)
Definition located (mrs : shr_record) (x : R) : Prop :=
  let d := (x - IZR (shr_m mrs))%R in
  match shr_r mrs, shr_s mrs with
  | false, false => d = 0%R
  | false, true => (0 < d < 1 / 2)%R
  | true, false => d = (1 / 2)%R
  | true, true => (1 / 2 < d < 1)%R
  end.

(** The relative error of one rounding: [2^-24]. *)
Definition unit_roundoff : R := (/ 16777216)%R.

(** [x] approximates [y] with at most one rounding error. *)
Definition rounds_to (x y : R) : Prop :=
  (y * (1 - unit_roundoff) <= x <= y * (1 + unit_roundoff))%R.

Lemma located_bounds mrs x :
  located mrs x -> (IZR (shr_m mrs) <= x < IZR (shr_m mrs) + 1)%R.
Proof.
  unfold located. destruct (shr_r mrs), (shr_s mrs); cbv zeta; lra.
Qed.

Lemma shr_1_located mrs x :
  0 <= shr_m mrs -> located mrs x ->
  0 <= shr_m (shr_1 mrs) /\ located (shr_1 mrs) (x / 2).
Proof.
  destruct mrs as [m r s]. cbn [shr_m]. intros Hm.
  destruct m as [|p|p]; [| |lia].
  - unfold located; destruct r, s; cbn; split; try lia; lra.
  - assert (O : forall q, IZR (Z.pos q~1) = (2 * IZR (Z.pos q) + 1)%R).
    { intros q. change (Z.pos q~1) with (2 * Z.pos q + 1).
      now rewrite plus_IZR, mult_IZR. }
    assert (E : forall q, IZR (Z.pos q~0) = (2 * IZR (Z.pos q))%R).
    { intros q. change (Z.pos q~0) with (2 * Z.pos q). now rewrite mult_IZR. }
    unfold located; destruct p as [q|q|]; destruct r, s;
      cbn [shr_1 shr_m shr_r shr_s orb]; cbv zeta;
      try rewrite (O q); try rewrite (E q); split; try lia; lra.
Qed.

Lemma iter_pos_nat {A : Type} (f : A -> A) (p : positive) (x : A) :
  SpecFloat.iter_pos f p x = Nat.iter (Pos.to_nat p) f x.
Proof.
  revert x. induction p as [p IH|p IH|]; intros x;
    cbn [SpecFloat.iter_pos].
  - rewrite !IH, Pos2Nat.inj_xI, <- Nat.iter_add, Nat.iter_swap.
    replace (Pos.to_nat p + Pos.to_nat p)%nat with (2 * Pos.to_nat p)%nat
      by lia.
    reflexivity.
  - rewrite !IH, Pos2Nat.inj_xO, <- Nat.iter_add.
    replace (Pos.to_nat p + Pos.to_nat p)%nat with (2 * Pos.to_nat p)%nat
      by lia.
    reflexivity.
  - reflexivity.
Qed.

Lemma shifts_located (n : nat) mrs x :
  0 <= shr_m mrs -> located mrs x ->
  0 <= shr_m (Nat.iter n shr_1 mrs)
  /\ located (Nat.iter n shr_1 mrs) (x / 2 ^ n).
Proof.
  intros Hm Hx. induction n as [|n [IHm IHx]].
  - cbn. split; [exact Hm|]. now replace (x / 1)%R with x by lra.
  - rewrite Nat.iter_succ.
    destruct (shr_1_located _ _ IHm IHx) as [Km Kx]. split; [exact Km|].
    replace (x / 2 ^ S n)%R with (x / 2 ^ n / 2)%R; [exact Kx|].
    cbn [pow]. field. apply pow_nonzero. lra.
Qed.

(** What [shr] leaves for a shift that is not negative. *)
Lemma shr_located mrs e n x :
  0 <= n -> 0 <= shr_m mrs -> located mrs x ->
  snd (shr mrs e n) = e + n
  /\ 0 <= shr_m (fst (shr mrs e n))
  /\ located (fst (shr mrs e n)) (x / 2 ^ Z.to_nat n).
Proof.
  intros Hn Hm Hx. destruct n as [|p|p]; [| |lia]; cbn [shr fst snd].
  - split; [lia|]. split; [exact Hm|].
    cbn. now replace (x / 1)%R with x by lra.
  - split; [reflexivity|]. rewrite iter_pos_nat.
    now apply shifts_located.
Qed.

Lemma round_nearest_even_located mrs x :
  located mrs x ->
  let k := round_nearest_even (shr_m mrs) (loc_of_shr_record mrs) in
  shr_m mrs <= k <= shr_m mrs + 1
  /\ (- (1 / 2) <= IZR k - x <= 1 / 2)%R.
Proof.
  destruct mrs as [m r s]. unfold located. cbn [shr_m shr_r shr_s].
  destruct r, s; cbn [loc_of_shr_record round_nearest_even]; intros H;
    try (split; [lia|]; try rewrite plus_IZR; lra).
  destruct (Z.even m); (split; [lia|]); try rewrite plus_IZR; lra.
Qed.

(** *** The number of digits *)

Lemma digits2_size (p : positive) : digits2_pos p = Pos.size p.
Proof. induction p; cbn; congruence. Qed.

Lemma digits2_bounds (p : positive) :
  2 ^ (Z.pos (digits2_pos p) - 1) <= Z.pos p < 2 ^ Z.pos (digits2_pos p).
Proof.
  rewrite digits2_size.
  pose proof (Pos.size_gt p) as G. pose proof (Pos.size_le p) as L.
  apply Pos2Z.pos_lt_pos in G. apply Pos2Z.pos_le_pos in L.
  rewrite Pos2Z.inj_pow in G, L.
  change (Z.pos p~0) with (2 * Z.pos p) in L.
  split; [|exact G].
  replace (2 ^ Z.pos (Pos.size p)) with (2 * 2 ^ (Z.pos (Pos.size p) - 1)) in L.
  - lia.
  - rewrite <- Z.pow_succ_r by lia. f_equal. lia.
Qed.

Lemma digits2_unique (p : positive) (k : Z) :
  2 ^ (k - 1) <= Z.pos p < 2 ^ k -> Z.pos (digits2_pos p) = k.
Proof.
  intros [L U]. pose proof (digits2_bounds p) as [L' U'].
  set (d := Z.pos (digits2_pos p)) in *.
  assert (Hd : 0 < d) by (unfold d; lia).
  destruct (Z.lt_trichotomy d k) as [C|[C|C]]; [|exact C|].
  - assert (2 ^ d <= 2 ^ (k - 1)) by (apply Z.pow_le_mono_r; lia). lia.
  - destruct (Z.le_gt_cases k 0) as [K|K].
    + assert (2 ^ k <= 1).
      { destruct (Z.eq_dec k 0) as [->|]; [cbn; lia|].
        rewrite Z.pow_neg_r by lia. lia. }
      lia.
    + assert (2 ^ k <= 2 ^ (d - 1)) by (apply Z.pow_le_mono_r; lia). lia.
Qed.

(** *** Rounding a mantissa of at least 24 digits *)

Lemma pow2_IZR (n : nat) : IZR (2 ^ Z.of_nat n) = (2 ^ n)%R.
Proof. now rewrite <- pow_IZR. Qed.

Lemma powerRZ_shift (e : Z) (n : nat) :
  powerRZ 2 (e + Z.of_nat n) = (2 ^ n * powerRZ 2 e)%R.
Proof.
  rewrite powerRZ_add by lra. rewrite <- pow_powerRZ. lra.
Qed.

Lemma shr_m_of_loc (m : Z) (l : location) : shr_m (shr_record_of_loc m l) = m.
Proof. destruct l as [|[| |]]; reflexivity. Qed.

Lemma rounds_to_scale (k y P : R) :
  (0 < P)%R -> (8388608 <= y)%R -> (- (1 / 2) <= k - y <= 1 / 2)%R ->
  rounds_to (k * P) (y * P).
Proof.
  intros HP Hy Hk. unfold rounds_to, unit_roundoff.
  assert (y * (1 - / 16777216) <= k <= y * (1 + / 16777216))%R by lra.
  split.
  - replace (y * P * (1 - / 16777216))%R with (y * (1 - / 16777216) * P)%R
      by ring.
    apply Rmult_le_compat_r; lra.
  - replace (y * P * (1 + / 16777216))%R with (y * (1 + / 16777216) * P)%R
      by ring.
    apply Rmult_le_compat_r; lra.
Qed.

(** Away from underflow and overflow, [binary_round_aux] returns a
    normal number within one rounding error of the number it is given:
    [x * 2^ex], where the location [lx] places [x] after [mx]. *)
Lemma binary_round_aux_normal (sx : bool) (mx ex : Z) (lx : location)
    (x : R) :
  0 < mx ->
  located (shr_record_of_loc mx lx) x ->
  24 <= Zdigits2 mx ->
  -125 <= Zdigits2 mx + ex <= 127 ->
  exists m e,
    binary_round_aux 24 128 sx mx ex lx = S754_finite sx m e
    /\ 8388608 <= Z.pos m < 16777216
    /\ Zdigits2 mx + ex - 24 <= e <= Zdigits2 mx + ex - 23
    /\ rounds_to (IZR (Z.pos m) * powerRZ 2 e) (x * powerRZ 2 ex).
Proof.
  intros Hm Hx Hd He.
  set (d := Zdigits2 mx) in *.
  set (n := Z.to_nat (d - 24)).
  assert (Hn : d - 24 = Z.of_nat n) by (unfold n; lia).
  (* the first shift *)
  unfold binary_round_aux, shr_fexp. fold d.
  replace (fexp 24 128 (d + ex) - ex) with (d - 24)
    by (unfold fexp, emin; lia).
  destruct (shr_located (shr_record_of_loc mx lx) ex (d - 24) x)
    as (E1 & M1 & L1); [lia|rewrite shr_m_of_loc; lia|exact Hx|].
  destruct (shr (shr_record_of_loc mx lx) ex (d - 24)) as [mrs' e'].
  cbn [fst snd] in E1, M1, L1. fold n in L1. subst e'.
  set (y := (x / 2 ^ n)%R) in *.
  assert (P2 : (0 < 2 ^ n)%R) by (apply pow_lt; lra).
  (* the shifted number has 24 digits before the point *)
  assert (Hy : (8388608 <= y < 16777216)%R).
  { destruct mx as [|p|p]; try lia.
    pose proof (digits2_bounds p) as [L U]. fold (Zdigits2 (Z.pos p)) in L, U.
    fold d in L, U.
    pose proof (located_bounds _ _ Hx) as [Lx Ux].
    rewrite shr_m_of_loc in Lx, Ux.
    replace (d - 1) with (23 + Z.of_nat n) in L by lia.
    replace d with (24 + Z.of_nat n) in U by lia.
    rewrite Z.pow_add_r in L, U by lia.
    apply IZR_le in L. rewrite mult_IZR, pow2_IZR in L.
    assert (U' : Z.pos p + 1 <= 2 ^ 24 * 2 ^ Z.of_nat n) by lia.
    apply IZR_le in U'. rewrite plus_IZR, mult_IZR, pow2_IZR in U'.
    change (IZR (2 ^ 23)) with 8388608%R in L.
    change (IZR (2 ^ 24)) with 16777216%R in U'.
    unfold y. split.
    - apply (Rmult_le_reg_r (2 ^ n)); [exact P2|].
      unfold Rdiv. rewrite Rmult_assoc, Rinv_l by lra. lra.
    - apply (Rmult_lt_reg_r (2 ^ n)); [exact P2|].
      unfold Rdiv. rewrite Rmult_assoc, Rinv_l by lra. lra. }
  pose proof (located_bounds _ _ L1) as [Lm Um].
  assert (Bm : 8388608 <= shr_m mrs' < 16777216).
  { split.
    - assert (H : (IZR 8388608 < IZR (shr_m mrs' + 1))%R)
        by (rewrite plus_IZR; lra).
      apply lt_IZR in H. lia.
    - apply lt_IZR. lra. }
  destruct (round_nearest_even_located _ _ L1) as [K1 K2].
  set (k := round_nearest_even (shr_m mrs') (loc_of_shr_record mrs')) in *.
  assert (Value : (x * powerRZ 2 ex = y * powerRZ 2 (ex + (d - 24)))%R).
  { rewrite Hn, powerRZ_shift. unfold y. field. lra. }
  (* the second shift: one digit when rounding carried into the 25th *)
  destruct (Z.eq_dec k 16777216) as [Ek|Nk].
  - rewrite Ek.
    replace (fexp 24 128 (Zdigits2 16777216 + (ex + (d - 24)))
             - (ex + (d - 24))) with 1
      by (change (Zdigits2 16777216) with 25; unfold fexp, emin; lia).
    cbn [shr_record_of_loc shr SpecFloat.iter_pos shr_1 shr_m].
    replace (ex + (d - 24) + 1 <=? 128 - 24) with true
      by (symmetry; apply Z.leb_le; lia).
    exists 8388608%positive, (ex + (d - 24) + 1).
    split; [reflexivity|]. split; [lia|]. split; [lia|].
    rewrite Value.
    replace (IZR 8388608 * powerRZ 2 (ex + (d - 24) + 1))%R
      with (IZR k * powerRZ 2 (ex + (d - 24)))%R.
    + apply rounds_to_scale; [apply powerRZ_lt; lra|lra|exact K2].
    + rewrite Ek, (powerRZ_add 2 (ex + (d - 24)) 1) by lra.
      replace (powerRZ 2 1) with 2%R
        by (unfold powerRZ; rewrite Pos2Nat.inj_1; cbn [pow]; lra).
      lra.
  - destruct k as [|q|q] eqn:Eq; try lia.
    replace (fexp 24 128 (Zdigits2 (Z.pos q) + (ex + (d - 24)))
             - (ex + (d - 24))) with 0.
    2:{ cbn [Zdigits2]. rewrite (digits2_unique q 24) by (cbn; lia).
        unfold fexp, emin. lia. }
    cbn [shr_record_of_loc shr shr_m].
    replace (ex + (d - 24) <=? 128 - 24) with true
      by (symmetry; apply Z.leb_le; lia).
    exists q, (ex + (d - 24)).
    split; [reflexivity|]. split; [lia|]. split; [lia|].
    rewrite Value.
    apply rounds_to_scale; [apply powerRZ_lt; lra|lra|exact K2].
Qed.

(** *** Converting an integer *)

Lemma digits2_up_to_32 (p : positive) :
  Z.pos p < 2 ^ 32 -> 1 <= Z.pos (digits2_pos p) <= 32.
Proof.
  intros Hp. pose proof (digits2_bounds p) as [L _].
  split; [lia|].
  destruct (Z.le_gt_cases (Z.pos (digits2_pos p)) 32) as [C|C]; [exact C|].
  assert (2 ^ 32 <= 2 ^ (Z.pos (digits2_pos p) - 1))
    by (apply Z.pow_le_mono_r; lia).
  lia.
Qed.

Lemma located_exact (m : Z) : located (shr_record_of_loc m loc_Exact) (IZR m).
Proof. unfold located. cbn. lra. Qed.

(** [(float)z] for a positive [z] below [2^32] is a normal number within
    one rounding error of [z]. *)
Lemma of_Z_rounds (z : Z) :
  0 < z < 2 ^ 32 ->
  exists m e,
    F32.of_Z z = S754_finite false m e
    /\ 8388608 <= Z.pos m < 16777216
    /\ -23 <= e <= 9
    /\ rounds_to (IZR (Z.pos m) * powerRZ 2 e) (IZR z).
Proof.
  intros Hz. destruct z as [|p|p]; try lia.
  unfold F32.of_Z, F32.prec, F32.emax, binary_normalize, binary_round.
  pose proof (digits2_up_to_32 p ltac:(lia)) as Hd.
  pose proof (digits2_bounds p) as [L U].
  set (d := Z.pos (digits2_pos p)) in *.
  replace (fexp 24 128 (d + 0)) with (d - 24) by (unfold fexp, emin; lia).
  unfold shl_align.
  destruct (d - 24 - 0) as [|c|c] eqn:Ec.
  - destruct (binary_round_aux_normal false (Z.pos p) 0 loc_Exact
                (IZR (Z.pos p)))
      as (m & e & E & Bm & Be & Rm);
      [lia|apply located_exact|cbn [Zdigits2]; fold d; lia
      |cbn [Zdigits2]; fold d; lia|].
    cbn [Zdigits2] in Be. fold d in Be.
    exists m, e. split; [exact E|]. split; [exact Bm|]. split; [lia|].
    now rewrite powerRZ_O, Rmult_1_r in Rm.
  - destruct (binary_round_aux_normal false (Z.pos p) 0 loc_Exact
                (IZR (Z.pos p)))
      as (m & e & E & Bm & Be & Rm);
      [lia|apply located_exact|cbn [Zdigits2]; fold d; lia
      |cbn [Zdigits2]; fold d; lia|].
    cbn [Zdigits2] in Be. fold d in Be.
    exists m, e. split; [exact E|]. split; [exact Bm|]. split; [lia|].
    now rewrite powerRZ_O, Rmult_1_r in Rm.
  - (* fewer than 24 digits: the mantissa is shifted left, exactly *)
    fold (shift_pos c p).
    assert (Hs : Z.pos (shift_pos c p) = 2 ^ Z.pos c * Z.pos p)
      by (rewrite shift_pos_correct; reflexivity).
    assert (Hc : Z.pos c = 24 - d) by lia.
    assert (D24 : Z.pos (digits2_pos (shift_pos c p)) = 24).
    { apply digits2_unique.
      assert (A : 2 ^ (24 - 1) = 2 ^ (24 - d) * 2 ^ (d - 1))
        by (rewrite <- Z.pow_add_r by lia; f_equal; lia).
      assert (B : 2 ^ 24 = 2 ^ (24 - d) * 2 ^ d)
        by (rewrite <- Z.pow_add_r by lia; f_equal; lia).
      rewrite Hs, Hc, A, B.
      assert (0 < 2 ^ (24 - d)) by (apply Z.pow_pos_nonneg; lia).
      split; [apply Z.mul_le_mono_nonneg_l; lia
             |apply Z.mul_lt_mono_pos_l; lia]. }
    destruct (binary_round_aux_normal false (Z.pos (shift_pos c p)) (d - 24)
                loc_Exact (IZR (Z.pos (shift_pos c p))))
      as (m & e & E & Bm & Be & Rm);
      [lia|apply located_exact|cbn [Zdigits2]; lia|cbn [Zdigits2]; lia|].
    cbn [Zdigits2] in Be. rewrite D24 in Be.
    exists m, e. split; [exact E|]. split; [exact Bm|]. split; [lia|].
    replace (IZR (Z.pos (shift_pos c p)) * powerRZ 2 (d - 24))%R
      with (IZR (Z.pos p)) in Rm; [exact Rm|].
    rewrite Hs, mult_IZR.
    change (2 ^ Z.pos c) with (Z.pow_pos 2 c).
    rewrite Zpower_pos_powerRZ.
    replace (d - 24) with (- Z.pos c) by lia.
    rewrite powerRZ_neg'.
    assert (0 < powerRZ 2 (Z.pos c))%R by (apply powerRZ_lt; lra).
    field. lra.
Qed.

(** *** Dividing *)

Lemma Rdiv_cancel (a b : R) : (0 < b)%R -> (a / b * b = a)%R.
Proof. intros Hb. field. lra. Qed.

(** The location [SFdiv] computes from the remainder of the integer
    division places the exact quotient. *)
Lemma new_location_located (nb q r : Z) :
  0 < nb -> 0 <= r < nb ->
  located (shr_record_of_loc q (new_location nb r))
          (IZR (nb * q + r) / IZR nb).
Proof.
  intros Hnb Hr.
  assert (N : (0 < IZR nb)%R) by (apply IZR_lt; lia).
  assert (D : (IZR (nb * q + r) / IZR nb - IZR q = IZR r / IZR nb)%R).
  { rewrite plus_IZR, mult_IZR. field. lra. }
  assert (Below : 2 * r < nb -> (IZR r / IZR nb < 1 / 2)%R).
  { intros H. apply IZR_lt in H. rewrite mult_IZR in H.
    apply (Rmult_lt_reg_r (IZR nb)); [exact N|].
    rewrite Rdiv_cancel by exact N. lra. }
  assert (Above : nb < 2 * r -> (1 / 2 < IZR r / IZR nb)%R).
  { intros H. apply IZR_lt in H. rewrite mult_IZR in H.
    apply (Rmult_lt_reg_r (IZR nb)); [exact N|].
    rewrite Rdiv_cancel by exact N. lra. }
  assert (Middle : 2 * r = nb -> (IZR r / IZR nb = 1 / 2)%R).
  { intros H. rewrite <- H, mult_IZR. field.
    assert (0 < IZR r)%R by (apply IZR_lt; lia). lra. }
  assert (Pos : r <> 0 -> (0 < IZR r / IZR nb < 1)%R).
  { intros H.
    assert (0 < IZR r)%R by (apply IZR_lt; lia).
    assert (IZR r < IZR nb)%R by (apply IZR_lt; lia).
    split.
    - apply Rdiv_lt_0_compat; assumption.
    - apply (Rmult_lt_reg_r (IZR nb)); [exact N|].
      rewrite Rdiv_cancel by exact N. lra. }
  unfold new_location, new_location_even, new_location_odd.
  destruct (Z.even nb) eqn:Ev; destruct (Z.eqb_spec r 0) as [R0|R0].
  - unfold located. cbn. rewrite D, R0. lra.
  - specialize (Pos R0).
    destruct (Z.compare_spec (2 * r) nb) as [C|C|C]; unfold located; cbn;
      rewrite D; [rewrite (Middle C); lra|specialize (Below C); lra
                 |specialize (Above C); lra].
  - unfold located. cbn. rewrite D, R0. lra.
  - specialize (Pos R0).
    assert (Odd : exists k, nb = 2 * k + 1).
    { rewrite <- Z.negb_odd in Ev. apply negb_false_iff in Ev.
      now apply Z.odd_spec in Ev. }
    destruct Odd as [k Hk].
    destruct (Z.compare_spec (2 * r + 1) nb) as [C|C|C]; unfold located; cbn;
      rewrite D;
      [specialize (Below ltac:(lia)); lra|specialize (Below ltac:(lia)); lra
      |specialize (Above ltac:(lia)); lra].
Qed.

(** The quotient of two positive normal numbers whose exponents are not
    far apart is a normal number within one rounding error of the exact
    quotient. *)
Lemma div_rounds (mx my : positive) (ex ey : Z) :
  8388608 <= Z.pos mx < 16777216 ->
  8388608 <= Z.pos my < 16777216 ->
  -64 <= ex - ey <= 64 ->
  exists m e,
    F32.div (S754_finite false mx ex) (S754_finite false my ey)
    = S754_finite false m e
    /\ rounds_to (IZR (Z.pos m) * powerRZ 2 e)
                 (IZR (Z.pos mx) * powerRZ 2 ex
                  / (IZR (Z.pos my) * powerRZ 2 ey)).
Proof.
  intros Hx Hy He.
  unfold F32.div, F32.prec, F32.emax, SFdiv, SFdiv_core_binary.
  cbn [Zdigits2 xorb].
  rewrite (digits2_unique mx 24), (digits2_unique my 24) by (cbn; lia).
  replace (Z.min (fexp 24 128 (24 + ex - (24 + ey))) (ex - ey))
    with (ex - ey - 24) by (unfold fexp, emin; lia).
  replace (ex - ey - (ex - ey - 24)) with 24 by lia.
  rewrite Z.shiftl_mul_pow2 by lia.
  pose proof (Z_div_mod (Z.pos mx * 2 ^ 24) (Z.pos my) ltac:(lia)) as DM.
  destruct (Z.div_eucl (Z.pos mx * 2 ^ 24) (Z.pos my)) as [q r].
  destruct DM as [DM Hr].
  change (2 ^ 24) with 16777216 in DM.
  assert (Hq : 8388608 <= q < 33554432) by nia.
  assert (Dq : 24 <= Zdigits2 q <= 25).
  { destruct q as [|pq|pq]; try lia. cbn [Zdigits2].
    destruct (Z.lt_ge_cases (Z.pos pq) 16777216).
    - rewrite (digits2_unique pq 24) by (cbn; lia). lia.
    - rewrite (digits2_unique pq 25) by (cbn; lia). lia. }
  destruct (binary_round_aux_normal false q (ex - ey - 24)
              (new_location (Z.pos my) r)
              (IZR (Z.pos my * q + r) / IZR (Z.pos my)))
    as (m & e & E & _ & _ & Rm);
    [lia|apply new_location_located; lia|lia|lia|].
  exists m, e. split; [exact E|].
  replace (IZR (Z.pos mx) * powerRZ 2 ex / (IZR (Z.pos my) * powerRZ 2 ey))%R
    with (IZR (Z.pos my * q + r) / IZR (Z.pos my)
          * powerRZ 2 (ex - ey - 24))%R; [exact Rm|].
  rewrite <- DM, mult_IZR.
  replace (ex - ey - 24) with (ex + (- ey + - (24))) by lia.
  rewrite !powerRZ_add, !powerRZ_neg' by lra.
  assert (0 < powerRZ 2 ey)%R by (apply powerRZ_lt; lra).
  assert (0 < IZR (Z.pos my))%R by (apply IZR_lt; lia).
  rewrite <- (Zpower_pos_powerRZ 2 24).
  change (Z.pow_pos 2 24) with 16777216.
  field. lra.
Qed.

(** ** The distribution of a leaf *)

(** A float that can be a probability: [+0.0] or a positive finite
    number. *)
Definition is_share (p : float) : bool :=
  match p with
  | S754_zero false | S754_finite false _ _ => true
  | _ => false
  end.

(** A quotient of two rounded numbers, rounded: three rounding errors,
    less than four times one. *)
Lemma quotient_rounds (a b h N v : R) :
  (0 <= h)%R -> (0 < N)%R ->
  rounds_to a h -> rounds_to b N -> rounds_to v (a / b) ->
  (h / N * (1 - 4 * unit_roundoff) <= v
   <= h / N * (1 + 4 * unit_roundoff))%R.
Proof.
  unfold rounds_to, unit_roundoff.
  intros Hh HN [A1 A2] [B1 B2] [V1 V2].
  set (t := (h / N)%R) in *.
  assert (Ht : h = (t * N)%R) by (unfold t; field; lra).
  assert (T0 : (0 <= t)%R).
  { unfold t. apply Rmult_le_pos; [exact Hh|]. left.
    now apply Rinv_0_lt_compat. }
  assert (Hb : (0 < b)%R) by lra.
  assert (Ha : (0 <= a)%R) by lra.
  set (c := (a / b)%R) in *.
  assert (Hc : a = (c * b)%R) by (unfold c; field; lra).
  assert (C0 : (0 <= c)%R).
  { unfold c. apply Rmult_le_pos; [exact Ha|]. left.
    now apply Rinv_0_lt_compat. }
  assert (P1 : (c * (N * (1 - / 16777216)) <= c * b)%R)
    by (apply Rmult_le_compat_l; assumption).
  assert (P2 : (c * b <= c * (N * (1 + / 16777216)))%R)
    by (apply Rmult_le_compat_l; assumption).
  assert (U : (c * (1 - / 16777216) <= t * (1 + / 16777216))%R).
  { apply (Rmult_le_reg_r N); [exact HN|]. nra. }
  assert (L : (t * (1 - / 16777216) <= c * (1 + / 16777216))%R).
  { apply (Rmult_le_reg_r N); [exact HN|]. nra. }
  split; lra.
Qed.

(** One entry of a normalised histogram. *)
Lemma share_rounds (h N : Z) :
  0 <= h < 2 ^ 32 -> 0 < N < 2 ^ 32 ->
  is_share (F32.div (F32.of_Z h) (F32.of_Z N)) = true
  /\ (IZR h / IZR N * (1 - 4 * unit_roundoff)
      <= value (F32.div (F32.of_Z h) (F32.of_Z N))
      <= IZR h / IZR N * (1 + 4 * unit_roundoff))%R.
Proof.
  intros Hh HN.
  destruct (of_Z_rounds N HN) as (mN & eN & EN & BN & XN & RN).
  rewrite EN.
  destruct (Z.eq_dec h 0) as [->|Hne].
  - cbn. split; [reflexivity|]. lra.
  - destruct (of_Z_rounds h ltac:(lia)) as (mh & eh & Eh & Bh & Xh & Rh).
    rewrite Eh.
    destruct (div_rounds mh mN eh eN Bh BN ltac:(lia)) as (m & e & E & Rq).
    rewrite E. split; [reflexivity|].
    cbn [value cond_Zopp].
    refine (quotient_rounds _ _ _ _ _ _ _ Rh RN Rq);
      [apply IZR_le; lia|apply IZR_lt; lia].
Qed.

(** All the entries: each is a share, and together they are within four
    rounding errors of the exact sum of the ratios. *)
Lemma shares_sum (N : Z) (hs : list Z) :
  0 < N < 2 ^ 32 ->
  (forall h, In h hs -> 0 <= h < 2 ^ 32) ->
  let d := map (fun h => F32.div (F32.of_Z h) (F32.of_Z N)) hs in
  Forall (fun p => is_share p = true) d
  /\ (IZR (total hs) / IZR N * (1 - 4 * unit_roundoff)
      <= Rsum (map value d)
      <= IZR (total hs) / IZR N * (1 + 4 * unit_roundoff))%R.
Proof.
  intros HN. induction hs as [|h hs IH]; intros Hhs; cbn [map].
  - split; [constructor|]. unfold total, Rsum. cbn. lra.
  - destruct (IH ltac:(intros x Hx; apply Hhs; now right)) as [F S].
    destruct (share_rounds h N (Hhs h (or_introl eq_refl)) HN) as [Sh Rh].
    split; [now constructor|].
    unfold Rsum in *. cbn [fold_right]. unfold total in *. cbn [fold_right].
    rewrite plus_IZR.
    assert (0 < IZR N)%R by (apply IZR_lt; lia).
    replace ((IZR h + IZR (fold_right Z.add 0%Z hs)) / IZR N)%R
      with (IZR h / IZR N + IZR (fold_right Z.add 0%Z hs) / IZR N)%R
      by (field; lra).
    lra.
Qed.

(** What [normalize_histogram] leaves in [normalized], in binary32, for a
    histogram whose total fits an [int32_t]. *)
Lemma normalize_histogram_binary32 (histogram : list Z) (n_labels : Z) :
  0 <= n_labels ->
  length histogram = Z.to_nat n_labels ->
  (forall x, In x histogram -> 0 <= x) ->
  total histogram < 2 ^ 31 ->
  snd (normalize_histogram (F := float) histogram n_labels)
  = if 0 <? total histogram
    then map (fun h => F32.div (F32.of_Z h) (F32.of_Z (total histogram)))
             histogram
    else repeat F32.zero (Z.to_nat n_labels).
Proof.
  intros Hn Hlen Hpos Ht.
  assert (T0 : 0 <= total histogram).
  { clear -Hpos. unfold total.
    induction histogram as [|h l IH]; cbn; [lia|].
    assert (0 <= h) by (apply Hpos; now left).
    assert (0 <= fold_right Z.add 0 l)
      by (apply IH; intros y Hy; apply Hpos; now right).
    lia. }
  unfold normalize_histogram. cbv zeta. cbn [fst snd].
  rewrite histogram_sums_spec
    by (rewrite (whole_slice n_labels histogram Hlen Hn); exact Hpos).
  cbn [fst snd]. unfold segment.
  rewrite (whole_slice n_labels histogram Hlen Hn).
  rewrite to_int32_small by lia.
  reflexivity.
Qed.

(** A normalised histogram is a distribution: as long as the total fits
    an [int32_t], its entries are shares and add up to 1 within four
    rounding errors, well within [1e-5]; it is all [+0.0] when the
    histogram is empty. *)
Lemma normalize_histogram_distribution (histogram : list Z)
    (n_labels : Z) :
  0 <= n_labels ->
  length histogram = Z.to_nat n_labels ->
  (forall x, In x histogram -> 0 <= x) ->
  total histogram < 2 ^ 31 ->
  let d := snd (normalize_histogram (F := float) histogram n_labels) in
  length d = Z.to_nat n_labels
  /\ (total histogram = 0 -> d = repeat F32.zero (Z.to_nat n_labels))
  /\ (0 < total histogram ->
      Forall (fun p => is_share p = true) d
      /\ (Rabs (Rsum (map value d) - 1) <= 1 / 100000)%R).
Proof.
  intros Hn Hlen Hpos Ht d. unfold d.
  rewrite normalize_histogram_binary32 by assumption.
  split; [|split].
  - destruct (0 <? total histogram);
      [now rewrite length_map|now rewrite repeat_length].
  - intros ->. reflexivity.
  - intros T. destruct (Z.ltb_spec 0 (total histogram)); [|lia].
    destruct (shares_sum (total histogram) histogram ltac:(lia)) as [F S].
    { intros h Hh. pose proof (total_ge_member histogram h Hpos Hh). lia. }
    split; [exact F|]. cbv zeta in S.
    assert (0 < IZR (total histogram))%R by (apply IZR_lt; lia).
    replace (IZR (total histogram) / IZR (total histogram))%R with 1%R in S
      by (field; lra).
    unfold unit_roundoff in S. apply Rabs_le. lra.
Qed.

(** C5 does not hold from [2^31] pixels on. [normalize_histogram] adds
    the [uint32_t] counters up in an [int32_t]: for a node of [2^31]
    pixels, half of them of each of two labels, the total reads
    [INT32_MIN], the test [sums[0] > 0] fails and the distribution is
    cleared, although the node holds pixels. *)
Theorem leaf_distribution_wraps :
  total [1073741824; 1073741824] = 2 ^ 31
  /\ histogram_sums [1073741824; 1073741824] 2 = (INT32_MIN, 2)
  /\ snd (normalize_histogram (F := float) [1073741824; 1073741824] 2)
     = [F32.zero; F32.zero].
Proof. repeat split. Qed.

Lemma label_histogram_length (ctx : TrainContext) (data : NodeTrainData) :
  length (label_histogram ctx data) = Z.to_nat (ctx_n_labels ctx).
Proof. unfold label_histogram. now rewrite length_map, length_seq. Qed.

Lemma label_histogram_nonneg (ctx : TrainContext) (data : NodeTrainData)
    (x : Z) :
  In x (label_histogram ctx data) -> 0 <= x.
Proof.
  unfold label_histogram. rewrite in_map_iff. intros (l & <- & _).
  unfold count. lia.
Qed.

(** Below [2^31] pixels the leaves are as they should be. When the
    coordinator makes a leaf of a node with fewer than [2^31] pixels, the
    distribution it appends to the list of leaf histograms has [n_labels]
    entries; with no pixel, all of them are [+0.0]; otherwise each is
    [+0.0] or a positive finite number, and the exact sum of these
    binary32 numbers is within [1e-5] of 1. The worker that fills the
    shared buffer has seen no interrupt: the coordinator stops before it
    appends anything once the interrupt flag is set. *)
Theorem leaf_distribution_valid (log2f : float -> float)
    (ctx : TrainContext) (data : NodeTrainData) (n_threads : Z)
    (sig : nat -> Signals) :
  valid_run ctx data n_threads ->
  (forall p, in_accumulate (sig 0%nat) p = false) ->
  nd_n_pixels data < 2 ^ 31 ->
  forall interrupted pub st rest st' pub',
    train_queue st = data :: rest ->
    train_iteration log2f ctx n_threads sig interrupted pub st
    = Ok (Some (st', pub')) ->
    tree_histograms st' = tree_histograms st
    \/ exists d,
         tree_histograms st' = tree_histograms st ++ [d]
         /\ length d = Z.to_nat (ctx_n_labels ctx)
         /\ (nd_n_pixels data = 0 ->
             d = repeat F32.zero (Z.to_nat (ctx_n_labels ctx)))
         /\ (0 < nd_n_pixels data ->
             Forall (fun p => is_share p = true) d
             /\ (Rabs (Rsum (map value d) - 1) <= 1 / 100000)%R).
Proof.
  intros Hv Hq Hsmall interrupted pub st rest st' pub' Hqueue.
  unfold train_iteration. rewrite Hqueue.
  destruct (run_threads log2f ctx data n_threads sig pub) as [pub1| |] eqn:R;
    cbn [bind]; try discriminate.
  apply run_threads_root in R; [|apply (vr_threads _ _ _ Hv)].
  destruct R as (best & nh & Body & Root).
  pose proof (stripe_well_sized ctx data n_threads 0 Hv
                (conj (Z.le_refl 0) (vr_threads _ _ _ Hv))) as Hws.
  pose proof (thread_body_root_nhistogram log2f ctx data _ _ _ _ _ _ Hws
                (vr_pixels _ _ _ Hv) Hq Body) as Enh.
  pose proof (label_histogram_total log2f ctx data _ _ _ _ _ _ Hws
                (vr_pixels _ _ _ Hv) Hq Body) as Etotal.
  unfold train_node. rewrite Hqueue.
  destruct interrupted; [discriminate|].
  destruct (best_of_threads n_threads pub1) as [[[g u] t] w].
  destruct (F32.ltb F32.zero g && _).
  - destruct w as [w|]; [|discriminate].
    destruct (collect_pixels _ _ _ _ _) as [[[l r] counts]| |]; cbn [bind];
      try discriminate.
    intros [= <- _]. now left.
  - intros [= <- _]. right. cbn [tree_histograms].
    exists (root_nhistogram pub1). split; [reflexivity|].
    rewrite Root, Enh. rewrite <- Etotal.
    apply normalize_histogram_distribution.
    + apply (vr_labels _ _ _ Hv).
    + apply label_histogram_length.
    + apply label_histogram_nonneg.
    + rewrite Etotal. exact Hsmall.
Qed.

(** The node of the small problem that lies at the last depth becomes a
    leaf with the distribution (1/2, 1/2). *)
Example demo_leaf :
  exists st' pub',
    train_iteration log2_of_power demo_ctx 2 (fun _ => quiet) false
      demo_published
      (mkTrainer (repeat (set_leaf default_node UINT32_MAX) 3) [demo_last]
                 0 [])
    = Ok (Some (st', pub'))
    /\ tree_histograms st' = [[pow2 (-1); pow2 (-1)]]
    /\ node_label_pr_idx (tree_node (tree st') 1) = 1.
Proof. eexists. eexists. split; [vm_compute; reflexivity|]. split; reflexivity. Qed.

(** The theorem at that node. *)
Lemma leaf_distribution_valid_witness :
  exists st' pub',
    train_iteration log2_of_power demo_ctx 2 (fun _ => quiet) false
      demo_published
      (mkTrainer (repeat (set_leaf default_node UINT32_MAX) 3) [demo_last]
                 0 [])
    = Ok (Some (st', pub'))
    /\ (tree_histograms st' = []
        \/ exists d,
             tree_histograms st' = [] ++ [d]
             /\ length d = 2%nat
             /\ (4 = 0 -> d = repeat F32.zero 2)
             /\ (0 < 4 ->
                 Forall (fun p => is_share p = true) d
                 /\ (Rabs (Rsum (map value d) - 1) <= 1 / 100000)%R)).
Proof.
  eexists. eexists. split; [vm_compute; reflexivity|].
  eapply (leaf_distribution_valid log2_of_power demo_ctx demo_last 2
            (fun _ => quiet)
            ltac:(constructor; cbn; try lia; repeat constructor; lia)
            (fun _ => eq_refl) ltac:(cbn; lia)
            false demo_published
            (mkTrainer (repeat (set_leaf default_node UINT32_MAX) 3)
                       [demo_last] 0 [])
            []).
  - reflexivity.
  - vm_compute. reflexivity.
Defined.

(** ** The threshold table, from two thresholds on *)

(** The first threshold in binary32: the product [0 * t_range] and its
    quotient are zeros, and adding a zero changes nothing. *)
Lemma threshold_first (t_range : float) (n_t : Z) (s : bool) (m : positive)
    (e : Z) :
  2 <= n_t < 2 ^ 32 ->
  F32.div (F32.neg t_range) (F32.of_Z 2) = S754_finite s m e ->
  threshold t_range n_t 0 = S754_finite s m e.
Proof.
  intros Hn Hfirst. unfold threshold. cbn [fadd fdiv fmul fneg of_int binary32].
  rewrite Hfirst. rewrite to_uint32_small by lia.
  destruct (of_Z_rounds (n_t - 1) ltac:(lia)) as (mn & en & En & _).
  rewrite En.
  destruct t_range as [st|st| |st mt et]; try discriminate Hfirst.
  reflexivity.
Qed.

(** C9, as amended. From two thresholds on (and fewer than [2^32]) the
    table has [n_t] entries. Computed in exact arithmetic they are the
    points [-t_range/2 + i * t_range / (n_t - 1)], the first [-t_range/2]
    and the last [+t_range/2]. In binary32 entry [i] is that expression
    with each of its five operations rounded; the first is exactly the
    rounded [-t_range/2] whenever that is a finite number other than
    zero. *)
Theorem thresholds_spec (n_t : Z) :
  2 <= n_t < 2 ^ 32 ->
  (forall t_range : R,
     length (thresholds t_range n_t) = Z.to_nat n_t
     /\ (forall i : nat,
           (i < Z.to_nat n_t)%nat ->
           nth i (thresholds t_range n_t) 0%R
           = (- t_range / 2 + IZR (Z.of_nat i) * t_range / IZR (n_t - 1))%R)
     /\ nth 0 (thresholds t_range n_t) 0%R = (- t_range / 2)%R
     /\ nth (Z.to_nat (n_t - 1)) (thresholds t_range n_t) 0%R
        = (t_range / 2)%R)
  /\ (forall t_range : float,
        length (thresholds t_range n_t) = Z.to_nat n_t
        /\ (forall i : nat,
              (i < Z.to_nat n_t)%nat ->
              nth i (thresholds t_range n_t) F32.zero
              = F32.add (F32.div (F32.neg t_range) (F32.of_Z 2))
                        (F32.div (F32.mul (F32.of_Z (Z.of_nat i)) t_range)
                                 (F32.of_Z (n_t - 1))))
        /\ (forall s m e,
              F32.div (F32.neg t_range) (F32.of_Z 2) = S754_finite s m e ->
              nth 0 (thresholds t_range n_t) F32.zero = S754_finite s m e)).
Proof.
  intros Hn.
  assert (Hd : (0 < IZR (n_t - 1))%R) by (apply IZR_lt; lia).
  split.
  - intros t_range.
    assert (E : forall i : nat,
              (i < Z.to_nat n_t)%nat ->
              nth i (thresholds t_range n_t) 0%R
              = (- t_range / 2
                 + IZR (Z.of_nat i) * t_range / IZR (n_t - 1))%R).
    { intros i Hi. rewrite thresholds_nth by exact Hi.
      now apply threshold_exact. }
    split; [apply thresholds_length|]. split; [exact E|]. split.
    + rewrite E by lia. cbn [Z.of_nat]. field. lra.
    + rewrite E by lia. rewrite Z2Nat.id by lia. field. lra.
  - intros t_range.
    split; [apply thresholds_length|]. split.
    + intros i Hi. rewrite thresholds_nth by exact Hi.
      unfold threshold. cbn [fadd fdiv fmul fneg of_int binary32].
      now rewrite to_uint32_small by lia.
    + intros s m e Hfirst. rewrite thresholds_nth by lia.
      now apply threshold_first.
Qed.

(** The theorem at fourteen thresholds over the range 3. *)
Lemma thresholds_spec_witness :
  nth 0 (thresholds 3%R 14) 0%R = (- 3 / 2)%R
  /\ nth 13 (thresholds 3%R 14) 0%R = (3 / 2)%R.
Proof.
  destruct (proj1 (thresholds_spec 14 ltac:(lia)) 3%R) as (_ & _ & A & B).
  split; [exact A|exact B].
Defined.

(** * Part III: more of the program *)

(** ** The stripes of the workers *)

Lemma list_prod_app {A B : Type} (l1 l2 : list A) (l : list B) :
  list_prod (l1 ++ l2) l = list_prod l1 l ++ list_prod l2 l.
Proof.
  induction l1 as [|a l1 IH]; cbn; [reflexivity|].
  now rewrite IH, app_assoc.
Qed.

Lemma seq_from (m len : nat) :
  seq m len = map (fun k => (m + k)%nat) (seq 0 len).
Proof.
  induction len as [|len IH]; [reflexivity|].
  now rewrite !seq_S, map_app, IH.
Qed.

(** Two adjacent stripes visit the candidates of their union, in order. *)
Lemma candidates_app (ctx : TrainContext) (a b c : Z) :
  a <= b <= c ->
  candidates ctx a b ++ candidates ctx b c = candidates ctx a c.
Proof.
  intros H. unfold candidates. rewrite <- list_prod_app. f_equal.
  replace (Z.to_nat (c - a))
    with (Z.to_nat (b - a) + Z.to_nat (c - b))%nat by lia.
  rewrite seq_app, map_app. f_equal.
  cbn [Nat.add]. rewrite (seq_from (Z.to_nat (b - a))).
  rewrite map_map. apply map_ext. intros k. lia.
Qed.

Lemma candidates_empty (ctx : TrainContext) (a : Z) : candidates ctx a a = [].
Proof. unfold candidates. now rewrite Z.sub_diag. Qed.

(** The candidates of the first [m] workers, none of them the last. *)
Lemma stripes_prefix (ctx : TrainContext) (n_threads : Z) (m : nat) :
  0 <= ctx_n_uv ctx < 2 ^ 32 ->
  Z.of_nat m < n_threads ->
  concat (map (fun i => candidates ctx
                          (fst (stripe ctx n_threads (Z.of_nat i)))
                          (snd (stripe ctx n_threads (Z.of_nat i))))
              (seq 0 m))
  = candidates ctx 0 (Z.of_nat m * (ctx_n_uv ctx / n_threads)).
Proof.
  intros Huv. set (n_c := ctx_n_uv ctx / n_threads).
  induction m as [|m IH]; intros Hm.
  - cbn [seq map concat]. change (Z.of_nat 0) with 0.
    now rewrite Z.mul_0_l, candidates_empty.
  - assert (Hc : 0 <= n_c) by (apply Z.div_pos; lia).
    assert (Hmul : n_threads * n_c <= ctx_n_uv ctx)
      by (apply Z.mul_div_le; lia).
    rewrite seq_S, map_app, concat_app, IH by lia.
    cbn [map concat Nat.add]. rewrite app_nil_r.
    unfold stripe. fold n_c. cbn [fst snd].
    destruct (Z.eqb_spec (Z.of_nat m) (n_threads - 1)); [lia|].
    rewrite !to_uint32_small by nia.
    replace ((Z.of_nat m + 1) * n_c) with (Z.of_nat (S m) * n_c) by lia.
    apply candidates_app. nia.
Qed.

(** The stripes [main] hands out tile the table of uv combinations: the
    first starts at 0, each of the others starts where the one before
    ends, the last ends at [n_uv], all but the last hold [n_uv / n_threads]
    combinations, and the candidates of all workers together are the
    pairs of a uv combination and a threshold, each exactly once, in the
    order one worker would visit them. *)
Theorem stripes_tile (ctx : TrainContext) (n_threads : Z) :
  0 < n_threads ->
  0 <= ctx_n_uv ctx < 2 ^ 32 ->
  let c_start := fun i => fst (stripe ctx n_threads i) in
  let c_end := fun i => snd (stripe ctx n_threads i) in
  c_start 0 = 0
  /\ c_end (n_threads - 1) = ctx_n_uv ctx
  /\ (forall i, 0 <= i < n_threads - 1 ->
        c_end i = c_start (i + 1)
        /\ c_end i - c_start i = ctx_n_uv ctx / n_threads)
  /\ (forall i, 0 <= i < n_threads -> 0 <= c_start i <= c_end i)
  /\ concat (map (fun i => candidates ctx (c_start (Z.of_nat i))
                                      (c_end (Z.of_nat i)))
                 (seq 0 (Z.to_nat n_threads)))
     = candidates ctx 0 (ctx_n_uv ctx).
Proof.
  intros Ht Huv c_start c_end. unfold c_start, c_end, stripe. cbn [fst snd].
  set (n_c := ctx_n_uv ctx / n_threads).
  assert (Hc : 0 <= n_c) by (apply Z.div_pos; lia).
  assert (Hmul : n_threads * n_c <= ctx_n_uv ctx)
    by (apply Z.mul_div_le; lia).
  split; [reflexivity|]. split; [now rewrite Z.eqb_refl|].
  split; [|split].
  - intros i Hi. destruct (Z.eqb_spec i (n_threads - 1)); [lia|].
    rewrite !to_uint32_small by nia. lia.
  - intros i Hi. rewrite to_uint32_small by nia.
    destruct (Z.eqb_spec i (n_threads - 1)); [nia|].
    rewrite to_uint32_small by nia. nia.
  - replace (Z.to_nat n_threads) with (S (Z.to_nat (n_threads - 1))) by lia.
    rewrite seq_S, map_app, concat_app.
    pose proof (stripes_prefix ctx n_threads (Z.to_nat (n_threads - 1)) Huv
                  ltac:(lia)) as P.
    unfold stripe in P. cbn [fst snd] in P. fold n_c in P. rewrite P.
    cbn [map concat Nat.add]. rewrite app_nil_r.
    rewrite Z2Nat.id by lia. rewrite Z.eqb_refl.
    rewrite to_uint32_small by nia.
    apply candidates_app. nia.
Qed.

(** The theorem for the three workers of a table of two combinations:
    the first two stripes are empty and the last holds both. *)
Lemma stripes_tile_witness :
  (fst (stripe demo_ctx 3 0), snd (stripe demo_ctx 3 0)) = (0, 0)
  /\ concat (map (fun i => candidates demo_ctx
                             (fst (stripe demo_ctx 3 (Z.of_nat i)))
                             (snd (stripe demo_ctx 3 (Z.of_nat i))))
                 (seq 0 3))
     = candidates demo_ctx 0 2.
Proof.
  split; [reflexivity|].
  exact (proj2 (proj2 (proj2 (proj2
           (stripes_tile demo_ctx 3 ltac:(lia) ltac:(cbn; lia)))))).
Defined.

(** ** utils.h: the time shown in the progress lines *)

(** A [struct timespec] of a 64-bit Linux: [time_t] and [long] are
    64-bit integers. *)
Record timespec := mkTimespec { tv_sec : Z; tv_nsec : Z }.

Record TimeForDisplay := mkDisplay {
  hours : Z;
  minutes : Z;
  seconds : Z
}.

(** [elapsed] is a [uint32_t]; the three fields are [int32_t]. The
    division of the nanoseconds is a division of [long]s, which cuts
    toward zero. *)
Definition get_time_for_display (begin end_ : timespec) : TimeForDisplay :=
  let elapsed := to_uint32 (tv_sec end_ - tv_sec begin) in
  let elapsed :=
    to_uint32 (elapsed + (tv_nsec end_ - tv_nsec begin) ÷ 1000000000) in
  let seconds := to_int32 (elapsed mod 60) in
  let minutes := to_int32 (elapsed / 60) in
  let hours := to_int32 (minutes ÷ 60) in
  let minutes := to_int32 (Z.rem minutes 60) in
  mkDisplay hours minutes seconds.

Lemma quot_below (d c : Z) : - c < d < c -> d ÷ c = 0.
Proof.
  intros H. destruct (Z.le_gt_cases 0 d).
  - apply Z.quot_small. lia.
  - rewrite <- (Z.opp_involutive d), Z.quot_opp_l by lia.
    rewrite Z.quot_small by lia. reflexivity.
Qed.

(** Between two times of the clock, the second not before the first and
    less than [2^32] seconds after it, the display is the difference of
    the two [tv_sec] split into hours, minutes below 60 and seconds below
    60. The nanoseconds never count: their difference is less than a
    second either way and the division cuts it to 0, so nothing is
    borrowed when the clock has passed a second boundary. *)
Theorem get_time_for_display_splits (begin end_ : timespec) :
  0 <= tv_nsec begin < 1000000000 ->
  0 <= tv_nsec end_ < 1000000000 ->
  0 <= tv_sec end_ - tv_sec begin < 2 ^ 32 ->
  let d := get_time_for_display begin end_ in
  hours d * 3600 + minutes d * 60 + seconds d = tv_sec end_ - tv_sec begin
  /\ 0 <= seconds d < 60
  /\ 0 <= minutes d < 60
  /\ 0 <= hours d.
Proof.
  intros Hb He Hs. unfold get_time_for_display. cbv zeta.
  cbn [hours minutes seconds].
  rewrite (quot_below (tv_nsec end_ - tv_nsec begin)) by lia.
  rewrite Z.add_0_r.
  rewrite (to_uint32_small (tv_sec end_ - tv_sec begin)) by lia.
  rewrite (to_uint32_small (tv_sec end_ - tv_sec begin)) by lia.
  set (s := tv_sec end_ - tv_sec begin) in *.
  pose proof (Z.mod_pos_bound s 60 ltac:(lia)) as M.
  pose proof (Z.div_mod s 60 ltac:(lia)) as D.
  assert (Q : 0 <= s / 60 < 2 ^ 31).
  { split; [apply Z.div_pos; lia|].
    apply Z.div_lt_upper_bound; lia. }
  rewrite (to_int32_small (s mod 60)) by lia.
  rewrite (to_int32_small (s / 60)) by lia.
  rewrite Z.quot_div_nonneg, Z.rem_mod_nonneg by lia.
  pose proof (Z.mod_pos_bound (s / 60) 60 ltac:(lia)) as M2.
  pose proof (Z.div_mod (s / 60) 60 ltac:(lia)) as D2.
  assert (Q2 : 0 <= s / 60 / 60 < 2 ^ 31).
  { split; [apply Z.div_pos; lia|].
    apply Z.div_lt_upper_bound; lia. }
  rewrite !to_int32_small by lia.
  lia.
Qed.

(** The theorem one hour, one minute and one second after a start, the
    clock read at a smaller count of nanoseconds than at the start. *)
Example get_time_for_display_example :
  get_time_for_display (mkTimespec 100 999999999) (mkTimespec 3761 5)
  = mkDisplay 1 1 1.
Proof. reflexivity. Qed.

Lemma get_time_for_display_splits_witness :
  let d :=
    get_time_for_display (mkTimespec 100 999999999) (mkTimespec 3761 5) in
  hours d * 3600 + minutes d * 60 + seconds d = 3761 - 100
  /\ 0 <= seconds d < 60
  /\ 0 <= minutes d < 60
  /\ 0 <= hours d.
Proof.
  exact (get_time_for_display_splits
           (mkTimespec 100 999999999) (mkTimespec 3761 5)
           ltac:(cbn; lia) ltac:(cbn; lia) ltac:(cbn; lia)).
Defined.

(** ** The label check of the histogram engine *)

(** The test [label >= ctx->n_labels] of [accumulate_histograms],
    negated. *)
Definition label_fits (ctx : TrainContext) (px : Int3D) : bool :=
  pixel_label ctx px <? ctx_n_labels ctx.

Lemma accumulate_pixel_fits ctx data c_start c_end px hs :
  label_fits ctx px = true ->
  exists hs', accumulate_pixel ctx data c_start c_end px hs = Ok hs'.
Proof.
  unfold label_fits, accumulate_pixel. intros H. apply Z.ltb_lt in H.
  destruct (Z.leb_spec (ctx_n_labels ctx) (pixel_label ctx px)); [lia|].
  destruct (to_uint32 (ctx_max_depth ctx - 1) <=? nd_depth data); eauto.
Qed.

Lemma accumulate_pixel_too_big ctx data c_start c_end px hs :
  label_fits ctx px = false ->
  accumulate_pixel ctx data c_start c_end px hs
  = Exit 1 (LabelTooBig (pixel_label ctx px)
                        (to_uint32 (ctx_n_labels ctx - 1))).
Proof.
  unfold label_fits, accumulate_pixel. intros H. apply Z.ltb_ge in H.
  destruct (Z.leb_spec (ctx_n_labels ctx) (pixel_label ctx px)); [|lia].
  reflexivity.
Qed.

Lemma accumulate_loop_fits ctx data c_start c_end interrupted :
  forall pixels p hs,
    forallb (label_fits ctx) (processed interrupted p pixels) = true ->
    exists hs',
      accumulate_loop ctx data c_start c_end interrupted p pixels hs = Ok hs'.
Proof.
  induction pixels as [|px rest IH]; intros p hs; cbn [accumulate_loop processed].
  - eauto.
  - destruct (interrupted p); [eauto|].
    cbn [forallb]. intros H. apply andb_true_iff in H. destruct H as [H1 H2].
    destruct (accumulate_pixel_fits ctx data c_start c_end px hs H1)
      as [hs1 ->].
    cbn [bind]. now apply IH.
Qed.

Lemma accumulate_loop_too_big ctx data c_start c_end interrupted :
  forall good pixels p hs px rest,
    processed interrupted p pixels = good ++ px :: rest ->
    forallb (label_fits ctx) good = true ->
    label_fits ctx px = false ->
    accumulate_loop ctx data c_start c_end interrupted p pixels hs
    = Exit 1 (LabelTooBig (pixel_label ctx px)
                          (to_uint32 (ctx_n_labels ctx - 1))).
Proof.
  induction good as [|g good IH]; intros pixels p hs px rest Hp Hg Hbad;
    destruct pixels as [|px0 pixels]; cbn [processed] in Hp;
    try discriminate;
    destruct (interrupted p) eqn:Ei; try discriminate;
    cbn [app] in Hp; injection Hp as -> Hp;
    cbn [accumulate_loop]; rewrite Ei.
  - now rewrite accumulate_pixel_too_big.
  - cbn [forallb] in Hg. apply andb_true_iff in Hg. destruct Hg as [H1 H2].
    destruct (accumulate_pixel_fits ctx data c_start c_end g hs H1)
      as [hs1 ->].
    cbn [bind]. now apply (IH pixels (S p) hs1 px rest).
Qed.

(** [accumulate_histograms] goes through the pixels of the node until
    the interrupt flag is set. When the labels of all the pixels it
    reaches are below [n_labels] it returns; otherwise it leaves the
    program with status 1 at the first pixel whose label is not, naming
    that label and the largest one expected; one of the two always
    happens. *)
Theorem accumulate_histograms_checks_labels (ctx : TrainContext)
    (data : NodeTrainData) (c_start c_end : Z) (interrupted : nat -> bool)
    (root_histogram lr_histograms : list Z) :
  let reached := processed interrupted 0 (node_pixels data) in
  let result :=
    accumulate_histograms ctx data c_start c_end interrupted
                          root_histogram lr_histograms in
  (forallb (label_fits ctx) reached = true -> exists hs, result = Ok hs)
  /\ (forall good px rest,
        reached = good ++ px :: rest ->
        forallb (label_fits ctx) good = true ->
        label_fits ctx px = false ->
        result = Exit 1 (LabelTooBig (pixel_label ctx px)
                                     (to_uint32 (ctx_n_labels ctx - 1))))
  /\ (forallb (label_fits ctx) reached = false ->
      exists good px rest,
        reached = good ++ px :: rest
        /\ forallb (label_fits ctx) good = true
        /\ label_fits ctx px = false).
Proof.
  intros reached result. unfold result, accumulate_histograms.
  split; [|split].
  - apply accumulate_loop_fits.
  - intros good px rest. apply accumulate_loop_too_big.
  - intros F. induction reached as [|x l IH]; [discriminate|].
    cbn [forallb] in F. destruct (label_fits ctx x) eqn:Ex.
    + destruct (IH F) as (good & px & rest & -> & G & B).
      exists (x :: good), px, rest. cbn [forallb]. now rewrite Ex, G.
    + exists [], x, l. now repeat split.
Qed.

(** Three labels in an image that should hold two: the second pixel
    stops the program. *)
Example label_too_big :
  accumulate_histograms
    (mkContext 2 1 (F32.of_Z 1) 2 1 [0; 2]
               [S754_finite false 1024 (-10); S754_finite false 1024 (-10)]
               0 F32.zero 0 F32.zero 2 2 [] [])
    (mkNodeData 0 0 2 [mkInt3D (0, 0) 0; mkInt3D (1, 0) 0])
    0 0 (fun _ => false) [0; 0] []
  = Exit 1 (LabelTooBig 2 1).
Proof. reflexivity. Qed.

(** ** The worker publishes a best candidate *)

(** The gain the candidate loops compute for the [k]-th candidate of a
    stripe, from the root histogram and the two histograms of the
    candidate. *)
Definition candidate_gain (log2f : float -> float) (ctx : TrainContext)
    (root_histogram lr_histograms : list Z) (k : nat) : float :=
  let n := ctx_n_labels ctx in
  gain_of_split (log := log2f) n root_histogram
    (skipn (Z.to_nat (Z.of_nat k * (n * 2))) lr_histograms)
    (skipn (Z.to_nat (Z.of_nat k * (n * 2) + n)) lr_histograms).

Section Maximal.

Variable log2f : float -> float.
Variables (ctx : TrainContext) (data : NodeTrainData) (c_start c_end : Z).
Variables (ps : list Int3D) (root_histogram lr_histograms : list Z).
Hypothesis Hws : well_sized ctx c_start c_end.
Hypothesis Hps : Z.of_nat (length ps) <= 2 ^ 32 - 1.
Hypothesis Hdeep : nd_depth data < to_uint32 (ctx_max_depth ctx - 1).
Hypothesis Hcounted :
  counted ctx data c_start c_end ps (root_histogram, lr_histograms).

Let n := ctx_n_labels ctx.
Let cands := candidates ctx c_start c_end.
Let root_n_pixels := histogram_sums root_histogram n.
Let entropy :=
  calculate_shannon_entropy (log := log2f)
    (snd (normalize_histogram root_histogram n)) n.
Let gain := candidate_gain log2f ctx root_histogram lr_histograms.

(** The left total of the [k]-th candidate, as the loop reads it. *)
Let left_total (k : nat) : Z :=
  fst (histogram_sums (skipn (Z.to_nat (Z.of_nat k * (n * 2))) lr_histograms)
                      n).

Lemma evaluate_candidate_unfold (i j : Z) (k : nat) (best : ThreadBest) :
  evaluate_candidate log2f ctx root_n_pixels entropy lr_histograms i j
                     (Z.of_nat k * (n * 2)) best
  = if (left_total k =? 0) || (left_total k =? fst root_n_pixels) then best
    else if F32.ltb (best_gain best) (gain k)
         then mkBest (gain k) i j
                (to_uint32 (left_total k),
                 to_uint32
                   (fst (histogram_sums
                           (skipn (Z.to_nat (Z.of_nat k * (n * 2) + n))
                                  lr_histograms) n)))
         else best.
Proof.
  unfold evaluate_candidate, gain, candidate_gain, gain_of_split,
         left_total, entropy, root_n_pixels. fold n.
  unfold normalize_histogram. cbv beta iota zeta. cbn [fst snd].
  reflexivity.
Qed.

Lemma skipped_iff_trivial (k : nat) :
  (k < length cands)%nat ->
  (left_total k =? 0) || (left_total k =? fst root_n_pixels) = true
  <-> trivial_split ctx ps (nth k cands (0, 0)).
Proof.
  intros Hk.
  pose proof Hws as [Hn Hbytes Hc Hnt Hsize]. fold n in Hn, Hsize.
  pose proof Hcounted as (_ & _ & Br & Bl & Sr & _ & Cl).
  cbn [fst snd] in Br, Bl, Sr, Cl.
  destruct (Cl Hdeep k Hk) as [CL _]. fold cands n in CL.
  pose proof (count_range (goes_left ctx (nth k cands (0, 0))) ps) as RL.
  assert (Hbase : 0 <= Z.of_nat k * (n * 2)) by nia.
  unfold left_total.
  rewrite histogram_sums_at, CL by (try assumption; intros; apply Bl).
  cbn [fst].
  assert (R : fst root_n_pixels = to_int32 (Z.of_nat (length ps))).
  { unfold root_n_pixels. rewrite histogram_sums_spec.
    - cbn [fst]. fold n in Sr. now rewrite Sr.
    - intros x Hx. apply slice_in_nth in Hx. destruct Hx as [j ->].
      apply Br. }
  rewrite trivial_split_left, orb_true_iff, !Z.eqb_eq, R.
  split; intros [H|H].
  - left. apply to_int32_inj; try lia. exact H.
  - right. apply to_int32_inj in H; lia.
  - left. now rewrite H.
  - right. now rewrite H.
Qed.

(** No candidate seen so far that is worth a look beats the best. *)
Definition unbeaten (k : nat) (best : ThreadBest) : Prop :=
  forall j, (j < k)%nat ->
    ~ trivial_split ctx ps (nth j cands (0, 0)) ->
    F32.ltb (best_gain best) (gain j) = false.

(** The best is still the one the search started with, or it is one of
    the candidates seen so far, with its gain. *)
Definition attained (best0 best : ThreadBest) : Prop :=
  best = best0
  \/ exists j, (j < length cands)%nat
       /\ (best_uv best, best_t best) = nth j cands (0, 0)
       /\ best_gain best = gain j.

Lemma search_loop_maximal (interrupted : nat -> bool) (best0 : ThreadBest) :
  (forall k, interrupted k = false) ->
  forall (pairs : list (Z * Z)) (k : nat) (best : ThreadBest),
    pairs = skipn k cands ->
    unbeaten k best -> attained best0 best ->
    let result :=
      search_loop log2f ctx root_n_pixels entropy lr_histograms interrupted
                  k pairs (Z.of_nat k * (n * 2)) best in
    unbeaten (length cands) result /\ attained best0 result.
Proof.
  intros Hquiet. induction pairs as [|[i j] rest IH]; intros k best Hp U A.
  - cbn [search_loop].
    assert (Hk : (length cands <= k)%nat).
    { destruct (Nat.lt_ge_cases k (length cands)) as [Hlt|]; [|assumption].
      apply (f_equal (@length _)) in Hp. rewrite length_skipn in Hp.
      cbn in Hp. lia. }
    split; [|exact A].
    intros j0 Hj. apply U. lia.
  - cbn [search_loop]. rewrite Hquiet.
    assert (Hk : (k < length cands)%nat).
    { destruct (Nat.lt_ge_cases k (length cands)) as [|Hge]; [assumption|].
      rewrite skipn_all2 in Hp by assumption. discriminate. }
    assert (Hij : nth k cands (0, 0) = (i, j)).
    { rewrite <- (Nat.add_0_r k), <- nth_skipn, <- Hp. reflexivity. }
    replace (Z.of_nat k * (n * 2) + ctx_n_labels ctx * 2)
      with (Z.of_nat (S k) * (n * 2)) by (unfold n; lia).
    apply IH.
    + rewrite <- (Nat.add_1_l k), <- skipn_skipn, <- Hp. reflexivity.
    + rewrite evaluate_candidate_unfold.
      intros j0 Hj NT.
      destruct ((left_total k =? 0) || (left_total k =? fst root_n_pixels))
        eqn:Skip.
      * destruct (Nat.eq_dec j0 k) as [->|Hne]; [|apply U; [lia|exact NT]].
        apply skipped_iff_trivial in Skip; [|exact Hk]. now destruct NT.
      * destruct (F32.ltb (best_gain best) (gain k)) eqn:G;
          cbn [best_gain].
        -- destruct (Nat.eq_dec j0 k) as [->|Hne]; [apply ltb_irrefl|].
           apply (not_ltb_after (best_gain best)); [exact G|].
           apply U; [lia|exact NT].
        -- destruct (Nat.eq_dec j0 k) as [->|Hne]; [exact G|].
           apply U; [lia|exact NT].
    + rewrite evaluate_candidate_unfold.
      destruct ((left_total k =? 0) || (left_total k =? fst root_n_pixels));
        [exact A|].
      destruct (F32.ltb (best_gain best) (gain k)); [|exact A].
      right. exists k. cbn [best_uv best_t best_gain]. rewrite Hij.
      split; [exact Hk|]. split; reflexivity.
Qed.

End Maximal.

(** A worker that is not interrupted, on a node with more than one label
    above the last depth, publishes a gain that none of the candidates of
    its stripe whose split is not trivial exceeds; and what it publishes
    is gain 0 with the rest of its slot left as it was, or the uv
    combination, the threshold and the gain of one candidate of the
    stripe. *)
Theorem published_gain_is_maximal (log2f : float -> float)
    (ctx : TrainContext) (data : NodeTrainData) (c_start c_end : Z)
    (sig : Signals) (previous : ThreadBest)
    (root_histogram lr_histograms : list Z) :
  well_sized ctx c_start c_end ->
  0 <= nd_n_pixels data <= 2 ^ 32 - 1 ->
  accumulate_histograms ctx data c_start c_end (in_accumulate sig)
    (cleared_root ctx) (cleared_lr ctx c_start c_end)
  = Ok (root_histogram, lr_histograms) ->
  (forall k, in_search sig k = false) ->
  nd_depth data < to_uint32 (ctx_max_depth ctx - 1) ->
  1 < snd (histogram_sums root_histogram (ctx_n_labels ctx)) ->
  let ps := processed (in_accumulate sig) 0 (node_pixels data) in
  let cands := candidates ctx c_start c_end in
  let gain := candidate_gain log2f ctx root_histogram lr_histograms in
  exists best root_nhistogram,
    thread_body log2f ctx data c_start c_end sig previous
    = Ok (best, root_nhistogram)
    /\ (forall k, (k < length cands)%nat ->
          ~ trivial_split ctx ps (nth k cands (0, 0)) ->
          F32.ltb (best_gain best) (gain k) = false)
    /\ (best = mkBest F32.zero (best_uv previous) (best_t previous)
                      (n_lr_pixels previous)
        \/ exists k, (k < length cands)%nat
             /\ (best_uv best, best_t best) = nth k cands (0, 0)
             /\ best_gain best = gain k).
Proof.
  intros Hws Hpix Hacc Hquiet Hdeep Hlabels ps cands gain.
  assert (Hc : counted ctx data c_start c_end ps
                       (root_histogram, lr_histograms))
    by (apply accumulate_histograms_counted; assumption).
  assert (Hps : Z.of_nat (length ps) <= 2 ^ 32 - 1).
  { pose proof (processed_length (in_accumulate sig) 0 (node_pixels data)).
    unfold ps, node_pixels in *. rewrite slice_length in *. lia. }
  rewrite thread_body_unfold, Hacc. cbn [bind fst snd]. cbv zeta.
  replace ((1 <? snd (histogram_sums root_histogram (ctx_n_labels ctx)))
           && (nd_depth data <? to_uint32 (ctx_max_depth ctx - 1)))
    with true
    by (symmetry; apply andb_true_iff; split; apply Z.ltb_lt; assumption).
  eexists. eexists. split; [reflexivity|].
  apply (search_loop_maximal log2f ctx data c_start c_end ps
           root_histogram lr_histograms Hws Hps Hdeep Hc (in_search sig)
           (mkBest F32.zero (best_uv previous) (best_t previous)
                   (n_lr_pixels previous))
           Hquiet (candidates ctx c_start c_end) 0%nat).
  - reflexivity.
  - intros j Hj. lia.
  - now left.
Qed.

(** The theorem for one worker over the whole table of the small
    problem: the step feature with threshold 1.0 is published with its
    gain, 1. *)
Lemma published_gain_is_maximal_witness :
  exists best root_nhistogram,
    thread_body log2_of_power demo_ctx demo_root 0 2 quiet no_best
    = Ok (best, root_nhistogram)
    /\ (forall k, (k < length (candidates demo_ctx 0 2))%nat ->
          ~ trivial_split demo_ctx demo_pixels
              (nth k (candidates demo_ctx 0 2) (0, 0)) ->
          F32.ltb (best_gain best)
                  (candidate_gain log2_of_power demo_ctx [2; 2]
                                  [0; 0; 2; 2; 2; 2; 0; 0;
                                   0; 0; 2; 2; 0; 2; 2; 0] k)
          = false)
    /\ (best = mkBest F32.zero 0 0 (0, 0)
        \/ exists k, (k < length (candidates demo_ctx 0 2))%nat
             /\ (best_uv best, best_t best)
                = nth k (candidates demo_ctx 0 2) (0, 0)
             /\ best_gain best
                = candidate_gain log2_of_power demo_ctx [2; 2]
                                 [0; 0; 2; 2; 2; 2; 0; 0;
                                  0; 0; 2; 2; 0; 2; 2; 0] k).
Proof.
  refine (published_gain_is_maximal log2_of_power demo_ctx demo_root 0 2
            quiet no_best [2; 2] _ demo_well_sized _ _ (fun _ => eq_refl)
            _ _).
  - cbn. lia.
  - vm_compute. reflexivity.
  - vm_compute. reflexivity.
  - vm_compute. reflexivity.
Defined.

(** ** infer.cc: label inference *)

(** A computation with a loop whose number of turns is not known in
    advance: [None] when the given number of turns did not end it. *)
Definition run (A : Type) : Type := option (outcome A).

Definition run_bind {A B : Type} (x : run A) (f : A -> run B) : run B :=
  match x with
  | Some (Ok a) => f a
  | Some (Exit code m) => Some (Exit code m)
  | Some Undefined => Some Undefined
  | None => None
  end.

Definition node_at (nodes : list Node) (id : Z) : Node :=
  nth (Z.to_nat id) nodes default_node.

(** The loop [while (node->label_pr_idx == 0)] from the node [id]:
    [sample] is the feature of the pixel; the result is the index of the
    node the loop stops at. Reading a node the array does not hold is
    undefined. *)
Fixpoint walk_tree (fuel : nat) (nodes : list Node)
    (sample : UVPair -> float) (id : Z) : run Z :=
  match fuel with
  | O => None
  | S fuel' =>
      if Z.of_nat (length nodes) <=? id then Some Undefined
      else
        let node := node_at nodes id in
        if node_label_pr_idx node =? 0
        then
          let value := sample (node_uv node) in
          walk_tree fuel' nodes sample
            (if F32.ltb value (node_t node)
             then to_uint32 (2 * id + 1) else to_uint32 (2 * id + 2))
        else Some (Ok id)
  end.

(** [&tree->label_pr_tables[(node->label_pr_idx - 1) * n_labels]], read
    over [n_labels] entries; the index is computed in 32 bits. A table
    that does not lie within [label_pr_tables] is a read outside of the
    array, which is undefined. *)
Definition leaf_table (tree : RDTree) (n_labels : Z) (id : Z)
    : outcome (list float) :=
  let node := node_at (rdt_nodes tree) id in
  let offset :=
    to_uint32 (to_uint32 (node_label_pr_idx node - 1) * n_labels) in
  if offset + n_labels <=? Z.of_nat (length (rdt_label_pr_tables tree))
  then Ok (slice F32.zero (rdt_label_pr_tables tree) offset n_labels)
  else Undefined.

(** [out_pr_table[i] += pr_table[i]] for the entries of a table, from
    [output_pr[base]] on; a write past the end of [output_pr] is
    undefined. *)
Fixpoint add_table (out : list float) (base : nat) (table : list float)
    : outcome (list float) :=
  match table with
  | [] => Ok out
  | p :: rest =>
      if (base <? length out)%nat
      then add_table (store base (F32.add (nth base out F32.zero) p) out)
                     (S base) rest
      else Undefined
  end.

(** The pixels in the order of the loops over [y] and [x]. *)
Definition image_pixels (width height : Z) : list (Z * Z) :=
  list_prod (map Z.of_nat (seq 0 (Z.to_nat height)))
            (map Z.of_nat (seq 0 (Z.to_nat width))).

(** "Accumulate probability map", for one tree. [sample_at x y] is the
    feature of the pixel [(x, y)]. *)
Definition accumulate_tree (fuel : nat) (tree : RDTree) (n_labels : Z)
    (width height : Z) (sample_at : Z -> Z -> UVPair -> float)
    (output_pr : list float) : run (list float) :=
  fold_left
    (fun (acc : run (list float)) (yx : Z * Z) =>
       let '(y, x) := yx in
       run_bind acc (fun out =>
       run_bind (walk_tree fuel (rdt_nodes tree) (sample_at x y) 0)
         (fun id =>
            Some (pr_table <- leaf_table tree n_labels id ;;
                  add_table out
                    (Z.to_nat (to_uint32 (y * width * n_labels
                                          + x * n_labels)))
                    pr_table))))
    (image_pixels width height) (Some (Ok output_pr)).

(** "Correct the probabilities": the loops run [idx] over
    [height * width * n_labels] entries. *)
Definition correct_probabilities (n_trees n_labels width height : Z)
    (output_pr : list float) : outcome (list float) :=
  let n := (Z.to_nat height * Z.to_nat width * Z.to_nat n_labels)%nat in
  if (n <=? length output_pr)%nat
  then Ok (map (fun p => F32.div p (F32.of_Z n_trees)) (firstn n output_pr)
           ++ skipn n output_pr)
  else Undefined.

(** The two loops of the two inference functions, which differ in the
    feature and in where [output_pr] comes from. *)
Definition infer_forest (fuel : nat) (forest : list RDTree) (n_trees : Z)
    (width height : Z) (sample_at : Z -> Z -> UVPair -> float)
    (output_pr : list float) : run (list float) :=
  match forest with
  | [] => Some Undefined
  | first :: _ =>
      let n_labels := hdr_n_labels (rdt_header first) in
      if Z.of_nat (length forest) <? n_trees then Some Undefined
      else
        run_bind
          (fold_left
             (fun (acc : run (list float)) (tree : RDTree) =>
                run_bind acc
                  (accumulate_tree fuel tree n_labels width height sample_at))
             (firstn (Z.to_nat n_trees) forest) (Some (Ok output_pr)))
          (fun out =>
             Some (correct_probabilities n_trees n_labels width height out))
  end.

(** The feature of a pixel in [infer_labels]: [sample_uv] on the image
    of halves, with the depth of the pixel. *)
Definition half_sample (depth_image : list half) (width height : Z)
    (x y : Z) (uv : UVPair) : float :=
  sample_uv depth_image width height (to_int32 x, to_int32 y)
            (depth_at depth_image (to_uint32 (y * width + x))) uv.

(** [infer_labels]: [output_pr] is allocated by [xcalloc], which clears
    it. *)
Definition infer_labels (fuel : nat) (forest : list RDTree) (n_trees : Z)
    (depth_image : list half) (width height : Z) : run (list float) :=
  let n_labels :=
    match forest with
    | [] => 0
    | first :: _ => hdr_n_labels (rdt_header first)
    end in
  infer_forest fuel forest n_trees width height
    (half_sample depth_image width height)
    (repeat F32.zero (Z.to_nat (to_uint32 (width * height * n_labels)))).

(** The feature as [infer_labels_from_float] computes it itself, on an
    image of floats. *)
Definition float_sample (depth_image : list float) (width height : Z)
    (x y : Z) (uv : UVPair) : float :=
  let pixel : Int2D := (to_int32 x, to_int32 y) in
  let depth := nth (Z.to_nat (to_uint32 (y * width + x))) depth_image
                   F32.zero in
  let u : Int2D :=
    (F32.to_int32 (F32.add (F32.of_Z (fst pixel)) (F32.div (uv0 uv) depth)),
     F32.to_int32 (F32.add (F32.of_Z (snd pixel)) (F32.div (uv1 uv) depth))) in
  let v : Int2D :=
    (F32.to_int32 (F32.add (F32.of_Z (fst pixel)) (F32.div (uv2 uv) depth)),
     F32.to_int32 (F32.add (F32.of_Z (snd pixel)) (F32.div (uv3 uv) depth))) in
  let upixel :=
    if in_image width height u
    then nth (Z.to_nat (to_uint32 (to_uint32 (snd u) * width + fst u)))
             depth_image F32.zero
    else F32.of_Z 1000 in
  let vpixel :=
    if in_image width height v
    then nth (Z.to_nat (to_uint32 (to_uint32 (snd v) * width + fst v)))
             depth_image F32.zero
    else F32.of_Z 1000 in
  F32.sub upixel vpixel.

(** [infer_labels_from_float] adds to the [output_pr] of its caller. *)
Definition infer_labels_from_float (fuel : nat) (forest : list RDTree)
    (n_trees : Z) (depth_image : list float) (width height : Z)
    (output_pr : list float) : run (list float) :=
  infer_forest fuel forest n_trees width height
    (float_sample depth_image width height) output_pr.

(** *** The two inference functions agree *)

Lemma nth_map_of_half (image : list half) (k : nat) :
  nth k (map F32.of_half image) F32.zero = F32.of_half (nth k image F32.zero).
Proof.
  change F32.zero with (F32.of_half F32.zero) at 1. apply map_nth.
Qed.

Lemma float_sample_of_half (image : list half) (width height x y : Z)
    (uv : UVPair) :
  float_sample (map F32.of_half image) width height x y uv
  = half_sample image width height x y uv.
Proof.
  unfold float_sample, half_sample, sample_uv, depth_at. cbv zeta.
  now rewrite !nth_map_of_half.
Qed.

Lemma infer_forest_ext (fuel : nat) (forest : list RDTree) (n_trees : Z)
    (width height : Z) (f g : Z -> Z -> UVPair -> float)
    (output_pr : list float) :
  (forall x y uv, f x y uv = g x y uv) ->
  infer_forest fuel forest n_trees width height f output_pr
  = infer_forest fuel forest n_trees width height g output_pr.
Proof.
  intros E.
  assert (W : forall nodes x y id k,
            walk_tree k nodes (f x y) id = walk_tree k nodes (g x y) id).
  { intros nodes x y id k. revert id.
    induction k as [|k IH]; intros id; cbn [walk_tree]; [reflexivity|].
    destruct (_ <=? id); [reflexivity|].
    destruct (_ =? 0); [|reflexivity].
    rewrite E. apply IH. }
  assert (T : forall tree n out,
            accumulate_tree fuel tree n width height f out
            = accumulate_tree fuel tree n width height g out).
  { intros tree n out. unfold accumulate_tree.
    generalize (Some (Ok out)) as acc.
    induction (image_pixels width height) as [|[y x] l IH]; intros acc;
      cbn [fold_left]; [reflexivity|].
    rewrite (W (rdt_nodes tree) x y 0 fuel). apply IH. }
  unfold infer_forest. destruct forest as [|first rest]; [reflexivity|].
  destruct (_ <? n_trees); [reflexivity|]. f_equal.
  generalize (Some (Ok output_pr)) as acc.
  induction (firstn (Z.to_nat n_trees) (first :: rest)) as [|tree l IH];
    intros acc; cbn [fold_left]; [reflexivity|].
  destruct acc as [[o| |]|]; cbn [run_bind]; rewrite ?T; apply IH.
Qed.

(** On an image of floats that holds the halves of an image of halves,
    converted, and with an [output_pr] that is clear,
    [infer_labels_from_float] computes what [infer_labels] returns: the
    feature it works out itself is [sample_uv]. *)
Theorem infer_labels_from_float_agrees (fuel : nat) (forest : list RDTree)
    (n_trees : Z) (depth_image : list half) (width height : Z) :
  let n_labels :=
    match forest with
    | [] => 0
    | first :: _ => hdr_n_labels (rdt_header first)
    end in
  infer_labels_from_float fuel forest n_trees
    (map F32.of_half depth_image) width height
    (repeat F32.zero (Z.to_nat (to_uint32 (width * height * n_labels))))
  = infer_labels fuel forest n_trees depth_image width height.
Proof.
  intros n_labels. unfold infer_labels_from_float, infer_labels.
  apply infer_forest_ext. intros x y uv. apply float_sample_of_half.
Qed.

(** *** The walk down a complete tree *)

(** A tree array of [depth] levels, laid out breadth first, whose last
    level holds no split node. *)
Record complete_tree (nodes : list Node) (depth : Z) : Prop := {
  ct_depth : 1 <= depth <= 31;
  ct_length : Z.of_nat (length nodes) = 2 ^ depth - 1;
  ct_last : forall id,
    2 ^ (depth - 1) - 1 <= id < 2 ^ depth - 1 ->
    node_label_pr_idx (node_at nodes id) <> 0
}.

(** The nodes of level [level] are those from [2^level - 1] to
    [2^(level+1) - 2]. *)
Definition on_level (level id : Z) : Prop :=
  2 ^ level - 1 <= id < 2 ^ (level + 1) - 1.

Lemma children_on_next_level (level id : Z) :
  0 <= level -> on_level level id ->
  on_level (level + 1) (2 * id + 1) /\ on_level (level + 1) (2 * id + 2).
Proof.
  unfold on_level. intros Hl H.
  replace (level + 1 + 1) with (Z.succ (level + 1)) by lia.
  rewrite (Z.pow_succ_r 2 (level + 1)) by lia.
  replace (level + 1) with (Z.succ level) in * by lia.
  rewrite (Z.pow_succ_r 2 level) in * by lia. lia.
Qed.

Lemma walk_tree_on_level (nodes : list Node) (depth : Z)
    (sample : UVPair -> float) :
  complete_tree nodes depth ->
  forall (fuel : nat) (level id : Z),
    0 <= level < depth ->
    on_level level id ->
    depth - level <= Z.of_nat fuel ->
    exists leaf,
      walk_tree fuel nodes sample id = Some (Ok leaf)
      /\ id <= leaf < Z.of_nat (length nodes)
      /\ node_label_pr_idx (node_at nodes leaf) <> 0.
Proof.
  intros [Hd Hlen Hlast].
  induction fuel as [|fuel IH]; intros level id Hl Hid Hf; [lia|].
  assert (P : 2 ^ (level + 1) <= 2 ^ depth)
    by (apply Z.pow_le_mono_r; lia).
  assert (P31 : 2 ^ depth <= 2 ^ 31) by (apply Z.pow_le_mono_r; lia).
  assert (Pl : 0 < 2 ^ level) by (apply Z.pow_pos_nonneg; lia).
  pose proof Hid as [Hid1 Hid2].
  cbn [walk_tree].
  destruct (Z.leb_spec (Z.of_nat (length nodes)) id) as [Hout|Hin]; [lia|].
  cbv zeta.
  destruct (Z.eqb_spec (node_label_pr_idx (node_at nodes id)) 0) as [Ez|Nz].
  - (* a split node is not on the last level *)
    assert (Hnot_last : level < depth - 1).
    { destruct (Z.lt_ge_cases level (depth - 1)) as [|Hge]; [assumption|].
      exfalso. apply (Hlast id); [|exact Ez].
      replace level with (depth - 1) in * by lia.
      replace (depth - 1 + 1) with depth in * by lia. lia. }
    destruct (children_on_next_level level id ltac:(lia) Hid) as [C1 C2].
    rewrite (to_uint32_small (2 * id + 1)), (to_uint32_small (2 * id + 2))
      by lia.
    destruct (F32.ltb _ _).
    + destruct (IH (level + 1) (2 * id + 1) ltac:(lia) C1 ltac:(lia))
        as (leaf & E & B & N).
      exists leaf. split; [exact E|]. split; [lia|exact N].
    + destruct (IH (level + 1) (2 * id + 2) ltac:(lia) C2 ltac:(lia))
        as (leaf & E & B & N).
      exists leaf. split; [exact E|]. split; [lia|exact N].
  - exists id. split; [reflexivity|]. split; [lia|exact Nz].
Qed.

(** On a complete tree of at most 31 levels the walk of a pixel from the
    root ends within as many turns as the tree has levels, whatever the
    features of the pixel are, at a node of the array that is not a split
    node: the loop reads no node outside the array. *)
Theorem walk_tree_ends (nodes : list Node) (depth : Z)
    (sample : UVPair -> float) (fuel : nat) :
  complete_tree nodes depth ->
  depth <= Z.of_nat fuel ->
  exists leaf,
    walk_tree fuel nodes sample 0 = Some (Ok leaf)
    /\ 0 <= leaf < Z.of_nat (length nodes)
    /\ node_label_pr_idx (node_at nodes leaf) <> 0.
Proof.
  intros Hc Hf. pose proof (ct_depth _ _ Hc) as Hd.
  apply (walk_tree_on_level nodes depth sample Hc fuel 0 0); try lia.
  unfold on_level. cbn. lia.
Qed.

(** A tree of two levels: a split on the step feature at threshold 1.0
    and two leaves. *)
Definition demo_nodes : list Node :=
  [mkNode uv_step (F32.of_Z 1) 0;
   mkNode default_uv F32.zero 1;
   mkNode default_uv F32.zero 2].

Lemma demo_nodes_complete : complete_tree demo_nodes 2.
Proof.
  constructor; [lia|reflexivity|].
  intros id Hid. change (2 ^ (2 - 1) - 1) with 1 in Hid.
  change (2 ^ 2 - 1) with 3 in Hid.
  assert (C : id = 1 \/ id = 2) by lia.
  destruct C as [->| ->]; vm_compute; discriminate.
Defined.

Lemma walk_tree_ends_witness :
  exists leaf,
    walk_tree 2 demo_nodes (fun uv => uv0 uv) 0 = Some (Ok leaf)
    /\ 0 <= leaf < 3
    /\ node_label_pr_idx (node_at demo_nodes leaf) <> 0.
Proof.
  exact (walk_tree_ends demo_nodes 2 (fun uv => uv0 uv) 2
                        demo_nodes_complete ltac:(lia)).
Defined.

(** *** Inference takes the side training took *)

(** The [i]-th training image: the [width * height] depths from
    [i * width * height] on in the array of all depth images. *)
Definition training_image (ctx : TrainContext) (i : Z) : list half :=
  firstn (Z.to_nat (ctx_width ctx * ctx_height ctx))
         (skipn (Z.to_nat (i * (ctx_width ctx * ctx_height ctx)))
                (ctx_depth_images ctx)).

(** The array of depth images holds the image [i], and the histogram
    engine and the partitioner, which compute its place in 32 bits, find
    it where it is. *)
Record image_in_reach (ctx : TrainContext) (i : Z) : Prop := {
  ir_index : 0 <= i;
  ir_held : (i + 1) * (ctx_width ctx * ctx_height ctx)
            <= Z.of_nat (length (ctx_depth_images ctx));
  ir_place : i * ctx_width ctx * ctx_height ctx < 2 ^ 32
}.

Lemma training_image_length (ctx : TrainContext) (i : Z) :
  0 <= ctx_width ctx -> 0 <= ctx_height ctx ->
  image_in_reach ctx i ->
  Z.of_nat (length (training_image ctx i))
  = ctx_width ctx * ctx_height ctx.
Proof.
  intros Hw Hh [Hi Hheld _]. unfold training_image.
  rewrite length_firstn, length_skipn. nia.
Qed.

Lemma depth_at_firstn (image : list half) (n : nat) (idx : Z) :
  (Z.to_nat idx < n)%nat ->
  depth_at (firstn n image) idx = depth_at image idx.
Proof.
  intros H. unfold depth_at. rewrite nth_firstn.
  destruct (Nat.ltb_spec (Z.to_nat idx) n); [reflexivity|lia].
Qed.

(** [sample_uv] reads the image below [width * height] only. *)
Lemma sample_uv_firstn (image : list half) (width height : Z)
    (pixel : Int2D) (depth : float) (uv : UVPair) :
  0 <= width < 2 ^ 31 -> 0 <= height < 2 ^ 31 ->
  width * height < 2 ^ 32 ->
  sample_uv (firstn (Z.to_nat (width * height)) image) width height
            pixel depth uv
  = sample_uv image width height pixel depth uv.
Proof.
  intros Hw Hh Hwh.
  assert (R : forall p,
            in_image width height p = true ->
            depth_at (firstn (Z.to_nat (width * height)) image)
                     (to_uint32 (to_uint32 (snd p) * width + fst p))
            = depth_at image
                       (to_uint32 (to_uint32 (snd p) * width + fst p))).
  { intros [px py]. unfold in_image. cbn [fst snd].
    rewrite !to_int32_small by lia.
    rewrite !andb_true_iff, !Z.leb_le, !Z.ltb_lt.
    intros [[[X0 X1] Y0] Y1].
    apply depth_at_firstn.
    rewrite (to_uint32_small py) by lia.
    rewrite to_uint32_small by nia. nia. }
  unfold sample_uv. cbv zeta.
  repeat match goal with
  | |- context [if in_image width height ?p then _ else _] =>
      destruct (in_image width height p) eqn:?
  end; rewrite ?R by assumption; reflexivity.
Qed.

Lemma half_sample_training (ctx : TrainContext) (x y i : Z) (uv : UVPair) :
  0 <= ctx_width ctx < 2 ^ 31 -> 0 <= ctx_height ctx < 2 ^ 31 ->
  ctx_width ctx * ctx_height ctx < 2 ^ 32 ->
  image_in_reach ctx i ->
  0 <= x < ctx_width ctx -> 0 <= y < ctx_height ctx ->
  half_sample (training_image ctx i) (ctx_width ctx) (ctx_height ctx) x y uv
  = pixel_sample ctx (mkInt3D (x, y) i) uv.
Proof.
  intros Hw Hh Hwh [Hi _ Hplace] Hx Hy.
  unfold half_sample, pixel_sample, training_image,
         pixel_depth, pixel_depth_image, pixel_index, image_offset.
  cbn [px_xy px_i fst snd].
  rewrite (to_uint32_small (i * ctx_width ctx * ctx_height ctx)) by nia.
  replace (i * ctx_width ctx * ctx_height ctx)
    with (i * (ctx_width ctx * ctx_height ctx)) by ring.
  rewrite !to_int32_small by lia.
  rewrite sample_uv_firstn by assumption.
  rewrite depth_at_firstn; [reflexivity|].
  rewrite to_uint32_small by nia. nia.
Qed.

(** For a pixel of a training image that the array of depth images
    holds at a place below [2^32], the feature [infer_labels] computes on
    that image alone is the feature the histogram engine and the
    partitioner computed in the array of all training images, so the test
    [value < t] of the walk sends the pixel to the left child exactly when
    the partitioner put it into the left child's pixels. Both read the
    image within its [width * height] depths. *)
Theorem inference_follows_training (ctx : TrainContext) (x y i : Z)
    (uv : UVPair) (t : float) :
  0 <= ctx_width ctx < 2 ^ 31 -> 0 <= ctx_height ctx < 2 ^ 31 ->
  ctx_width ctx * ctx_height ctx < 2 ^ 32 ->
  image_in_reach ctx i ->
  0 <= x < ctx_width ctx -> 0 <= y < ctx_height ctx ->
  let px := mkInt3D (x, y) i in
  let value :=
    half_sample (training_image ctx i) (ctx_width ctx) (ctx_height ctx)
                x y uv in
  Z.of_nat (length (training_image ctx i)) = ctx_width ctx * ctx_height ctx
  /\ value = pixel_sample ctx px uv
  /\ F32.ltb value t = left_of ctx uv t px.
Proof.
  intros Hw Hh Hwh Hi Hx Hy px value.
  split; [apply training_image_length; assumption || lia|].
  assert (E : value = pixel_sample ctx px uv)
    by (apply half_sample_training; assumption).
  split; [exact E|]. unfold left_of. now rewrite E.
Qed.

Lemma demo_image_in_reach : image_in_reach demo_ctx 1.
Proof. constructor; cbn; lia. Defined.

Lemma inference_follows_training_witness :
  Z.of_nat (length (training_image demo_ctx 1)) = 2 * 1
  /\ half_sample (training_image demo_ctx 1) 2 1 0 0 uv_step
  = pixel_sample demo_ctx (mkInt3D (0, 0) 1) uv_step
  /\ F32.ltb (half_sample (training_image demo_ctx 1) 2 1 0 0 uv_step)
             (F32.of_Z 1)
     = left_of demo_ctx uv_step (F32.of_Z 1) (mkInt3D (0, 0) 1).
Proof.
  exact (inference_follows_training demo_ctx 0 0 1 uv_step (F32.of_Z 1)
           ltac:(cbn; lia) ltac:(cbn; lia) ltac:(cbn; lia)
           demo_image_in_reach ltac:(cbn; lia) ltac:(cbn; lia)).
Defined.

(** ** The training loop *)

(** How the loop [while (train_queue != NULL)] of [main] goes on: it
    is left, with the state the rest of [main] saves, or the program has
    ended or gone wrong in it; or [main] waits at [finished_barrier] for a
    worker that has left its own loop, and so for ever. *)
Inductive LoopResult : Type :=
| Ended (r : outcome Trainer)
| Blocked.

(** The [break] of a worker behind [ready_barrier], taken when there is
    no node or the interrupt flag is set: [at_ready i] is what worker [i]
    reads of the flag there, in one turn. Inside the loop of [main] there
    is always a node. *)
Definition staying (n_threads : Z) (at_ready : nat -> bool) : list nat :=
  filter (fun i => negb (at_ready i)) (seq 0 (Z.to_nat n_threads)).

Definition all_stay (n_threads : Z) (at_ready : nat -> bool) : bool :=
  forallb (fun i => negb (at_ready i)) (seq 0 (Z.to_nat n_threads)).

(** A turn in which a worker has left its loop: the others work on the
    node, where [accumulate_histograms] can still end the program, and
    then wait at [finished_barrier], as [main] does; the barrier is never
    full again. *)
Definition stalled_turn (log2f : float -> float) (ctx : TrainContext)
    (data : NodeTrainData) (n_threads : Z) (at_ready : nat -> bool)
    (sig : nat -> Signals) (pub : Published) : LoopResult :=
  match fold_left
          (fun acc i =>
             pub <- acc ;; run_thread log2f ctx data n_threads sig pub i)
          (staying n_threads at_ready) (Ok pub) with
  | Ok _ => Blocked
  | Exit code m => Ended (Exit code m)
  | Undefined => Ended Undefined
  end.

(** The loop [while (train_queue != NULL)] of [main]. In turn [k] the
    workers read the interrupt flag as [at_ready k] says when they come out
    of [ready_barrier] and as [sigs k] says while they work, and the
    coordinator reads it as [interrupted k] behind [finished_barrier]; the
    loop is left when the queue is empty and on the [break] the flag
    causes. [None] means that [fuel] turns did not decide the run. *)
Fixpoint train_loop (fuel : nat) (log2f : float -> float)
    (ctx : TrainContext) (n_threads : Z) (at_ready : nat -> nat -> bool)
    (sigs : nat -> nat -> Signals) (interrupted : nat -> bool) (k : nat)
    (pub : Published) (st : Trainer) : option LoopResult :=
  match train_queue st with
  | [] => Some (Ended (Ok st))
  | node_data :: _ =>
      match fuel with
      | O => None
      | S fuel' =>
          if all_stay n_threads (at_ready k)
          then
            match train_iteration log2f ctx n_threads (sigs k)
                                  (interrupted k) pub st with
            | Ok (Some (st', pub')) =>
                train_loop fuel' log2f ctx n_threads at_ready sigs
                           interrupted (S k) pub' st'
            | Ok None => Some (Ended (Ok st))
            | Exit code m => Some (Ended (Exit code m))
            | Undefined => Some (Ended Undefined)
            end
          else
            Some (stalled_turn log2f ctx node_data n_threads (at_ready k)
                               (sigs k) pub)
      end
  end.

(** No worker reads the flag set behind [ready_barrier]. *)
Definition never_at_ready (at_ready : nat -> nat -> bool) : Prop :=
  forall k i, at_ready k i = false.

Lemma all_stay_never (n_threads : Z) (at_ready : nat -> nat -> bool)
    (k : nat) :
  never_at_ready at_ready -> all_stay n_threads (at_ready k) = true.
Proof.
  intros H. unfold all_stay. apply forallb_forall. intros i _.
  now rewrite H.
Qed.

Lemma all_stay_left (n_threads : Z) (at_ready : nat -> bool) (i : nat) :
  (i < Z.to_nat n_threads)%nat -> at_ready i = true ->
  all_stay n_threads at_ready = false.
Proof.
  intros Hi H. unfold all_stay.
  destruct (forallb _ _) eqn:E; [|reflexivity].
  rewrite forallb_forall in E.
  specialize (E i ltac:(apply in_seq; lia)). now rewrite H in E.
Qed.

Lemma stalled_turn_no_state (log2f : float -> float) (ctx : TrainContext)
    (data : NodeTrainData) (n_threads : Z) (at_ready : nat -> bool)
    (sig : nat -> Signals) (pub : Published) (st : Trainer) :
  stalled_turn log2f ctx data n_threads at_ready sig pub <> Ended (Ok st).
Proof.
  unfold stalled_turn. now destruct (fold_left _ _ _).
Qed.

(** The state [main] starts the loop with when it restores nothing: every
    node marked unfinished and the root in the queue. *)
Definition fresh_trainer (ctx : TrainContext) (root_pixels : list Int3D)
    : Trainer :=
  mkTrainer (repeat (set_leaf default_node UINT32_MAX)
                    (Z.to_nat (n_tree_nodes (ctx_max_depth ctx))))
            [create_node_train_data root_pixels ctx 0 0 0 None] 0 [].

Lemma prepare_training_fresh (fuel : nat) (root_pixels : list Int3D)
    (ctx : TrainContext) (read_tree : option RDTree) :
  prepare_training fuel root_pixels ctx false read_tree
  = Some (Ok (fresh_trainer ctx root_pixels)).
Proof. reflexivity. Qed.

(** When [collect_pixels] returns, the children are the pixels of the
    node below and not below the threshold, in their order, whatever the
    hints were. *)
Lemma collect_loop_ok (ctx : TrainContext) (uv : UVPair) (t : float)
    (l_capacity r_capacity : Z) :
  forall (pixels l r l' r' : list Int3D),
    collect_loop ctx uv t l_capacity r_capacity pixels (l, r) = Ok (l', r') ->
    l' = l ++ filter (left_of ctx uv t) pixels
    /\ r' = r ++ filter (right_of ctx uv t) pixels.
Proof.
  induction pixels as [|px rest IH]; intros l r l' r'; cbn [collect_loop].
  - intros [= <- <-]. cbn [filter]. now rewrite !app_nil_r.
  - unfold collect_pixel; cbn [fst snd].
    change (F32.ltb (pixel_sample ctx px uv) t) with (left_of ctx uv t px).
    assert (FL : filter (left_of ctx uv t) (px :: rest)
                 = if left_of ctx uv t px
                   then px :: filter (left_of ctx uv t) rest
                   else filter (left_of ctx uv t) rest) by reflexivity.
    assert (FR : filter (right_of ctx uv t) (px :: rest)
                 = if left_of ctx uv t px
                   then filter (right_of ctx uv t) rest
                   else px :: filter (right_of ctx uv t) rest).
    { cbn [filter]. unfold right_of at 1.
      now destruct (left_of ctx uv t px). }
    rewrite FL, FR. clear FL FR.
    destruct (left_of ctx uv t px).
    + destruct (_ <? l_capacity); cbn [bind]; [|discriminate].
      intros H. apply IH in H. destruct H as [-> ->].
      now rewrite <- app_assoc.
    + destruct (_ <? r_capacity); cbn [bind]; [|discriminate].
      intros H. apply IH in H. destruct H as [-> ->].
      now rewrite <- app_assoc.
Qed.

Lemma collect_pixels_ok (ctx : TrainContext) (data : NodeTrainData)
    (uv : UVPair) (t : float) (hints : Z * Z) (l r : list Int3D)
    (counts : Z * Z) :
  collect_pixels ctx data uv t hints = Ok (l, r, counts) ->
  l = filter (left_of ctx uv t) (node_pixels data)
  /\ r = filter (right_of ctx uv t) (node_pixels data)
  /\ counts = (Z.of_nat (length l), Z.of_nat (length r)).
Proof.
  unfold collect_pixels.
  destruct (collect_loop _ _ _ _ _ _ _) as [[l0 r0]| |] eqn:E; cbn [bind];
    try discriminate.
  apply collect_loop_ok in E. cbn [app] in E. destruct E as [-> ->].
  intros [= <- <- <-]. split; [reflexivity|]. split; [reflexivity|].
  f_equal.
  - now destruct (Z.eqb_spec (fst hints)
                    (Z.of_nat (length (filter (left_of ctx uv t)
                                              (node_pixels data))))).
  - now destruct (Z.eqb_spec (snd hints)
                    (Z.of_nat (length (filter (right_of ctx uv t)
                                              (node_pixels data))))).
Qed.

(** The two ways the coordinator deals with the head of the queue: it
    makes the node a leaf with the histogram of the shared buffer, or a
    split whose children go to the end of the queue with the pixels of
    their side. *)
Lemma train_node_cases (ctx : TrainContext) (n_threads : Z) (b : bool)
    (pub pub' : Published) (st st' : Trainer) (data : NodeTrainData)
    (rest : list NodeTrainData) :
  train_queue st = data :: rest ->
  train_node ctx n_threads b pub st = Ok (Some (st', pub')) ->
  let node := tree_node (tree st) (nd_id data) in
  st' = mkTrainer
          (store (Z.to_nat (nd_id data))
                 (set_leaf node (to_uint32 (n_histograms st + 1))) (tree st))
          rest (to_uint32 (n_histograms st + 1))
          (tree_histograms st ++ [root_nhistogram pub])
  \/ (to_uint32 (nd_depth data + 1) < ctx_max_depth ctx
      /\ exists uv t,
           let l_pixels := filter (left_of ctx uv t) (node_pixels data) in
           let r_pixels := filter (right_of ctx uv t) (node_pixels data) in
           st' = mkTrainer
                   (store (Z.to_nat (nd_id data)) (set_split node uv t)
                          (tree st))
                   (rest ++
                    [mkNodeData (to_uint32 (2 * nd_id data + 1))
                                (to_uint32 (nd_depth data + 1))
                                (Z.of_nat (length l_pixels)) l_pixels;
                     mkNodeData
                       (to_uint32 (to_uint32 (2 * nd_id data + 1) + 1))
                       (to_uint32 (nd_depth data + 1))
                       (Z.of_nat (length r_pixels)) r_pixels])
                   (n_histograms st) (tree_histograms st)).
Proof.
  intros Hq. unfold train_node. rewrite Hq.
  destruct b; [discriminate|].
  destruct (best_of_threads n_threads pub) as [[[g u] t] w].
  destruct (F32.ltb F32.zero g); cbn [andb].
  - destruct (Z.ltb_spec (to_uint32 (nd_depth data + 1)) (ctx_max_depth ctx)).
    + destruct w as [w|]; [|discriminate].
      destruct (collect_pixels _ _ _ _ _) as [[[l r] counts]| |] eqn:E;
        cbn [bind]; try discriminate.
      apply collect_pixels_ok in E. destruct E as (El & Er & ->).
      intros [= <- _]. right. split; [assumption|].
      cbn [create_node_train_data fst snd]. cbv zeta.
      rewrite El, Er. eauto.
    + intros [= <- _]. now left.
  - intros [= <- _]. now left.
Qed.

(** Only the interrupt flag makes the coordinator leave a node in the
    queue. *)
Lemma train_node_break (ctx : TrainContext) (n_threads : Z) (b : bool)
    (pub : Published) (st : Trainer) (data : NodeTrainData)
    (rest : list NodeTrainData) :
  train_queue st = data :: rest ->
  train_node ctx n_threads b pub st = Ok None ->
  b = true.
Proof.
  intros Hq. unfold train_node. rewrite Hq.
  destruct b; [reflexivity|].
  destruct (best_of_threads n_threads pub) as [[[g u] t] w].
  destruct (_ && _); [|discriminate].
  destruct w as [w|]; [|discriminate].
  destruct (collect_pixels _ _ _ _ _) as [[[l r] counts]| |]; discriminate.
Qed.

(** *** What the loop keeps true *)

Definition label_idx (st : Trainer) (id : Z) : Z :=
  node_label_pr_idx (tree_node (tree st) id).

(** A node is accounted for when it waits in the queue or is
    finished. *)
Definition accounted (st : Trainer) (id : Z) : Prop :=
  In id (map nd_id (train_queue st)) \/ label_idx st id <> UINT32_MAX.

Section Invariant.

Variable ctx : TrainContext.

Local Abbreviation D := (ctx_max_depth ctx).

(** The turns of the loop the nodes of the queue can still cost: a node
    of depth [d] at most [2^(D-d) - 1], the size of the subtree below
    it. *)
Definition potential (queue : list NodeTrainData) : Z :=
  fold_right (fun d acc => 2 ^ (D - nd_depth d) - 1 + acc) 0 queue.

(** A node of the queue lies above the depth limit, and its id on the
    level its depth names. *)
Definition pending (d : NodeTrainData) : Prop :=
  0 <= nd_depth d < D /\ on_level (nd_depth d) (nd_id d).

Record training (st : Trainer) : Prop := {
  tr_length : Z.of_nat (length (tree st)) = 2 ^ D - 1;
  tr_count : n_histograms st = Z.of_nat (length (tree_histograms st));
  tr_potential : n_histograms st + potential (train_queue st) <= 2 ^ D - 1;
  tr_queue : Forall pending (train_queue st);
  tr_root : accounted st 0;
  tr_split : forall id,
    0 <= id < 2 ^ D - 1 -> label_idx st id = 0 ->
    2 * id + 2 < 2 ^ D - 1
    /\ accounted st (2 * id + 1) /\ accounted st (2 * id + 2);
  tr_leaf : forall id,
    0 <= id < 2 ^ D - 1 ->
    label_idx st id <> 0 -> label_idx st id <> UINT32_MAX ->
    1 <= label_idx st id <= n_histograms st
}.

Hypothesis HD : 1 <= D <= 31.

Lemma pow_D_bounds : 2 <= 2 ^ D <= 2 ^ 31.
Proof.
  split.
  - change 2 with (2 ^ 1) at 1. apply Z.pow_le_mono_r; lia.
  - apply Z.pow_le_mono_r; lia.
Qed.

Lemma potential_cons (d : NodeTrainData) (q : list NodeTrainData) :
  potential (d :: q) = 2 ^ (D - nd_depth d) - 1 + potential q.
Proof. reflexivity. Qed.

Lemma potential_app (q1 q2 : list NodeTrainData) :
  potential (q1 ++ q2) = potential q1 + potential q2.
Proof.
  induction q1 as [|d q1 IH]; cbn [app]; [reflexivity|].
  rewrite !potential_cons, IH. lia.
Qed.

Lemma pending_cost (d : NodeTrainData) :
  pending d -> 1 <= 2 ^ (D - nd_depth d) - 1.
Proof.
  intros [Hd _].
  assert (2 ^ 1 <= 2 ^ (D - nd_depth d)) by (apply Z.pow_le_mono_r; lia).
  lia.
Qed.

Lemma potential_nonneg (queue : list NodeTrainData) :
  Forall pending queue -> 0 <= potential queue.
Proof.
  induction 1 as [|d q Hd Hq IH]; [reflexivity|].
  rewrite potential_cons. pose proof (pending_cost d Hd). lia.
Qed.

Lemma on_level_bounds (level id : Z) :
  0 <= level < D -> on_level level id -> 0 <= id < 2 ^ D - 1.
Proof.
  unfold on_level. intros Hl [H1 H2].
  assert (0 < 2 ^ level) by (apply Z.pow_pos_nonneg; lia).
  assert (2 ^ (level + 1) <= 2 ^ D) by (apply Z.pow_le_mono_r; lia).
  lia.
Qed.

(** A split node lies above the last level. *)
Lemma split_level (level id : Z) :
  0 <= level -> on_level level id -> 2 * id + 2 < 2 ^ D - 1 ->
  level + 1 < D.
Proof.
  unfold on_level. intros Hl [H1 _] H.
  destruct (Z.lt_ge_cases (level + 1) D) as [|Hge]; [assumption|].
  assert (2 ^ D <= 2 ^ (level + 1)) by (apply Z.pow_le_mono_r; lia).
  replace (level + 1) with (Z.succ level) in * by lia.
  rewrite Z.pow_succ_r in * by lia. lia.
Qed.

(** The fresh state is a state of training. *)
Lemma fresh_training (root_pixels : list Int3D) :
  training (fresh_trainer ctx root_pixels).
Proof.
  pose proof pow_D_bounds as P.
  assert (Hin : forall id, 0 <= id < 2 ^ D - 1 ->
                  label_idx (fresh_trainer ctx root_pixels) id = UINT32_MAX).
  { intros id Hid. unfold label_idx, fresh_trainer, tree_node. cbn [tree].
    rewrite nth_repeat_lt; [reflexivity|].
    unfold n_tree_nodes. lia. }
  constructor.
  - cbn [fresh_trainer tree]. rewrite repeat_length. unfold n_tree_nodes.
    lia.
  - reflexivity.
  - cbn [fresh_trainer train_queue n_histograms].
    rewrite potential_cons. cbn [create_node_train_data nd_depth potential
                                 fold_right].
    rewrite Z.sub_0_r. lia.
  - repeat constructor; cbn [fresh_trainer create_node_train_data nd_depth
                             nd_id]; try lia.
  - left. cbn. now left.
  - intros id Hid E. rewrite (Hin id Hid) in E. discriminate E.
  - intros id Hid _ N. now rewrite (Hin id Hid) in N.
Qed.

(** Deciding the head of the queue keeps the state one of training when
    the node written is a leaf with a histogram or a split whose children
    are queued. *)
Lemma training_store (st : Trainer) (data : NodeTrainData)
    (rest queue' : list NodeTrainData) (node' : Node) (n' : Z)
    (hs' : list (list float)) :
  training st ->
  train_queue st = data :: rest ->
  incl rest queue' ->
  Forall pending queue' ->
  n' = Z.of_nat (length hs') ->
  n_histograms st <= n' ->
  n' + potential queue' <= 2 ^ D - 1 ->
  node_label_pr_idx node' <> UINT32_MAX ->
  (node_label_pr_idx node' = 0 ->
   2 * nd_id data + 2 < 2 ^ D - 1
   /\ In (2 * nd_id data + 1) (map nd_id queue')
   /\ In (2 * nd_id data + 2) (map nd_id queue')) ->
  (node_label_pr_idx node' <> 0 -> 1 <= node_label_pr_idx node' <= n') ->
  training (mkTrainer (store (Z.to_nat (nd_id data)) node' (tree st))
                      queue' n' hs').
Proof.
  intros [L C P Q R S Lf] Hq Hincl Hpend Hn Hle Hpot Hmax Hsplit Hleaf.
  unfold accounted in R, S. rewrite Hq in *.
  assert (Hid : 0 <= nd_id data < 2 ^ D - 1).
  { inversion Q as [|? ? [Hd Hl] _]; subst.
    exact (on_level_bounds _ _ Hd Hl). }
  set (st' := mkTrainer (store (Z.to_nat (nd_id data)) node' (tree st))
                        queue' n' hs').
  assert (Same : label_idx st' (nd_id data) = node_label_pr_idx node').
  { unfold label_idx, tree_node, st'. cbn [tree].
    rewrite store_nth_same by lia. reflexivity. }
  assert (Other : forall j, 0 <= j -> j <> nd_id data ->
                    label_idx st' j = label_idx st j).
  { intros j Hj N. unfold label_idx, tree_node, st'. cbn [tree].
    rewrite store_nth_other by lia. reflexivity. }
  assert (Acc : forall j, 0 <= j ->
                  In j (map nd_id (data :: rest))
                  \/ label_idx st j <> UINT32_MAX ->
                  accounted st' j).
  { intros j Hj [Hin|Hn'].
    - cbn [map] in Hin. destruct Hin as [<-|Hin].
      + right. rewrite Same. exact Hmax.
      + left. unfold st'. cbn [train_queue].
        apply in_map_iff in Hin. destruct Hin as (q & <- & Hq').
        apply in_map. apply Hincl. exact Hq'.
    - right. destruct (Z.eq_dec j (nd_id data)) as [->|N].
      + rewrite Same. exact Hmax.
      + rewrite Other by assumption. exact Hn'. }
  constructor; fold st'.
  - unfold st'. cbn [tree]. rewrite store_length. exact L.
  - exact Hn.
  - exact Hpot.
  - exact Hpend.
  - apply Acc; [lia|exact R].
  - intros j Hj E. destruct (Z.eq_dec j (nd_id data)) as [->|N].
    + rewrite Same in E. destruct (Hsplit E) as (B & I1 & I2).
      split; [exact B|]. split; left; assumption.
    + rewrite Other in E by lia. destruct (S j Hj E) as (B & A1 & A2).
      split; [exact B|]. split; apply Acc; try lia; assumption.
  - intros j Hj N0 NM. unfold st' at 3. cbn [n_histograms].
    destruct (Z.eq_dec j (nd_id data)) as [->|N].
    + rewrite Same in *. apply Hleaf; assumption.
    + rewrite Other in * by lia. pose proof (Lf j Hj N0 NM). lia.
Qed.

(** A turn of the coordinator keeps the state one of training and makes
    the potential of the queue smaller. *)
Lemma train_node_training (n_threads : Z) (b : bool)
    (pub pub' : Published) (st st' : Trainer) :
  training st ->
  train_node ctx n_threads b pub st = Ok (Some (st', pub')) ->
  training st'
  /\ potential (train_queue st') < potential (train_queue st).
Proof.
  intros T H. pose proof pow_D_bounds as PD.
  destruct (train_queue st) as [|data rest] eqn:Hq.
  { unfold train_node in H. rewrite Hq in H. discriminate H. }
  pose proof (tr_queue st T) as Q. rewrite Hq in Q.
  inversion Q as [|? ? Hdata Hrest]; subst.
  pose proof Hdata as [Hd Hl].
  pose proof (pending_cost data Hdata) as Hcost.
  pose proof (potential_nonneg rest Hrest) as Hnn.
  pose proof (tr_potential st T) as P. rewrite Hq, potential_cons in P.
  pose proof (tr_count st T) as C.
  pose proof (on_level_bounds _ _ Hd Hl) as Hid.
  destruct (train_node_cases ctx n_threads b pub pub' st st' data rest Hq H)
    as [->|(Hdepth & uv & t & ->)].
  - (* a leaf *)
    rewrite (to_uint32_small (n_histograms st + 1)) by lia.
    cbn [train_queue]. rewrite potential_cons. split; [|lia].
    apply (training_store st data rest); try assumption;
      cbn [set_leaf node_label_pr_idx].
    + apply incl_refl.
    + rewrite length_app. cbn [length]. lia.
    + lia.
    + lia.
    + unfold UINT32_MAX. lia.
    + lia.
    + lia.
  - (* a split *)
    set (l_pixels := filter (left_of ctx uv t) (node_pixels data)).
    set (r_pixels := filter (right_of ctx uv t) (node_pixels data)).
    set (l_n := Z.of_nat (length l_pixels)).
    set (r_n := Z.of_nat (length r_pixels)).
    rewrite (to_uint32_small (nd_depth data + 1)) in * by lia.
    destruct (children_on_next_level (nd_depth data) (nd_id data)
                ltac:(lia) Hl) as [C1 C2].
    pose proof (on_level_bounds (nd_depth data + 1) _ ltac:(lia) C1) as B1.
    pose proof (on_level_bounds (nd_depth data + 1) _ ltac:(lia) C2) as B2.
    rewrite (to_uint32_small (2 * nd_id data + 1)) by lia.
    replace (2 * nd_id data + 1 + 1) with (2 * nd_id data + 2) by lia.
    rewrite (to_uint32_small (2 * nd_id data + 2)) by lia.
    assert (Hpot : potential
                     (rest ++
                      [mkNodeData (2 * nd_id data + 1) (nd_depth data + 1)
                                  l_n l_pixels;
                       mkNodeData (2 * nd_id data + 2) (nd_depth data + 1)
                                  r_n r_pixels])
                   = potential rest + 2 ^ (D - nd_depth data) - 2).
    { rewrite potential_app, !potential_cons. cbn [nd_depth potential
                                                    fold_right].
      replace (D - nd_depth data)
        with (Z.succ (D - (nd_depth data + 1))) by lia.
      rewrite Z.pow_succ_r by lia. lia. }
    cbn [train_queue]. rewrite potential_cons, Hpot. split; [|lia].
    apply (training_store st data rest); try assumption;
      cbn [set_split node_label_pr_idx].
    + apply incl_appl, incl_refl.
    + apply Forall_app. split; [exact Hrest|].
      apply Forall_cons; [|apply Forall_cons; [|apply Forall_nil]];
        (split; cbn [nd_depth nd_id]; [lia|assumption]).
    + lia.
    + rewrite Hpot. lia.
    + unfold UINT32_MAX. lia.
    + intros _. split; [lia|].
      rewrite map_app. cbn [map nd_id].
      split; apply in_or_app; right; cbn; auto.
    + intros N. now destruct N.
Qed.

Lemma train_iteration_training (log2f : float -> float) (n_threads : Z)
    (sig : nat -> Signals) (b : bool) (pub pub' : Published)
    (st st' : Trainer) :
  training st ->
  train_iteration log2f ctx n_threads sig b pub st = Ok (Some (st', pub')) ->
  training st'
  /\ potential (train_queue st') < potential (train_queue st).
Proof.
  intros T H. unfold train_iteration in H.
  destruct (train_queue st) as [|data rest] eqn:Hq; [discriminate H|].
  destruct (run_threads _ _ _ _ _ _) as [pub1| |]; cbn [bind] in H;
    try discriminate.
  rewrite <- Hq. exact (train_node_training _ _ _ _ _ _ T H).
Qed.

Section Loop.

Variable log2f : float -> float.
Variable n_threads : Z.
Variable at_ready : nat -> nat -> bool.
Variable sigs : nat -> nat -> Signals.
Variable interrupted : nat -> bool.

(** What the loop returns is a state of training, with an empty queue
    unless the interrupt flag ended the loop. *)
Lemma train_loop_keeps (fuel : nat) :
  forall (k : nat) (pub : Published) (st st' : Trainer),
    training st ->
    train_loop fuel log2f ctx n_threads at_ready sigs interrupted k pub st
    = Some (Ended (Ok st')) ->
    training st'
    /\ (train_queue st' = [] \/ exists j, interrupted j = true).
Proof.
  induction fuel as [|fuel IH]; intros k pub st st' T H;
    destruct (train_queue st) as [|data rest] eqn:Hq;
    cbn [train_loop] in H; rewrite Hq in H; try discriminate.
  - injection H as <-. split; [exact T|now left].
  - injection H as <-. split; [exact T|now left].
  - destruct (all_stay n_threads (at_ready k));
      [|injection H as H; now apply stalled_turn_no_state in H].
    unfold train_iteration in H. rewrite Hq in H.
    destruct (run_threads _ _ _ _ _ _) as [pub1| |]; cbn [bind] in H;
      try discriminate.
    destruct (train_node ctx n_threads (interrupted k) pub1 st)
      as [[[st1 pub2]|]| |] eqn:E; try discriminate.
    + apply (IH _ _ _ _ (proj1 (train_node_training _ _ _ _ _ _ T E)) H).
    + injection H as <-. split; [exact T|]. right. exists k.
      exact (train_node_break _ _ _ _ _ _ _ Hq E).
Qed.

(** The run is decided within as many turns as the potential of its
    queue, and when no worker leaves behind [ready_barrier], [main] does
    not wait for ever. *)
Lemma train_loop_total (fuel : nat) :
  forall (k : nat) (pub : Published) (st : Trainer),
    training st ->
    potential (train_queue st) <= Z.of_nat fuel ->
    exists result,
      train_loop fuel log2f ctx n_threads at_ready sigs interrupted k pub st
      = Some result
      /\ (never_at_ready at_ready -> exists r, result = Ended r).
Proof.
  induction fuel as [|fuel IH]; intros k pub st T H;
    destruct (train_queue st) as [|data rest] eqn:Hq;
    cbn [train_loop]; rewrite Hq; eauto.
  - pose proof (tr_queue st T) as Q. rewrite Hq in Q.
    inversion Q as [|? ? Hdata Hrest]; subst.
    pose proof (pending_cost data Hdata).
    pose proof (potential_nonneg rest Hrest).
    rewrite potential_cons in H. lia.
  - destruct (all_stay n_threads (at_ready k)) eqn:Hstay.
    2:{ eexists. split; [reflexivity|]. intros N.
        now rewrite (all_stay_never n_threads at_ready k N) in Hstay. }
    unfold train_iteration. rewrite Hq.
    destruct (run_threads _ _ _ _ _ _) as [pub1| |]; cbn [bind]; eauto.
    destruct (train_node ctx n_threads (interrupted k) pub1 st)
      as [[[st1 pub2]|]| |] eqn:E; eauto.
    destruct (train_node_training _ _ _ _ _ _ T E) as [T1 P1].
    apply IH; [exact T1|]. rewrite Hq in P1. lia.
Qed.

End Loop.

(** In a state of training with an empty queue, the walk of a pixel from
    a finished node ends at a leaf that has a histogram. *)
Lemma walk_trained (st : Trainer) (sample : UVPair -> float) :
  training st -> train_queue st = [] ->
  forall (fuel : nat) (level id : Z),
    0 <= level < D ->
    on_level level id ->
    label_idx st id <> UINT32_MAX ->
    D - level <= Z.of_nat fuel ->
    exists leaf,
      walk_tree fuel (tree st) sample id = Some (Ok leaf)
      /\ 0 <= leaf < Z.of_nat (length (tree st))
      /\ 1 <= label_idx st leaf <= n_histograms st.
Proof.
  intros T Hq. pose proof pow_D_bounds as PD.
  assert (Done : forall j, accounted st j -> label_idx st j <> UINT32_MAX).
  { intros j [Hin|N]; [|exact N]. rewrite Hq in Hin. destruct Hin. }
  induction fuel as [|fuel IH]; intros level id Hl Hid Hm Hf; [lia|].
  pose proof (on_level_bounds _ _ Hl Hid) as B.
  pose proof (tr_length st T) as L.
  cbn [walk_tree].
  destruct (Z.leb_spec (Z.of_nat (length (tree st))) id) as [Hout|Hin];
    [lia|].
  cbv zeta. change (node_at (tree st) id) with (tree_node (tree st) id).
  fold (label_idx st id).
  destruct (Z.eqb_spec (label_idx st id) 0) as [Ez|Nz].
  - destruct (tr_split st T id B Ez) as (B2 & A1 & A2).
    pose proof (split_level level id ltac:(lia) Hid B2) as Hnext.
    destruct (children_on_next_level level id ltac:(lia) Hid) as [C1 C2].
    rewrite (to_uint32_small (2 * id + 1)), (to_uint32_small (2 * id + 2))
      by lia.
    destruct (F32.ltb _ _).
    + apply (IH (level + 1) (2 * id + 1)); try lia; auto.
    + apply (IH (level + 1) (2 * id + 2)); try lia; auto.
  - exists id. split; [reflexivity|]. split; [lia|].
    apply (tr_leaf st T); assumption.
Qed.

End Invariant.

(** *** The loop ends *)

(** When [max_depth] is between 1 and 31, the run of the training loop
    started on a fresh tree is decided within [2^max_depth - 1] turns, one
    for each node of the tree array at most, whatever the workers find.
    When no worker ever reads the interrupt flag set as it comes out of
    [ready_barrier], [main] gets out of the loop, whenever else the flag
    is set, and when the coordinator never reads it set either, the loop
    has emptied the queue. When a worker reads the flag set behind
    [ready_barrier] in the first turn, it leaves its loop and [main] never
    gets out of the training loop with a tree: it waits at
    [finished_barrier], unless another worker ends the program. *)
Theorem train_loop_ends (log2f : float -> float) (ctx : TrainContext)
    (n_threads : Z) (at_ready : nat -> nat -> bool)
    (sigs : nat -> nat -> Signals) (interrupted : nat -> bool)
    (pub : Published) (root_pixels : list Int3D) (fuel : nat) :
  1 <= ctx_max_depth ctx <= 31 ->
  n_tree_nodes (ctx_max_depth ctx) <= Z.of_nat fuel ->
  exists result,
    train_loop fuel log2f ctx n_threads at_ready sigs interrupted 0 pub
               (fresh_trainer ctx root_pixels)
    = Some result
    /\ ((forall k i, at_ready k i = false) ->
        exists r,
          result = Ended r
          /\ ((forall k, interrupted k = false) ->
              forall st, r = Ok st -> train_queue st = []))
    /\ ((exists i, (i < Z.to_nat n_threads)%nat /\ at_ready 0%nat i = true) ->
        result = Blocked
        \/ (exists code m, result = Ended (Exit code m))
        \/ result = Ended Undefined).
Proof.
  intros HD Hf.
  pose proof (fresh_training ctx HD root_pixels) as T.
  destruct (train_loop_total ctx HD log2f n_threads at_ready sigs interrupted
              fuel 0 pub _ T) as (result & E & U).
  { pose proof (tr_potential _ _ T) as P.
    cbn [fresh_trainer n_histograms] in P. unfold n_tree_nodes in Hf.
    cbn [fresh_trainer train_queue] in *. lia. }
  exists result. split; [exact E|]. split.
  - intros Hstay. destruct (U Hstay) as [r ->].
    exists r. split; [reflexivity|].
    intros Hnever st ->.
    destruct (train_loop_keeps ctx HD log2f n_threads at_ready sigs
                interrupted fuel 0 pub _ st T E) as [_ [Hq|[j Hj]]];
      [exact Hq|].
    rewrite Hnever in Hj. discriminate Hj.
  - intros (i & Hi & Hleft).
    destruct fuel as [|fuel].
    { unfold n_tree_nodes in Hf.
      assert (2 ^ 1 <= 2 ^ ctx_max_depth ctx)
        by (apply Z.pow_le_mono_r; lia).
      cbn in Hf. lia. }
    cbn [train_loop fresh_trainer train_queue] in E.
    rewrite (all_stay_left n_threads (at_ready 0%nat) i Hi Hleft) in E.
    injection E as <-. unfold stalled_turn.
    destruct (fold_left _ _ _) as [pub'|code m|]; eauto.
Qed.

Lemma train_loop_ends_witness :
  exists result,
    train_loop 3 log2_of_power demo_ctx 2 (fun _ _ => false)
               (fun _ _ => quiet) (fun _ => false) 0 demo_published
               (fresh_trainer demo_ctx demo_pixels)
    = Some result
    /\ ((forall k i : nat, (fun _ _ : nat => false) k i = false) ->
        exists r,
          result = Ended r
          /\ ((forall k : nat, (fun _ : nat => false) k = false) ->
              forall st, r = Ok st -> train_queue st = []))
    /\ ((exists i, (i < Z.to_nat 2)%nat
                   /\ (fun _ _ : nat => false) 0%nat i = true) ->
        result = Blocked
        \/ (exists code m, result = Ended (Exit code m))
        \/ result = Ended Undefined).
Proof.
  exact (train_loop_ends log2_of_power demo_ctx 2 (fun _ _ => false)
           (fun _ _ => quiet) (fun _ => false) demo_published demo_pixels 3
           ltac:(cbn; lia) ltac:(cbn; lia)).
Defined.

(** On the demonstration problem, an interrupt that the second worker
    sees as it comes out of [ready_barrier] in the first turn leaves
    [main] waiting at [finished_barrier]. *)
Example demo_blocked :
  train_loop 3 log2_of_power demo_ctx 2
             (fun k i => (k =? 0)%nat && (i =? 1)%nat)
             (fun _ _ => quiet) (fun _ => true) 0 demo_published
             (fresh_trainer demo_ctx demo_pixels)
  = Some Blocked.
Proof. vm_compute. reflexivity. Qed.

(** *** The trained tree *)

(** When the training loop started on a fresh tree has emptied its
    queue, the tree array is a complete tree of [max_depth] levels with no
    split on the last one, the leaf histograms are as many as
    [n_histograms] says, and the walk of [infer_labels] from the root ends,
    for every pixel, within [max_depth] turns at a node of the array whose
    [label_pr_idx] names one of these histograms: it is neither the mark of
    an unfinished node nor beyond the tables [main] writes. *)
Theorem trained_tree_is_complete (log2f : float -> float)
    (ctx : TrainContext) (n_threads : Z) (at_ready : nat -> nat -> bool)
    (sigs : nat -> nat -> Signals) (interrupted : nat -> bool)
    (pub : Published) (root_pixels : list Int3D) (fuel : nat)
    (st : Trainer) :
  1 <= ctx_max_depth ctx <= 31 ->
  train_loop fuel log2f ctx n_threads at_ready sigs interrupted 0 pub
             (fresh_trainer ctx root_pixels)
  = Some (Ended (Ok st)) ->
  train_queue st = [] ->
  complete_tree (tree st) (ctx_max_depth ctx)
  /\ n_histograms st = Z.of_nat (length (tree_histograms st))
  /\ forall sample : UVPair -> float,
       exists leaf,
         walk_tree (Z.to_nat (ctx_max_depth ctx)) (tree st) sample 0
         = Some (Ok leaf)
         /\ 0 <= leaf < Z.of_nat (length (tree st))
         /\ 1 <= node_label_pr_idx (node_at (tree st) leaf)
            <= n_histograms st.
Proof.
  intros HD E Hq.
  pose proof (fresh_training ctx HD root_pixels) as T0.
  destruct (train_loop_keeps ctx HD log2f n_threads at_ready sigs interrupted
              fuel 0 pub _ st T0 E) as [T _].
  split; [|split].
  - constructor; [exact HD|exact (tr_length _ _ T)|].
    intros id Hid Ez.
    assert (P : 2 ^ ctx_max_depth ctx = 2 * 2 ^ (ctx_max_depth ctx - 1)).
    { replace (ctx_max_depth ctx) with (Z.succ (ctx_max_depth ctx - 1))
        at 1 by lia.
      apply Z.pow_succ_r. lia. }
    destruct (tr_split _ _ T id ltac:(lia) Ez) as [B _]. lia.
  - exact (tr_count _ _ T).
  - intros sample.
    apply (walk_trained ctx HD st sample T Hq
             (Z.to_nat (ctx_max_depth ctx)) 0 0); try lia.
    + unfold on_level. cbn. lia.
    + destruct (tr_root _ _ T) as [Hin|N]; [|exact N].
      rewrite Hq in Hin. destruct Hin.
Qed.

Lemma trained_tree_is_complete_witness :
  exists st,
    train_loop 3 log2_of_power demo_ctx 2 (fun _ _ => false)
               (fun _ _ => quiet) (fun _ => false) 0 demo_published
               (fresh_trainer demo_ctx demo_pixels)
    = Some (Ended (Ok st))
    /\ complete_tree (tree st) 2
    /\ n_histograms st = Z.of_nat (length (tree_histograms st))
    /\ forall sample : UVPair -> float,
         exists leaf,
           walk_tree 2 (tree st) sample 0 = Some (Ok leaf)
           /\ 0 <= leaf < Z.of_nat (length (tree st))
           /\ 1 <= node_label_pr_idx (node_at (tree st) leaf)
              <= n_histograms st.
Proof.
  eexists. split; [vm_compute; reflexivity|].
  eapply (trained_tree_is_complete log2_of_power demo_ctx 2
            (fun _ _ => false) (fun _ _ => quiet) (fun _ => false)
            demo_published demo_pixels 3).
  - cbn. lia.
  - vm_compute. reflexivity.
  - reflexivity.
Defined.

(** The demonstration problem is trained in three turns: the root is
    split and its children are leaves, the left one of the two pixels of
    label 1 and the right one of the two pixels of label 0. *)
Example demo_train_loop :
  train_loop 3 log2_of_power demo_ctx 2 (fun _ _ => false)
             (fun _ _ => quiet) (fun _ => false)
             0 demo_published (fresh_trainer demo_ctx demo_pixels)
  = Some (Ended (Ok (mkTrainer
                       [mkNode uv_step (F32.of_Z 1) 0;
                        mkNode default_uv F32.zero 1;
                        mkNode default_uv F32.zero 2]
                       [] 2
                       [[F32.zero; F32.of_Z 1]; [F32.of_Z 1; F32.zero]]))).
Proof. vm_compute. reflexivity. Qed.

(** ** Where the tree sends the training pixels *)

Lemma walk_tree_S (fuel : nat) (nodes : list Node)
    (sample : UVPair -> float) (id : Z) :
  walk_tree (S fuel) nodes sample id
  = if Z.of_nat (length nodes) <=? id then Some Undefined
    else if node_label_pr_idx (node_at nodes id) =? 0
         then walk_tree fuel nodes sample
                (if F32.ltb (sample (node_uv (node_at nodes id)))
                            (node_t (node_at nodes id))
                 then to_uint32 (2 * id + 1) else to_uint32 (2 * id + 2))
         else Some (Ok id).
Proof. reflexivity. Qed.

(** More turns than the walk needs change nothing. *)
Lemma walk_tree_more (nodes : list Node) (sample : UVPair -> float) :
  forall (fuel : nat) (id : Z) (r : outcome Z),
    walk_tree fuel nodes sample id = Some r ->
    walk_tree (S fuel) nodes sample id = Some r.
Proof.
  induction fuel as [|fuel IH]; intros id r H; [discriminate H|].
  rewrite walk_tree_S in H. rewrite walk_tree_S.
  destruct (_ <=? id); [exact H|].
  destruct (_ =? 0); [|exact H].
  apply IH. exact H.
Qed.

Lemma walk_tree_fuel_le (nodes : list Node) (sample : UVPair -> float)
    (fuel fuel' : nat) (id : Z) (r : outcome Z) :
  (fuel <= fuel')%nat ->
  walk_tree fuel nodes sample id = Some r ->
  walk_tree fuel' nodes sample id = Some r.
Proof.
  induction 1 as [|fuel' _ IH]; intros H; [exact H|].
  apply walk_tree_more. apply IH. exact H.
Qed.

Section Walk.

Variables (nodes : list Node) (sample : UVPair -> float).

Hypothesis Hlen : Z.of_nat (length nodes) < 2 ^ 31.

(** The walk goes down one level a turn. *)
Lemma walk_tree_level :
  forall (fuel : nat) (level s d : Z),
    0 <= level -> on_level level s ->
    walk_tree fuel nodes sample s = Some (Ok d) ->
    exists level',
      level <= level' /\ on_level level' d
      /\ walk_tree (Z.to_nat (level' - level + 1)) nodes sample s
         = Some (Ok d).
Proof.
  induction fuel as [|fuel IH]; intros level s d Hl Hs H; [discriminate H|].
  rewrite walk_tree_S in H.
  destruct (Z.of_nat (length nodes) <=? s) eqn:EL; [discriminate H|].
  apply Z.leb_gt in EL.
  assert (S0 : 0 <= s).
  { destruct Hs as [Hs _].
    assert (0 < 2 ^ level) by (apply Z.pow_pos_nonneg; lia). lia. }
  destruct (node_label_pr_idx (node_at nodes s) =? 0) eqn:EZ.
  - destruct (children_on_next_level level s Hl Hs) as [C1 C2].
    rewrite (to_uint32_small (2 * s + 1)), (to_uint32_small (2 * s + 2))
      in H by lia.
    set (c := if F32.ltb _ _ then 2 * s + 1 else 2 * s + 2) in H.
    assert (Hc : on_level (level + 1) c)
      by (unfold c; destruct (F32.ltb _ _); assumption).
    destruct (IH (level + 1) c d ltac:(lia) Hc H) as (level' & L1 & L2 & W).
    exists level'. split; [lia|]. split; [exact L2|].
    replace (Z.to_nat (level' - level + 1))
      with (S (Z.to_nat (level' - (level + 1) + 1))) by lia.
    rewrite walk_tree_S.
    destruct (Z.leb_spec (Z.of_nat (length nodes)) s); [lia|].
    rewrite EZ.
    rewrite (to_uint32_small (2 * s + 1)), (to_uint32_small (2 * s + 2))
      by lia.
    exact W.
  - injection H as <-. exists level. split; [lia|]. split; [exact Hs|].
    replace (Z.to_nat (level - level + 1)) with 1%nat by lia.
    rewrite walk_tree_S.
    destruct (Z.leb_spec (Z.of_nat (length nodes)) s); [lia|].
    now rewrite EZ.
Qed.

(** The walk stops where it starts or below a split node. *)
Lemma walk_tree_parent :
  forall (fuel : nat) (s d : Z),
    0 <= s ->
    walk_tree fuel nodes sample s = Some (Ok d) ->
    d = s
    \/ exists p,
         0 <= p < Z.of_nat (length nodes)
         /\ node_label_pr_idx (node_at nodes p) = 0
         /\ (d = 2 * p + 1 \/ d = 2 * p + 2).
Proof.
  induction fuel as [|fuel IH]; intros s d S0 H; [discriminate H|].
  rewrite walk_tree_S in H.
  destruct (Z.leb_spec (Z.of_nat (length nodes)) s) as [|EL];
    [discriminate H|].
  destruct (Z.eqb_spec (node_label_pr_idx (node_at nodes s)) 0) as [EZ|NZ].
  - rewrite (to_uint32_small (2 * s + 1)), (to_uint32_small (2 * s + 2))
      in H by lia.
    right.
    destruct (F32.ltb _ _);
      (apply IH in H; [|lia]; destruct H as [->|H]; [|exact H]);
      exists s; auto.
  - injection H as <-. now left.
Qed.

Section Store.

Variables (id : Z) (node' : Node).

Hypothesis Hid : 0 <= id < Z.of_nat (length nodes).
Hypothesis Hold : node_label_pr_idx (node_at nodes id) <> 0.

Local Abbreviation nodes' := (store (Z.to_nat id) node' nodes).

Lemma node_at_store_same : node_at nodes' id = node'.
Proof. unfold node_at. apply store_nth_same. lia. Qed.

Lemma node_at_store_other (j : Z) :
  0 <= j -> j <> id -> node_at nodes' j = node_at nodes j.
Proof. intros Hj N. unfold node_at. apply store_nth_other. lia. Qed.

(** Writing a leaf or a mark over a node that was no split changes no
    walk. *)
Lemma walk_tree_store_leaf :
  node_label_pr_idx node' <> 0 ->
  forall (fuel : nat) (s : Z),
    0 <= s ->
    walk_tree fuel nodes' sample s = walk_tree fuel nodes sample s.
Proof.
  intros Hnew.
  induction fuel as [|fuel IH]; intros s S0; [reflexivity|].
  rewrite !walk_tree_S, store_length.
  destruct (_ <=? s); [reflexivity|].
  destruct (Z.eq_dec s id) as [->|N].
  - rewrite node_at_store_same.
    destruct (Z.eqb_spec (node_label_pr_idx node') 0); [contradiction|].
    destruct (Z.eqb_spec (node_label_pr_idx (node_at nodes id)) 0);
      [contradiction|reflexivity].
  - rewrite node_at_store_other by assumption.
    destruct (_ =? 0); [|reflexivity].
    apply IH. destruct (F32.ltb _ _); apply to_uint32_range.
Qed.

(** A walk that does not stop at the node written stops where it did. *)
Lemma walk_tree_store_other :
  forall (fuel : nat) (s d : Z),
    0 <= s ->
    walk_tree fuel nodes sample s = Some (Ok d) ->
    d <> id ->
    walk_tree fuel nodes' sample s = Some (Ok d).
Proof.
  induction fuel as [|fuel IH]; intros s d S0 H Hd; [discriminate H|].
  rewrite walk_tree_S in H. rewrite walk_tree_S, store_length.
  destruct (_ <=? s); [exact H|].
  destruct (Z.eq_dec s id) as [->|N].
  - destruct (Z.eqb_spec (node_label_pr_idx (node_at nodes id)) 0);
      [contradiction|].
    injection H as <-. contradiction.
  - rewrite node_at_store_other by assumption.
    destruct (_ =? 0); [|exact H].
    apply IH; [|exact H|exact Hd].
    destruct (F32.ltb _ _); apply to_uint32_range.
Qed.

(** A walk that stopped at the node written goes on, when a split is
    written, to the child its test names, and stops there when the child
    is no split. *)
Lemma walk_tree_store_split :
  node_label_pr_idx node' = 0 ->
  2 * id + 2 < Z.of_nat (length nodes) ->
  node_label_pr_idx (node_at nodes (2 * id + 1)) <> 0 ->
  node_label_pr_idx (node_at nodes (2 * id + 2)) <> 0 ->
  forall (fuel : nat) (s : Z),
    0 <= s ->
    walk_tree fuel nodes sample s = Some (Ok id) ->
    walk_tree (S fuel) nodes' sample s
    = Some (Ok (if F32.ltb (sample (node_uv node')) (node_t node')
                then 2 * id + 1 else 2 * id + 2)).
Proof.
  intros Hnew Hc N1 N2.
  assert (Child : forall c, id < c < Z.of_nat (length nodes) ->
                    node_label_pr_idx (node_at nodes c) <> 0 ->
                    walk_tree 1 nodes' sample c = Some (Ok c)).
  { intros c Hc' Nc. rewrite walk_tree_S, store_length.
    destruct (Z.leb_spec (Z.of_nat (length nodes)) c); [lia|].
    rewrite node_at_store_other by lia.
    destruct (Z.eqb_spec (node_label_pr_idx (node_at nodes c)) 0);
      [contradiction|reflexivity]. }
  induction fuel as [|fuel IH]; intros s S0 H; [discriminate H|].
  rewrite walk_tree_S in H. rewrite walk_tree_S, store_length.
  destruct (_ <=? s); [discriminate H|].
  destruct (Z.eq_dec s id) as [->|N].
  - rewrite node_at_store_same.
    destruct (Z.eqb_spec (node_label_pr_idx node') 0); [|contradiction].
    rewrite (to_uint32_small (2 * id + 1)), (to_uint32_small (2 * id + 2))
      by lia.
    apply (walk_tree_fuel_le _ _ 1); [lia|].
    destruct (F32.ltb _ _); apply Child; (lia || assumption).
  - rewrite node_at_store_other by assumption.
    destruct (Z.eqb_spec (node_label_pr_idx (node_at nodes s)) 0).
    + apply IH; [|exact H].
      match goal with
      | |- 0 <= (if ?b then _ else _) => destruct b
      end; apply to_uint32_range.
    + injection H as ->. contradiction.
Qed.

End Store.

End Walk.

(** *** The pixels of a node *)

(** Does the walk of the training pixel [px] down [nodes] stop at the
    node [id]? *)
Definition lands (ctx : TrainContext) (nodes : list Node) (px : Int3D)
    (id : Z) : bool :=
  match walk_tree (Z.to_nat (ctx_max_depth ctx)) nodes (pixel_sample ctx px)
                  0 with
  | Some (Ok leaf) => leaf =? id
  | _ => false
  end.

(** The histogram of the labels of a list of pixels, and its normalised
    form as [normalize_histogram] computes it. *)
Definition pixels_histogram (ctx : TrainContext) (pixels : list Int3D)
    : list Z :=
  map (fun l => count (has_label ctx (Z.of_nat l)) pixels)
      (seq 0 (Z.to_nat (ctx_n_labels ctx))).

Definition label_distribution (ctx : TrainContext) (pixels : list Int3D)
    : list float :=
  snd (normalize_histogram (pixels_histogram ctx pixels) (ctx_n_labels ctx)).

Lemma label_distribution_length (ctx : TrainContext)
    (pixels : list Int3D) :
  length (label_distribution ctx pixels) = Z.to_nat (ctx_n_labels ctx).
Proof.
  unfold label_distribution, normalize_histogram. cbn [snd].
  destruct (0 <? _).
  - now rewrite length_map, slice_length.
  - apply repeat_length.
Qed.

Fixpoint increasing (l : list Z) : Prop :=
  match l with
  | [] => True
  | x :: rest => (forall y, In y rest -> x < y) /\ increasing rest
  end.

Lemma increasing_app (l1 l2 : list Z) :
  increasing l1 -> increasing l2 ->
  (forall x y, In x l1 -> In y l2 -> x < y) ->
  increasing (l1 ++ l2).
Proof.
  induction l1 as [|x l1 IH]; cbn [app increasing]; intros H1 H2 H;
    [exact H2|].
  destruct H1 as [Hx H1]. split.
  - intros y Hy. apply in_app_or in Hy. destruct Hy as [Hy|Hy].
    + now apply Hx.
    + apply H; [now left|exact Hy].
  - apply IH; [exact H1|exact H2|].
    intros a b Ha Hb. apply H; [now right|exact Hb].
Qed.

Lemma filter_filter {A : Type} (f g : A -> bool) (l : list A) :
  filter f (filter g l) = filter (fun x => g x && f x) l.
Proof.
  induction l as [|x l IH]; cbn [filter]; [reflexivity|].
  destruct (g x); cbn [filter andb]; [|exact IH].
  destruct (f x); now rewrite IH.
Qed.

Lemma filter_length_le {A : Type} (f : A -> bool) (l : list A) :
  (length (filter f l) <= length l)%nat.
Proof.
  induction l as [|x l IH]; cbn [filter length]; [lia|].
  destruct (f x); cbn [length]; lia.
Qed.

(** After the second barrier the shared buffer holds the distribution
    of the labels of the pixels of the node, when the first worker was not
    interrupted while it counted them. *)
Lemma run_threads_distribution (log2f : float -> float)
    (ctx : TrainContext) (data : NodeTrainData) (n_threads : Z)
    (sig : nat -> Signals) (pub pub' : Published) :
  valid_run ctx data n_threads ->
  (forall p, in_accumulate (sig 0%nat) p = false) ->
  run_threads log2f ctx data n_threads sig pub = Ok pub' ->
  root_nhistogram pub' = label_distribution ctx (node_pixels data).
Proof.
  intros Hv Hq H.
  apply run_threads_root in H; [|apply (vr_threads _ _ _ Hv)].
  destruct H as (best & nh & H & ->).
  apply (thread_body_root_nhistogram log2f ctx data _ _ _ _ _ _
           (stripe_well_sized ctx data n_threads 0 Hv
              (conj (Z.le_refl 0) (vr_threads _ _ _ Hv)))
           (vr_pixels _ _ _ Hv) Hq H).
Qed.

Section Routing.

Variable ctx : TrainContext.
Variable n_threads : Z.
Variable root_pixels : list Int3D.

Local Abbreviation D := (ctx_max_depth ctx).
Local Abbreviation root_data :=
  (create_node_train_data root_pixels ctx 0 0 0 None).
Local Abbreviation root := (node_pixels root_data).

Hypothesis HD : 1 <= D <= 31.
Hypothesis Hvalid : valid_run ctx root_data n_threads.

(** What the loop keeps true of the pixels: the queue holds the nodes in
    the order of their ids, with the pixels of the root the tree sends to
    each, and every leaf has the distribution of the labels of the pixels
    the tree sends to it. *)
Record routed (st : Trainer) : Prop := {
  rt_sorted : increasing (map nd_id (train_queue st));
  rt_close : forall q q',
    In q (train_queue st) -> In q' (train_queue st) ->
    nd_id q' <= 2 * nd_id q;
  rt_fresh : forall q j,
    In q (train_queue st) -> nd_id q <= j < 2 ^ D - 1 ->
    label_idx st j = UINT32_MAX;
  rt_pixels : forall q,
    In q (train_queue st) ->
    0 <= nd_n_pixels q
    /\ node_pixels q
       = filter (fun px => lands ctx (tree st) px (nd_id q)) root;
  rt_tables : forall j,
    0 <= j < 2 ^ D - 1 ->
    label_idx st j <> 0 -> label_idx st j <> UINT32_MAX ->
    nth (Z.to_nat (label_idx st j - 1)) (tree_histograms st) []
    = label_distribution ctx
        (filter (fun px => lands ctx (tree st) px j) root);
  rt_sized :
    Forall (fun h => length h = Z.to_nat (ctx_n_labels ctx))
           (tree_histograms st)
}.

(** In a state of training every walk from the root stops in the tree
    array, at a node that is no split. *)
Lemma walk_training (st : Trainer) (sample : UVPair -> float) :
  training ctx st ->
  forall (fuel : nat) (level id : Z),
    0 <= level < D ->
    on_level level id ->
    D - level <= Z.of_nat fuel ->
    exists leaf,
      walk_tree fuel (tree st) sample id = Some (Ok leaf)
      /\ 0 <= leaf < 2 ^ D - 1
      /\ label_idx st leaf <> 0.
Proof.
  intros T. pose proof (pow_D_bounds ctx HD) as PD.
  induction fuel as [|fuel IH]; intros level id Hl Hid Hf; [lia|].
  pose proof (on_level_bounds ctx HD level id Hl Hid) as B.
  pose proof (tr_length ctx st T) as L.
  rewrite walk_tree_S.
  destruct (Z.leb_spec (Z.of_nat (length (tree st))) id) as [Hout|Hin];
    [lia|].
  change (node_at (tree st) id) with (tree_node (tree st) id).
  fold (label_idx st id).
  destruct (Z.eqb_spec (label_idx st id) 0) as [Ez|Nz].
  - destruct (tr_split ctx st T id B Ez) as (B2 & _).
    pose proof (split_level ctx HD level id ltac:(lia) Hid B2) as Hnext.
    destruct (children_on_next_level level id ltac:(lia) Hid) as [C1 C2].
    rewrite (to_uint32_small (2 * id + 1)), (to_uint32_small (2 * id + 2))
      by lia.
    destruct (F32.ltb _ _).
    + apply (IH (level + 1) (2 * id + 1)); try lia; auto.
    + apply (IH (level + 1) (2 * id + 2)); try lia; auto.
  - exists id. split; [reflexivity|]. split; [lia|exact Nz].
Qed.

Lemma lands_total (st : Trainer) (px : Int3D) :
  training ctx st ->
  exists d,
    walk_tree (Z.to_nat D) (tree st) (pixel_sample ctx px) 0 = Some (Ok d)
    /\ 0 <= d < 2 ^ D - 1
    /\ label_idx st d <> 0.
Proof.
  intros T.
  apply (walk_training st (pixel_sample ctx px) T (Z.to_nat D) 0 0);
    try lia.
  unfold on_level. cbn. lia.
Qed.

Lemma root_length : Z.of_nat (length root) <= 2 ^ 32 - 1.
Proof.
  unfold node_pixels. rewrite slice_length.
  cbn [create_node_train_data nd_n_pixels].
  pose proof (to_uint32_range (ctx_n_images ctx * ctx_n_pixels ctx)). lia.
Qed.

(** The nodes of the queue are nodes the workers can run on. *)
Lemma routed_valid_run (st : Trainer) (q : NodeTrainData) :
  routed st -> In q (train_queue st) -> valid_run ctx q n_threads.
Proof.
  intros R Hq. destruct (rt_pixels st R q Hq) as [Hn Hp].
  destruct Hvalid as [V1 V2 V3 V4 V5 V6 _].
  constructor; try assumption.
  split; [exact Hn|].
  assert (E : length (node_pixels q) = Z.to_nat (nd_n_pixels q))
    by apply slice_length.
  rewrite Hp in E.
  pose proof (filter_length_le
                (fun px => lands ctx (tree st) px (nd_id q)) root).
  pose proof root_length. lia.
Qed.

Lemma routed_fresh : routed (fresh_trainer ctx root_pixels).
Proof.
  pose proof (pow_D_bounds ctx HD) as PD.
  assert (Hin : forall id, 0 <= id < 2 ^ D - 1 ->
                  label_idx (fresh_trainer ctx root_pixels) id = UINT32_MAX).
  { intros id Hid. unfold label_idx, fresh_trainer, tree_node. cbn [tree].
    rewrite nth_repeat_lt; [reflexivity|].
    unfold n_tree_nodes. lia. }
  constructor; cbn [fresh_trainer train_queue tree_histograms].
  - cbn. split; [intros y []|exact I].
  - intros q q' [<-|[]] [<-|[]]. cbn. lia.
  - intros q j [<-|[]] Hj. cbn [create_node_train_data nd_id] in Hj.
    apply Hin. lia.
  - intros q [<-|[]]. split.
    + cbn [create_node_train_data nd_n_pixels]. apply to_uint32_range.
    + rewrite (filter_ext _ (fun _ => true)); [now rewrite filter_true|].
      intros px. unfold lands.
      destruct (lands_total (fresh_trainer ctx root_pixels) px
                  (fresh_training ctx HD root_pixels))
        as (d & W & B & N).
      cbn [fresh_trainer tree] in W |- *. rewrite W.
      cbn [create_node_train_data nd_id].
      assert (Hlen : Z.of_nat
                       (length (repeat (set_leaf default_node UINT32_MAX)
                                       (Z.to_nat (n_tree_nodes D))))
                     < 2 ^ 31)
        by (rewrite repeat_length; unfold n_tree_nodes; lia).
      apply (walk_tree_parent _ _ Hlen) in W; [|lia].
      destruct W as [->|(p & Hp & Ep & _)]; [reflexivity|].
      exfalso. rewrite repeat_length in Hp. unfold n_tree_nodes in Hp.
      specialize (Hin p ltac:(lia)).
      unfold label_idx, fresh_trainer, tree_node in Hin. cbn [tree] in Hin.
      unfold node_at in Ep. rewrite Hin in Ep. discriminate Ep.
  - intros j Hj _ N. now rewrite (Hin j Hj) in N.
  - constructor.
Qed.

Section Step.

Variables (st : Trainer) (data : NodeTrainData) (rest : list NodeTrainData).

Hypothesis T : training ctx st.
Hypothesis R : routed st.
Hypothesis Hq : train_queue st = data :: rest.

Local Abbreviation id := (nd_id data).

Lemma head_pending : pending ctx data.
Proof.
  pose proof (tr_queue ctx st T) as Q. rewrite Hq in Q.
  now inversion Q.
Qed.

Lemma head_bounds : 0 <= id < 2 ^ D - 1.
Proof.
  destruct head_pending as [Hd Hl].
  exact (on_level_bounds ctx HD _ _ Hd Hl).
Qed.

Lemma head_in_tree : 0 <= id < Z.of_nat (length (tree st)).
Proof. rewrite (tr_length ctx st T). exact head_bounds. Qed.

Lemma tree_length : Z.of_nat (length (tree st)) < 2 ^ 31.
Proof.
  rewrite (tr_length ctx st T). pose proof (pow_D_bounds ctx HD). lia.
Qed.

Lemma from_head_fresh (j : Z) :
  id <= j < 2 ^ D - 1 -> label_idx st j = UINT32_MAX.
Proof.
  intros Hj. apply (rt_fresh st R data); [|exact Hj].
  rewrite Hq. now left.
Qed.

Lemma head_unfinished : node_label_pr_idx (node_at (tree st) id) <> 0.
Proof.
  change (label_idx st id <> 0).
  rewrite from_head_fresh by (pose proof head_bounds; lia).
  discriminate.
Qed.

Lemma rest_after_head (q : NodeTrainData) :
  In q rest -> id < nd_id q <= 2 * id.
Proof.
  intros Hin. split.
  - pose proof (rt_sorted st R) as S. rewrite Hq in S.
    cbn [map increasing] in S. apply (proj1 S). now apply in_map.
  - apply (rt_close st R); rewrite Hq; [now left|now right].
Qed.

Lemma head_pixels :
  node_pixels data = filter (fun px => lands ctx (tree st) px id) root.
Proof. apply (rt_pixels st R). rewrite Hq. now left. Qed.

(** The head of the queue becomes a leaf. *)
Lemma routed_leaf (node' : Node) :
  node_label_pr_idx node' = n_histograms st + 1 ->
  routed (mkTrainer (store (Z.to_nat id) node' (tree st)) rest
                    (n_histograms st + 1)
                    (tree_histograms st
                     ++ [label_distribution ctx (node_pixels data)])).
Proof.
  intros Hidx.
  pose proof (pow_D_bounds ctx HD) as PD.
  pose proof head_bounds as Hid.
  pose proof (tr_count ctx st T) as C.
  set (st' := mkTrainer _ _ _ _).
  assert (Same : label_idx st' id = n_histograms st + 1).
  { unfold label_idx, tree_node, st'. cbn [tree].
    rewrite store_nth_same by (pose proof head_in_tree; lia).
    exact Hidx. }
  assert (Other : forall j, 0 <= j -> j <> id ->
                    label_idx st' j = label_idx st j).
  { intros j Hj N. unfold label_idx, tree_node, st'. cbn [tree].
    rewrite store_nth_other by lia. reflexivity. }
  assert (Lands : forall px j,
            lands ctx (tree st') px j = lands ctx (tree st) px j).
  { intros px j. unfold lands, st'. cbn [tree].
    rewrite (walk_tree_store_leaf (tree st) (pixel_sample ctx px) id node'
               head_in_tree head_unfinished); [reflexivity| |lia].
    rewrite Hidx. lia. }
  constructor; unfold st' at 1; cbn [train_queue tree_histograms].
  - pose proof (rt_sorted st R) as S. rewrite Hq in S. apply S.
  - intros q q' H1 H2. apply (rt_close st R); rewrite Hq; now right.
  - intros q j Hin Hj. pose proof (rest_after_head q Hin).
    rewrite Other by lia. apply from_head_fresh. lia.
  - intros q Hin.
    destruct (rt_pixels st R q) as [Hn Hp]; [rewrite Hq; now right|].
    split; [exact Hn|]. rewrite Hp. apply filter_ext. intros px.
    now rewrite Lands.
  - intros j Hj N0 NM.
    rewrite (filter_ext _ _ (fun px => Lands px j)).
    destruct (Z.eq_dec j id) as [->|N].
    + rewrite Same.
      replace (Z.to_nat (n_histograms st + 1 - 1))
        with (length (tree_histograms st)) by lia.
      unfold st'. cbn [tree_histograms].
      rewrite nth_middle. now rewrite head_pixels.
    + rewrite Other in * by lia.
      pose proof (tr_leaf ctx st T j Hj N0 NM) as K.
      unfold st'. cbn [tree_histograms].
      rewrite app_nth1 by lia.
      apply (rt_tables st R); assumption.
  - apply Forall_app. split; [exact (rt_sized st R)|].
    constructor; [apply label_distribution_length|constructor].
Qed.

(** The head of the queue becomes a split. *)
Lemma routed_split (uv : UVPair) (t : float) :
  nd_depth data + 1 < D ->
  let l_pixels := filter (left_of ctx uv t) (node_pixels data) in
  let r_pixels := filter (right_of ctx uv t) (node_pixels data) in
  routed (mkTrainer
            (store (Z.to_nat id)
                   (set_split (tree_node (tree st) id) uv t) (tree st))
            (rest ++
             [mkNodeData (2 * id + 1) (nd_depth data + 1)
                         (Z.of_nat (length l_pixels)) l_pixels;
              mkNodeData (2 * id + 2) (nd_depth data + 1)
                         (Z.of_nat (length r_pixels)) r_pixels])
            (n_histograms st) (tree_histograms st)).
Proof.
  intros Hdepth l_pixels r_pixels.
  pose proof (pow_D_bounds ctx HD) as PD.
  pose proof head_bounds as Hid.
  pose proof head_in_tree as Hin.
  pose proof tree_length as Hlen.
  pose proof (tr_length ctx st T) as L.
  destruct head_pending as [Hd Hl].
  destruct (children_on_next_level (nd_depth data) id ltac:(lia) Hl)
    as [C1 C2].
  pose proof (on_level_bounds ctx HD (nd_depth data + 1) _ ltac:(lia) C1) as B1.
  pose proof (on_level_bounds ctx HD (nd_depth data + 1) _ ltac:(lia) C2) as B2.
  set (node' := set_split (tree_node (tree st) id) uv t).
  set (queue' := rest ++ _).
  set (st' := mkTrainer _ _ _ _).
  assert (Same : label_idx st' id = 0).
  { unfold label_idx, tree_node, st'. cbn [tree].
    rewrite store_nth_same by lia. reflexivity. }
  assert (Other : forall j, 0 <= j -> j <> id ->
                    label_idx st' j = label_idx st j).
  { intros j Hj N. unfold label_idx, tree_node, st'. cbn [tree].
    rewrite store_nth_other by lia. reflexivity. }
  assert (F1 : node_label_pr_idx (node_at (tree st) (2 * id + 1)) <> 0).
  { change (label_idx st (2 * id + 1) <> 0).
    rewrite from_head_fresh by lia. discriminate. }
  assert (F2 : node_label_pr_idx (node_at (tree st) (2 * id + 2)) <> 0).
  { change (label_idx st (2 * id + 2) <> 0).
    rewrite from_head_fresh by lia. discriminate. }
  (* where the walks stop in the new tree *)
  assert (Walk : forall px,
            exists d,
              walk_tree (Z.to_nat D) (tree st) (pixel_sample ctx px) 0
              = Some (Ok d)
              /\ walk_tree (Z.to_nat D) (tree st') (pixel_sample ctx px) 0
                 = Some (Ok (if d =? id
                             then if left_of ctx uv t px
                                  then 2 * id + 1 else 2 * id + 2
                             else d))
              /\ (d <> id -> d <> 2 * id + 1 /\ d <> 2 * id + 2)).
  { intros px. destruct (lands_total st px T) as (d & W & B & N).
    exists d. split; [exact W|]. split.
    - destruct (Z.eqb_spec d id) as [->|Nd].
      + destruct (walk_tree_level (tree st) (pixel_sample ctx px) Hlen
                    _ 0 0 id ltac:(lia) ltac:(unfold on_level; cbn; lia) W)
          as (level & L0 & Lid & W').
        pose proof (split_level ctx HD level id L0 Lid ltac:(lia)) as Hlevel.
        apply (walk_tree_store_split (tree st) (pixel_sample ctx px) Hlen
                 id node' Hin eq_refl ltac:(lia) F1 F2)
          in W'; [|lia].
        apply (walk_tree_fuel_le _ _ (S (Z.to_nat (level - 0 + 1))));
          [lia|]. exact W'.
      + apply (walk_tree_store_other (tree st) (pixel_sample ctx px) id
                 node' Hin head_unfinished); [lia|exact W|exact Nd].
    - intros Nd.
      apply (walk_tree_parent (tree st) (pixel_sample ctx px) Hlen) in W;
        [|lia].
      destruct W as [->|(p & Hp & Ep & Hdp)]; [lia|].
      assert (p <> id).
      { intros ->. now apply head_unfinished. }
      lia. }
  assert (L1 : forall px,
            lands ctx (tree st') px (2 * id + 1)
            = lands ctx (tree st) px id && left_of ctx uv t px).
  { intros px. destruct (Walk px) as (d & W & W' & Nd).
    unfold lands. rewrite W, W'.
    destruct (Z.eqb_spec d id) as [->|N]; cbn [andb].
    - destruct (left_of ctx uv t px); lia.
    - destruct (Nd N). lia. }
  assert (L2 : forall px,
            lands ctx (tree st') px (2 * id + 2)
            = lands ctx (tree st) px id && right_of ctx uv t px).
  { intros px. destruct (Walk px) as (d & W & W' & Nd).
    unfold lands, right_of. rewrite W, W'.
    destruct (Z.eqb_spec d id) as [->|N]; cbn [andb].
    - destruct (left_of ctx uv t px); cbn [negb]; lia.
    - destruct (Nd N). lia. }
  assert (L3 : forall px j,
            j <> id -> j <> 2 * id + 1 -> j <> 2 * id + 2 ->
            lands ctx (tree st') px j = lands ctx (tree st) px j).
  { intros px j N0 N1 N2. destruct (Walk px) as (d & W & W' & Nd).
    unfold lands. rewrite W, W'.
    destruct (Z.eqb_spec d id) as [->|N]; [|reflexivity].
    destruct (left_of ctx uv t px); lia. }
  assert (Members : forall q,
            In q queue' ->
            In q rest
            \/ (nd_id q = 2 * id + 1
                /\ nd_n_pixels q = Z.of_nat (length l_pixels)
                /\ nd_pixels q = l_pixels)
            \/ (nd_id q = 2 * id + 2
                /\ nd_n_pixels q = Z.of_nat (length r_pixels)
                /\ nd_pixels q = r_pixels)).
  { intros q Hq'. unfold queue' in Hq'. apply in_app_or in Hq'.
    destruct Hq' as [Hq'|[<-|[<-|[]]]]; auto. }
  assert (After : forall q, In q queue' -> id < nd_id q <= 2 * id + 2).
  { intros q Hq'. destruct (Members q Hq') as [M|[(M & _)|(M & _)]];
      [pose proof (rest_after_head q M)|..]; lia. }
  constructor;
    try change (train_queue st') with queue';
    try change (tree_histograms st') with (tree_histograms st).
  - unfold queue'. rewrite map_app. apply increasing_app.
    + pose proof (rt_sorted st R) as S. rewrite Hq in S. apply S.
    + cbn [map nd_id increasing]. split; [|split; [|exact I]].
      * intros y [<-|[]]. lia.
      * intros y [].
    + intros x y Hx Hy. apply in_map_iff in Hx.
      destruct Hx as (q & <- & Hx). pose proof (rest_after_head q Hx).
      cbn [map nd_id In] in Hy. destruct Hy as [<-|[<-|[]]]; lia.
  - intros q q' H1 H2.
    destruct (Members q H1) as [M|[(M & _)|(M & _)]];
      destruct (Members q' H2) as [M'|[(M' & _)|(M' & _)]];
      try pose proof (rest_after_head q M);
      try pose proof (rest_after_head q' M');
      lia.
  - intros q j H1 Hj. pose proof (After q H1).
    rewrite Other by lia. apply from_head_fresh. lia.
  - intros q H1.
    destruct (Members q H1) as [M|[(M & Mn & Mp)|(M & Mn & Mp)]].
    + destruct (rt_pixels st R q) as [Hn Hp]; [rewrite Hq; now right|].
      split; [exact Hn|]. rewrite Hp. apply filter_ext. intros px.
      pose proof (rest_after_head q M). symmetry. apply L3; lia.
    + split; [lia|]. unfold node_pixels. rewrite Mn, Mp, slice_all, M.
      unfold l_pixels. rewrite head_pixels, filter_filter.
      apply filter_ext. intros px. now rewrite L1.
    + split; [lia|]. unfold node_pixels. rewrite Mn, Mp, slice_all, M.
      unfold r_pixels. rewrite head_pixels, filter_filter.
      apply filter_ext. intros px. now rewrite L2.
  - intros j Hj N0 NM.
    assert (j <> id) by (intros ->; now rewrite Same in N0).
    rewrite Other in * by lia.
    assert (j <> 2 * id + 1)
      by (intros ->; apply NM; apply from_head_fresh; lia).
    assert (j <> 2 * id + 2)
      by (intros ->; apply NM; apply from_head_fresh; lia).
    rewrite (filter_ext _ _ (fun px => L3 px j ltac:(assumption)
                                          ltac:(assumption)
                                          ltac:(assumption))).
    apply (rt_tables st R); assumption.
  - exact (rt_sized st R).
Qed.

End Step.

Section Loop.

Variable log2f : float -> float.
Variable sigs : nat -> nat -> Signals.
Variable interrupted : nat -> bool.

Hypothesis Hquiet : forall k p, in_accumulate (sigs k 0%nat) p = false.

(** A turn of the loop keeps the pixels routed. *)
Lemma train_iteration_routed (k : nat) (b : bool) (pub pub' : Published)
    (st st' : Trainer) :
  training ctx st -> routed st ->
  train_iteration log2f ctx n_threads (sigs k) b pub st
  = Ok (Some (st', pub')) ->
  routed st'.
Proof.
  intros T R H. pose proof (pow_D_bounds ctx HD) as PD.
  destruct (train_queue st) as [|data rest] eqn:Hq.
  { unfold train_iteration in H. rewrite Hq in H. discriminate H. }
  unfold train_iteration in H. rewrite Hq in H.
  destruct (run_threads _ _ _ _ _ _) as [pub1| |] eqn:Hrun; cbn [bind] in H;
    try discriminate.
  apply (run_threads_distribution log2f ctx data n_threads (sigs k) pub pub1)
    in Hrun; [|apply (routed_valid_run st); [exact R|rewrite Hq; now left]
              |apply Hquiet].
  destruct (head_pending st data rest T Hq) as [Hd Hl].
  pose proof (head_bounds st data rest T Hq) as Hid.
  pose proof (tr_queue ctx st T) as Q. rewrite Hq in Q.
  inversion Q as [|? ? Hdata Hrest]; subst.
  pose proof (pending_cost ctx data Hdata) as Hcost.
  pose proof (potential_nonneg ctx rest Hrest) as Hnn.
  pose proof (tr_potential ctx st T) as P.
  rewrite Hq, (potential_cons ctx) in P.
  pose proof (tr_count ctx st T) as C.
  destruct (train_node_cases ctx n_threads b pub1 pub' st st' data rest Hq H)
    as [->|(Hdepth & uv & t & ->)].
  - rewrite (to_uint32_small (n_histograms st + 1)) by lia.
    rewrite Hrun.
    apply (routed_leaf st data rest T R Hq). reflexivity.
  - rewrite (to_uint32_small (nd_depth data + 1)) in * by lia.
    destruct (children_on_next_level (nd_depth data) (nd_id data)
                ltac:(lia) Hl) as [C1 C2].
    pose proof (on_level_bounds ctx HD (nd_depth data + 1) _ ltac:(lia) C1).
    pose proof (on_level_bounds ctx HD (nd_depth data + 1) _ ltac:(lia) C2).
    rewrite (to_uint32_small (2 * nd_id data + 1)) by lia.
    replace (2 * nd_id data + 1 + 1) with (2 * nd_id data + 2) by lia.
    rewrite (to_uint32_small (2 * nd_id data + 2)) by lia.
    apply (routed_split st data rest T R Hq uv t Hdepth).
Qed.


End Loop.

End Routing.

(** ** What training leaves in the leaves *)



(** ** From training to inference *)

(** The tree [main] hands to [save_tree]: the header, the tree array and
    the leaf histograms copied one after the other, [n_labels] floats
    each. *)
Definition flatten_tables (n_labels : Z) (histograms : list (list float))
    : list float :=
  flat_map (fun h => slice F32.zero h 0 n_labels) histograms.

Definition trained_tree (ctx : TrainContext) (st : Trainer) : RDTree :=
  mkTree (mkHeader (ctx_max_depth ctx) (ctx_n_labels ctx) (ctx_fov ctx))
         (tree st)
         (Z.of_nat (length (tree_histograms st)))
         (flatten_tables (ctx_n_labels ctx) (tree_histograms st)).








(** The state the training loop ends in on the demonstration problem. *)
Definition demo_trained : Trainer :=
  mkTrainer demo_nodes [] 2 [[F32.zero; F32.of_Z 1]; [F32.of_Z 1; F32.zero]].


(** On the demonstration problem the pixel (0, 0) of the second image,
    of label 0, ends in the right leaf, whose table gives label 0 the
    probability 1. *)
Example demo_inference :
  walk_tree 2 demo_nodes (half_sample (training_image demo_ctx 1) 2 1 0 0) 0
  = Some (Ok 2)
  /\ leaf_table (trained_tree demo_ctx demo_trained) 2 2
     = Ok [F32.of_Z 1; F32.zero].
Proof. split; vm_compute; reflexivity. Qed.

(** ** Training stays within what C defines *)

(** The ways a run of the model can go: on, or out through the label
    check; not into a write past a buffer or through a null pointer. *)
Definition defined {A : Type} (ctx : TrainContext) (r : outcome A) : Prop :=
  match r with
  | Ok _ => True
  | Exit code m =>
      code = 1
      /\ exists label,
           m = LabelTooBig label (to_uint32 (ctx_n_labels ctx - 1))
  | Undefined => False
  end.

Lemma accumulate_loop_defined (ctx : TrainContext) (data : NodeTrainData)
    (c_start c_end : Z) (interrupted : nat -> bool) :
  forall (pixels : list Int3D) (p : nat) (hs : list Z * list Z),
    defined ctx (accumulate_loop ctx data c_start c_end interrupted p
                                 pixels hs).
Proof.
  induction pixels as [|px rest IH]; intros p hs; cbn [accumulate_loop];
    [exact I|].
  destruct (interrupted p); [exact I|].
  destruct (label_fits ctx px) eqn:F.
  - destruct (accumulate_pixel_fits ctx data c_start c_end px hs F)
      as [hs1 ->].
    cbn [bind]. apply IH.
  - rewrite (accumulate_pixel_too_big ctx data c_start c_end px hs F).
    cbn [bind defined]. eauto.
Qed.

Lemma thread_body_defined (log2f : float -> float) (ctx : TrainContext)
    (data : NodeTrainData) (c_start c_end : Z) (sig : Signals)
    (previous : ThreadBest) :
  defined ctx (thread_body log2f ctx data c_start c_end sig previous).
Proof.
  rewrite thread_body_unfold. unfold accumulate_histograms.
  pose proof (accumulate_loop_defined ctx data c_start c_end
                (in_accumulate sig) (node_pixels data) 0
                (cleared_root ctx, cleared_lr ctx c_start c_end)) as H.
  destruct (accumulate_loop _ _ _ _ _ _ _ _) as [hs| |]; cbn [bind];
    [|exact H|exact H].
  cbv zeta. now destruct (_ && _).
Qed.

(** What a pass of a worker publishes: its slot with gain 0, or a
    candidate with a positive gain and the sizes of its two sides among
    the pixels the pass has counted. *)
Lemma thread_body_best (log2f : float -> float) (ctx : TrainContext)
    (data : NodeTrainData) (c_start c_end : Z) (sig : Signals)
    (previous best : ThreadBest) (nhistogram : list float) :
  well_sized ctx c_start c_end ->
  0 <= nd_n_pixels data <= 2 ^ 32 - 1 ->
  thread_body log2f ctx data c_start c_end sig previous
  = Ok (best, nhistogram) ->
  let ps := processed (in_accumulate sig) 0 (node_pixels data) in
  best_gain best = F32.zero
  \/ (F32.ltb F32.zero (best_gain best) = true
      /\ n_lr_pixels best
         = (count (goes_left ctx (best_uv best, best_t best)) ps,
            count (goes_right ctx (best_uv best, best_t best)) ps)).
Proof.
  intros Hws Hpix H ps. rewrite thread_body_unfold in H.
  destruct (accumulate_histograms _ _ _ _ _ _ _) as [[root lr]| |] eqn:Hacc;
    cbn [bind] in H; try discriminate.
  assert (Hc : counted ctx data c_start c_end ps (root, lr))
    by (apply accumulate_histograms_counted; assumption).
  assert (Hps : Z.of_nat (length ps) <= 2 ^ 32 - 1).
  { pose proof (processed_length (in_accumulate sig) 0 (node_pixels data)).
    unfold ps, node_pixels in *. rewrite slice_length in *. lia. }
  cbv zeta in H. cbn [fst snd] in H.
  destruct ((1 <? _) && (nd_depth data <? _)) eqn:G.
  - apply andb_true_iff in G. destruct G as [_ Hdeep].
    apply Z.ltb_lt in Hdeep.
    injection H as H _.
    set (cands := candidates ctx c_start c_end).
    assert (S : best = mkBest F32.zero (best_uv previous) (best_t previous)
                              (n_lr_pixels previous)
                \/ (F32.ltb F32.zero (best_gain best) = true
                    /\ exists k,
                         (k < length cands)%nat
                         /\ (best_uv best, best_t best) = nth k cands (0, 0)
                         /\ ~ trivial_split ctx ps (nth k cands (0, 0))
                         /\ n_lr_pixels best
                            = (count (goes_left ctx (nth k cands (0, 0))) ps,
                               count (goes_right ctx (nth k cands (0, 0)))
                                     ps))).
    { rewrite <- H.
      apply (search_loop_searched log2f ctx data c_start c_end ps
               root lr Hws Hps Hdeep Hc _ _
               (mkBest F32.zero (best_uv previous) (best_t previous)
                       (n_lr_pixels previous))
               eq_refl (candidates ctx c_start c_end) 0%nat).
      - reflexivity.
      - now left. }
    destruct S as [->|(Hpos & k & _ & Hk & _ & Hn)]; [now left|].
    right. split; [exact Hpos|]. now rewrite Hk.
  - injection H as <- _. now left.
Qed.

(** *** The slots of the workers *)

(** The arrays the workers publish into have a slot for each. *)
Record published_sized (n : nat) (pub : Published) : Prop := {
  ps_gains : length (best_gains pub) = n;
  ps_uvs : length (best_uvs pub) = n;
  ps_ts : length (best_ts pub) = n;
  ps_n_lr : length (all_n_lr_pixels pub) = (2 * n)%nat
}.

Lemma publish_sized (n : nat) (pub : Published) (i : nat)
    (best : ThreadBest) (nhistogram : list float) :
  published_sized n pub ->
  published_sized n (publish pub i best nhistogram).
Proof.
  intros [H1 H2 H3 H4]. constructor; cbn [publish best_gains best_uvs
    best_ts all_n_lr_pixels]; rewrite ?store_length; assumption.
Qed.

Lemma published_by_publish_same (n : nat) (pub : Published) (i : nat)
    (best : ThreadBest) (nhistogram : list float) :
  published_sized n pub -> (i < n)%nat ->
  published_by (publish pub i best nhistogram) i = best.
Proof.
  intros [H1 H2 H3 H4] Hi. unfold published_by, publish.
  cbn [best_gains best_uvs best_ts all_n_lr_pixels].
  rewrite !store_nth_same by lia.
  rewrite (store_nth_other (2 * i + 1) (2 * i)) by lia.
  rewrite !store_nth_same by (rewrite ?store_length; lia).
  now destruct best as [g u t [a b]].
Qed.

Lemma published_by_publish_other (pub : Published) (i j : nat)
    (best : ThreadBest) (nhistogram : list float) :
  j <> i ->
  published_by (publish pub i best nhistogram) j = published_by pub j.
Proof.
  intros N. unfold published_by, publish.
  cbn [best_gains best_uvs best_ts all_n_lr_pixels].
  now rewrite !store_nth_other by lia.
Qed.

Section Slots.

Variable log2f : float -> float.
Variables (ctx : TrainContext) (data : NodeTrainData) (n_threads : Z).
Variable sig : nat -> Signals.
Variable pub : Published.

Hypothesis Hsized : published_sized (Z.to_nat n_threads) pub.

Local Abbreviation step :=
  (fun (acc : outcome Published) (i : nat) =>
     pub <- acc ;; run_thread log2f ctx data n_threads sig pub i).

Lemma run_threads_prefix :
  forall (m : nat) (pubm : Published),
    fold_left step (seq 0 m) (Ok pub) = Ok pubm ->
    published_sized (Z.to_nat n_threads) pubm
    /\ (forall i,
          (i < m)%nat -> (i < Z.to_nat n_threads)%nat ->
          exists best nhistogram,
            thread_body log2f ctx data
              (fst (stripe ctx n_threads (Z.of_nat i)))
              (snd (stripe ctx n_threads (Z.of_nat i)))
              (sig i) (published_by pub i)
            = Ok (best, nhistogram)
            /\ published_by pubm i = best)
    /\ (forall j, (m <= j)%nat -> published_by pubm j = published_by pub j).
Proof.
  induction m as [|m IH]; intros pubm H.
  - cbn in H. injection H as <-. split; [exact Hsized|].
    split; [intros i Hi; lia|reflexivity].
  - rewrite seq_S, fold_left_app in H. cbn [fold_left Nat.add] in H.
    destruct (fold_left _ (seq 0 m) (Ok pub)) as [pub0| |] eqn:F;
      cbn [bind] in H; try discriminate.
    destruct (IH pub0 eq_refl) as (S0 & Done & Rest).
    unfold run_thread in H.
    destruct (stripe ctx n_threads (Z.of_nat m)) as [c_start c_end] eqn:St.
    destruct (thread_body _ _ _ _ _ _ _) as [[best nh]| |] eqn:TB;
      cbn [bind] in H; try discriminate.
    injection H as <-.
    split; [now apply publish_sized|]. split.
    + intros i Hi Hn. destruct (Nat.eq_dec i m) as [->|N].
      * exists best, nh. rewrite St. cbn [fst snd].
        rewrite <- (Rest m (Nat.le_refl m)).
        split; [exact TB|].
        now apply (published_by_publish_same (Z.to_nat n_threads)).
      * destruct (Done i ltac:(lia) Hn) as (b & h & Hb & Hp).
        exists b, h. split; [exact Hb|].
        now rewrite published_by_publish_other.
    + intros j Hj. rewrite published_by_publish_other by lia.
      apply Rest. lia.
Qed.

Lemma run_threads_defined :
  defined ctx (run_threads log2f ctx data n_threads sig pub).
Proof.
  unfold run_threads.
  assert (G : forall l acc, defined ctx acc ->
                defined ctx (fold_left step l acc)).
  { induction l as [|i l IH]; intros acc Ha; [exact Ha|].
    cbn [fold_left]. apply IH.
    destruct acc as [p| |]; cbn [bind]; try exact Ha.
    unfold run_thread. destruct (stripe _ _ _) as [c_start c_end].
    pose proof (thread_body_defined log2f ctx data c_start c_end (sig i)
                  (published_by p i)) as T.
    destruct (thread_body _ _ _ _ _ _ _) as [[best nh]| |];
      cbn [bind]; [exact I|exact T|exact T]. }
  apply G. exact I.
Qed.

Hypothesis Hvalid : valid_run ctx data n_threads.
Hypothesis Hquiet : forall i p, in_accumulate (sig i) p = false.

(** After the second barrier, a slot with a positive gain holds the
    sizes of the children of the node for the candidate of the slot. *)
Lemma run_threads_slots (pub' : Published) (w : nat) :
  run_threads log2f ctx data n_threads sig pub = Ok pub' ->
  (w < Z.to_nat n_threads)%nat ->
  F32.ltb F32.zero (best_gain (published_by pub' w)) = true ->
  let b := published_by pub' w in
  let uv := nth (Z.to_nat (best_uv b)) (ctx_uvs ctx) default_uv in
  let t := nth (Z.to_nat (best_t b)) (ctx_ts ctx) F32.zero in
  n_lr_pixels b
  = (Z.of_nat (length (filter (left_of ctx uv t) (node_pixels data))),
     Z.of_nat (length (filter (right_of ctx uv t) (node_pixels data)))).
Proof.
  intros H Hw Hpos.
  destruct (run_threads_prefix _ _ H) as (_ & Done & _).
  destruct (Done w Hw Hw) as (best & nh & TB & Hb).
  rewrite Hb in Hpos |- *. clear Hb.
  apply thread_body_best in TB.
  - cbv zeta in TB. destruct TB as [Z0|[_ Hn]].
    + rewrite Z0 in Hpos. now rewrite ltb_irrefl in Hpos.
    + cbv zeta. rewrite Hn.
      replace (processed (in_accumulate (sig w)) 0 (node_pixels data))
        with (node_pixels data); [reflexivity|].
      rewrite <- (processed_quiet 0 (node_pixels data)) at 1.
      generalize (node_pixels data), 0%nat.
      induction l as [|px rest IH]; intros p; cbn [processed];
        [reflexivity|].
      now rewrite Hquiet, IH.
  - apply (stripe_well_sized ctx data n_threads (Z.of_nat w) Hvalid). lia.
  - apply (vr_pixels _ _ _ Hvalid).
Qed.

End Slots.

(** With hints that are the sizes of the children, [collect_pixels]
    fills the buffers exactly. *)
Lemma collect_pixels_exact (ctx : TrainContext) (data : NodeTrainData)
    (uv : UVPair) (t : float) :
  0 <= nd_n_pixels data ->
  let l_pixels := filter (left_of ctx uv t) (node_pixels data) in
  let r_pixels := filter (right_of ctx uv t) (node_pixels data) in
  collect_pixels ctx data uv t
    (Z.of_nat (length l_pixels), Z.of_nat (length r_pixels))
  = Ok (l_pixels, r_pixels,
        (Z.of_nat (length l_pixels), Z.of_nat (length r_pixels))).
Proof.
  intros Hn l_pixels r_pixels.
  assert (Hsum : (length l_pixels + length r_pixels
                  = Z.to_nat (nd_n_pixels data))%nat).
  { unfold l_pixels, r_pixels. rewrite filter_left_right.
    unfold node_pixels. apply slice_length. }
  unfold collect_pixels. cbn [fst snd].
  rewrite (collect_loop_filter ctx uv t).
  - cbn [bind app]. fold l_pixels r_pixels. now rewrite !Z.eqb_refl.
  - cbn [length Nat.add]. fold l_pixels. unfold child_capacity.
    destruct (Z.eqb_spec (Z.of_nat (length l_pixels)) 0); lia.
  - cbn [length Nat.add]. fold r_pixels. unfold child_capacity.
    destruct (Z.eqb_spec (Z.of_nat (length r_pixels)) 0); lia.
Qed.

(** The coordinator, given slots the workers have just filled. *)
Lemma train_node_defined (ctx : TrainContext) (n_threads : Z) (b : bool)
    (pub : Published) (st : Trainer) (data : NodeTrainData)
    (rest : list NodeTrainData) :
  train_queue st = data :: rest ->
  0 <= nd_n_pixels data ->
  published_sized (Z.to_nat n_threads) pub ->
  (forall w,
     (w < Z.to_nat n_threads)%nat ->
     F32.ltb F32.zero (best_gain (published_by pub w)) = true ->
     let s := published_by pub w in
     let uv := nth (Z.to_nat (best_uv s)) (ctx_uvs ctx) default_uv in
     let t := nth (Z.to_nat (best_t s)) (ctx_ts ctx) F32.zero in
     n_lr_pixels s
     = (Z.of_nat (length (filter (left_of ctx uv t) (node_pixels data))),
        Z.of_nat (length (filter (right_of ctx uv t) (node_pixels data))))) ->
  train_node ctx n_threads b pub st = Ok None
  \/ exists st' pub',
       train_node ctx n_threads b pub st = Ok (Some (st', pub'))
       /\ published_sized (Z.to_nat n_threads) pub'.
Proof.
  intros Hq Hn Hs Hslots. unfold train_node. rewrite Hq.
  destruct b; [now left|]. right.
  pose proof (best_of_threads_reduced n_threads pub) as R.
  destruct (best_of_threads n_threads pub) as [[[g u] t] [w|]];
    unfold reduced in R.
  - destruct R as (Hw & -> & -> & -> & Hpos & _).
    destruct (_ && _); [|eauto].
    specialize (Hslots w Hw Hpos). cbv zeta in Hslots.
    cbn [published_by best_uv best_t] in Hslots.
    rewrite Hslots, collect_pixels_exact by exact Hn.
    cbn [bind]. eexists. eexists. split; [reflexivity|].
    destruct Hs as [H1 H2 H3 H4].
    constructor; cbn [best_gains best_uvs best_ts all_n_lr_pixels];
      rewrite ?store_length; assumption.
  - destruct R as (-> & _). rewrite ltb_irrefl. cbn [andb]. eauto.
Qed.

Section Safe.

Variable log2f : float -> float.
Variable ctx : TrainContext.
Variable n_threads : Z.
Variable root_pixels : list Int3D.
Variable sigs : nat -> nat -> Signals.
Variable interrupted : nat -> bool.

Hypothesis HD : 1 <= ctx_max_depth ctx <= 31.
Hypothesis Hvalid :
  valid_run ctx (create_node_train_data root_pixels ctx 0 0 0 None)
            n_threads.
Hypothesis Hquiet : forall k i p, in_accumulate (sigs k i) p = false.

Lemma train_iteration_defined (k : nat) (b : bool) (pub : Published)
    (st : Trainer) :
  training ctx st -> routed ctx root_pixels st ->
  published_sized (Z.to_nat n_threads) pub ->
  match train_iteration log2f ctx n_threads (sigs k) b pub st with
  | Ok (Some (_, pub')) => published_sized (Z.to_nat n_threads) pub'
  | r => defined ctx r
  end.
Proof.
  intros T R Hs. unfold train_iteration.
  destruct (train_queue st) as [|data rest] eqn:Hq; [exact I|].
  assert (Hv : valid_run ctx data n_threads).
  { apply (routed_valid_run ctx n_threads root_pixels Hvalid st data R).
    rewrite Hq. now left. }
  pose proof (run_threads_defined log2f ctx data n_threads (sigs k) pub)
    as Hrun.
  destruct (run_threads _ _ _ _ _ _) as [pub1| |] eqn:Erun; cbn [bind];
    [|exact Hrun|exact Hrun].
  destruct (run_threads_prefix log2f ctx data n_threads (sigs k) pub Hs
              _ pub1 Erun) as (Hs1 & _).
  destruct (train_node_defined ctx n_threads b pub1 st data rest Hq
              (proj1 (vr_pixels _ _ _ Hv)) Hs1) as [->|(st' & pub' & -> & S')].
  - intros w Hw Hpos.
    apply (run_threads_slots log2f ctx data n_threads (sigs k) pub Hs Hv
             (Hquiet k) pub1 w Erun Hw Hpos).
  - exact I.
  - exact S'.
Qed.

Lemma train_loop_defined (at_ready : nat -> nat -> bool) (fuel : nat) :
  never_at_ready at_ready ->
  forall (k : nat) (pub : Published) (st : Trainer) (r : outcome Trainer),
    training ctx st -> routed ctx root_pixels st ->
    published_sized (Z.to_nat n_threads) pub ->
    train_loop fuel log2f ctx n_threads at_ready sigs interrupted k pub st
    = Some (Ended r) ->
    defined ctx r.
Proof.
  intros Hstay.
  induction fuel as [|fuel IH]; intros k pub st r T R Hs H;
    destruct (train_queue st) as [|data rest] eqn:Hq;
    cbn [train_loop] in H; rewrite Hq in H; try discriminate.
  - now injection H as <-.
  - now injection H as <-.
  - rewrite (all_stay_never n_threads at_ready k Hstay) in H.
    pose proof (train_iteration_defined k (interrupted k) pub st T R Hs)
      as D.
    destruct (train_iteration _ _ _ _ _ _ _) as [[[st1 pub1]|]| |] eqn:E.
    + apply (IH (S k) pub1 st1 r); try assumption.
      * exact (proj1 (train_iteration_training ctx HD _ _ _ _ _ _ _ _ T E)).
      * exact (train_iteration_routed ctx n_threads root_pixels HD Hvalid
                 log2f sigs (fun k p => Hquiet k 0%nat p) _ _ _ _ _ _ T R E).
    + now injection H as <-.
    + now injection H as <-.
    + now injection H as <-.
Qed.

End Safe.

(** What [main] has loaded and drawn can be read where the loops read
    it: the tables of uv combinations and thresholds have the sizes the
    context says, the arrays of label and depth images hold [n_images]
    images, all at places below [2^32], and the pixels drawn for the root
    are as many as the root says and lie in these images. *)
Record readable (ctx : TrainContext) (root_pixels : list Int3D) : Prop := {
  rd_uvs : Z.of_nat (length (ctx_uvs ctx)) = ctx_n_uv ctx;
  rd_ts : Z.of_nat (length (ctx_ts ctx)) = ctx_n_t ctx;
  rd_width : 0 <= ctx_width ctx;
  rd_height : 0 <= ctx_height ctx;
  rd_place : ctx_n_images ctx * ctx_width ctx * ctx_height ctx <= 2 ^ 32;
  rd_labels : ctx_n_images ctx * ctx_width ctx * ctx_height ctx
              <= Z.of_nat (length (ctx_label_images ctx));
  rd_depths : ctx_n_images ctx * ctx_width ctx * ctx_height ctx
              <= Z.of_nat (length (ctx_depth_images ctx));
  rd_root : to_uint32 (ctx_n_images ctx * ctx_n_pixels ctx)
            <= Z.of_nat (length root_pixels);
  rd_pixels :
    Forall (fun px => 0 <= fst (px_xy px) < ctx_width ctx
                      /\ 0 <= snd (px_xy px) < ctx_height ctx
                      /\ 0 <= px_i px < ctx_n_images ctx)
           root_pixels
}.

(** When what [main] has loaded can be read, the arrays of the workers
    have a slot for each, no worker reads the interrupt flag set as it
    comes out of [ready_barrier] and none is interrupted while it counts,
    [main] gets out of the training loop started on a fresh tree within
    [2^max_depth - 1] turns, and it does so with a state to save or
    through the label check of the histogram engine, which ends the
    program: [collect_pixels] never writes past the buffers it sizes from
    the counts of the winning worker, stale as the slots of the other
    workers may be, and the coordinator never follows a null
    [n_lr_pixels]. The flag may be set during the search of the workers
    and when the coordinator reads it. *)
Theorem training_is_defined (log2f : float -> float) (ctx : TrainContext)
    (n_threads : Z) (at_ready : nat -> nat -> bool)
    (sigs : nat -> nat -> Signals) (interrupted : nat -> bool)
    (pub : Published) (root_pixels : list Int3D) (fuel : nat) :
  1 <= ctx_max_depth ctx <= 31 ->
  valid_run ctx (create_node_train_data root_pixels ctx 0 0 0 None)
            n_threads ->
  readable ctx root_pixels ->
  published_sized (Z.to_nat n_threads) pub ->
  (forall k i, at_ready k i = false) ->
  (forall k i p, in_accumulate (sigs k i) p = false) ->
  n_tree_nodes (ctx_max_depth ctx) <= Z.of_nat fuel ->
  (exists st,
     train_loop fuel log2f ctx n_threads at_ready sigs interrupted 0 pub
                (fresh_trainer ctx root_pixels)
     = Some (Ended (Ok st)))
  \/ (exists label,
        train_loop fuel log2f ctx n_threads at_ready sigs interrupted 0 pub
                   (fresh_trainer ctx root_pixels)
        = Some (Ended (Exit 1 (LabelTooBig
                                 label
                                 (to_uint32 (ctx_n_labels ctx - 1)))))).
Proof.
  intros HD Hv _ Hs Hstay Hquiet Hf.
  pose proof (fresh_training ctx HD root_pixels) as T.
  pose proof (routed_fresh ctx root_pixels HD) as R.
  destruct (train_loop_total ctx HD log2f n_threads at_ready sigs interrupted
              fuel 0 pub _ T) as (result & E & U).
  { pose proof (tr_potential _ _ T) as P.
    cbn [fresh_trainer n_histograms] in P. unfold n_tree_nodes in Hf.
    cbn [fresh_trainer train_queue] in *. lia. }
  destruct (U Hstay) as [r ->].
  pose proof (train_loop_defined log2f ctx n_threads root_pixels sigs
                interrupted HD Hv Hquiet at_ready fuel Hstay 0 pub _ r T R Hs
                E) as D.
  rewrite E. destruct r as [st|code m|]; cbn [defined] in D.
  - left. eauto.
  - right. destruct D as (-> & label & ->). eauto.
  - destruct D.
Qed.

Lemma demo_published_sized : published_sized 2 demo_published.
Proof. constructor; reflexivity. Defined.

Lemma demo_readable : readable demo_ctx demo_pixels.
Proof.
  constructor; cbn; try lia.
  repeat (apply Forall_cons; [cbn; lia|]). apply Forall_nil.
Defined.

Lemma training_is_defined_witness :
  (exists st,
     train_loop 3 log2_of_power demo_ctx 2 (fun _ _ => false)
                (fun _ _ => quiet) (fun _ => false) 0 demo_published
                (fresh_trainer demo_ctx demo_pixels)
     = Some (Ended (Ok st)))
  \/ (exists label,
        train_loop 3 log2_of_power demo_ctx 2 (fun _ _ => false)
                   (fun _ _ => quiet) (fun _ => false) 0 demo_published
                   (fresh_trainer demo_ctx demo_pixels)
        = Some (Ended (Exit 1 (LabelTooBig
                                 label
                                 (to_uint32 (ctx_n_labels demo_ctx - 1)))))).
Proof.
  exact (training_is_defined log2_of_power demo_ctx 2 (fun _ _ => false)
           (fun _ _ => quiet) (fun _ => false) demo_published demo_pixels 3
           ltac:(cbn; lia) demo_valid_run demo_readable demo_published_sized
           (fun _ _ => eq_refl) (fun _ _ _ => eq_refl) ltac:(cbn; lia)).
Defined.

(** ** Inference on complete trees *)

(** A table added where [output_pr] has room for it leaves the size of
    [output_pr] as it is. *)
Lemma add_table_ok :
  forall (table out : list float) (base : nat),
    (base + length table <= length out)%nat ->
    exists out',
      add_table out base table = Ok out' /\ length out' = length out.
Proof.
  induction table as [|p rest IH]; intros out base H; cbn [add_table].
  - eauto.
  - cbn [length] in H.
    destruct (Nat.ltb_spec base (length out)); [|lia].
    destruct (IH (store base (F32.add (nth base out F32.zero) p) out)
                 (S base)) as (out' & E & L).
    { rewrite store_length. lia. }
    exists out'. split; [exact E|]. now rewrite L, store_length.
Qed.

Lemma in_firstn {A : Type} (n : nat) (l : list A) (x : A) :
  In x (firstn n l) -> In x l.
Proof.
  intros H. rewrite <- (firstn_skipn n l). apply in_or_app. now left.
Qed.

Lemma image_pixels_in (width height y x : Z) :
  In (y, x) (image_pixels width height) ->
  0 <= y < height /\ 0 <= x < width.
Proof.
  unfold image_pixels. rewrite in_prod_iff, !in_map_iff.
  intros [(a & <- & Ha) (b & <- & Hb)].
  apply in_seq in Ha. apply in_seq in Hb. lia.
Qed.

Lemma to_uint32_le (z : Z) : 0 <= z -> to_uint32 z <= z.
Proof. intros H. unfold to_uint32. apply Z.mod_le; lia. Qed.

(** The tables of a tree are [n_pr_tables] blocks of [n_labels]
    probabilities, and every node at which a walk from the root can end
    names one of them: it is not marked unfinished, as the nodes of a
    tree saved on an interrupt can be. *)
Record tabled (fuel : nat) (n_labels : Z) (tree : RDTree) : Prop := {
  tb_tables :
    Z.of_nat (length (rdt_label_pr_tables tree))
    = rdt_n_pr_tables tree * n_labels;
  tb_leaves :
    forall (sample : UVPair -> float) (leaf : Z),
      walk_tree fuel (rdt_nodes tree) sample 0 = Some (Ok leaf) ->
      1 <= node_label_pr_idx (node_at (rdt_nodes tree) leaf)
        <= rdt_n_pr_tables tree
}.

Lemma leaf_table_ok (fuel : nat) (n_labels : Z) (tree : RDTree)
    (sample : UVPair -> float) (leaf : Z) :
  0 <= n_labels ->
  tabled fuel n_labels tree ->
  walk_tree fuel (rdt_nodes tree) sample 0 = Some (Ok leaf) ->
  exists table,
    leaf_table tree n_labels leaf = Ok table
    /\ length table = Z.to_nat n_labels.
Proof.
  intros Hn [Ht Hl] W. specialize (Hl sample leaf W).
  unfold leaf_table. cbv zeta.
  set (idx := node_label_pr_idx (node_at (rdt_nodes tree) leaf)) in *.
  assert (B : to_uint32 (to_uint32 (idx - 1) * n_labels)
              <= (idx - 1) * n_labels).
  { pose proof (to_uint32_range (idx - 1)).
    pose proof (to_uint32_le (idx - 1) ltac:(lia)).
    etransitivity; [apply to_uint32_le|]; nia. }
  destruct (Z.leb_spec (to_uint32 (to_uint32 (idx - 1) * n_labels) + n_labels)
                       (Z.of_nat (length (rdt_label_pr_tables tree))));
    [|nia].
  eexists. split; [reflexivity|]. apply slice_length.
Qed.

Section Total.

Variables (fuel : nat) (n_labels width height : Z).
Variable sample_at : Z -> Z -> UVPair -> float.

Hypothesis Hlabels : 0 <= n_labels.
Hypothesis Hsize : width * height * n_labels < 2 ^ 32.

Local Abbreviation size := (Z.to_nat (width * height * n_labels)).

Lemma accumulate_tree_ok (tree : RDTree) (depth : Z) (out : list float) :
  complete_tree (rdt_nodes tree) depth ->
  depth <= Z.of_nat fuel ->
  tabled fuel n_labels tree ->
  length out = size ->
  exists out',
    accumulate_tree fuel tree n_labels width height sample_at out
    = Some (Ok out')
    /\ length out' = size.
Proof.
  intros Hc Hf Htab. unfold accumulate_tree.
  assert (G : forall l,
            (forall y x, In (y, x) l -> 0 <= y < height /\ 0 <= x < width) ->
            forall out0,
              length out0 = size ->
              exists out',
                fold_left
                  (fun (acc : run (list float)) (yx : Z * Z) =>
                     let '(y, x) := yx in
                     run_bind acc (fun out =>
                     run_bind (walk_tree fuel (rdt_nodes tree)
                                         (sample_at x y) 0)
                       (fun id =>
                          Some (pr_table <- leaf_table tree n_labels id ;;
                                add_table out
                                  (Z.to_nat
                                     (to_uint32 (y * width * n_labels
                                                 + x * n_labels)))
                                  pr_table))))
                  l (Some (Ok out0))
                = Some (Ok out')
                /\ length out' = size).
  { induction l as [|[y x] l IH]; intros Hl out0 L0; cbn [fold_left].
    - eauto.
    - destruct (Hl y x (or_introl eq_refl)) as [Hy Hx].
      cbn [run_bind].
      destruct (walk_tree_on_level (rdt_nodes tree) depth (sample_at x y)
                  Hc fuel 0 0) as (leaf & W & _).
      + pose proof (ct_depth _ _ Hc). lia.
      + unfold on_level. cbn. lia.
      + lia.
      + rewrite W. cbn [run_bind].
        destruct (leaf_table_ok fuel n_labels tree (sample_at x y) leaf
                    Hlabels Htab W) as (table & -> & Ltable).
        cbn [bind].
        destruct (add_table_ok table out0
                    (Z.to_nat (to_uint32 (y * width * n_labels
                                          + x * n_labels))))
          as (out1 & -> & L1).
        { rewrite Ltable, L0.
          assert (B : 0 <= y * width + x < width * height) by nia.
          assert (B' : 0 <= (y * width + x) * n_labels
                       /\ (y * width + x) * n_labels + n_labels
                          <= width * height * n_labels) by nia.
          replace (y * width * n_labels + x * n_labels)
            with ((y * width + x) * n_labels) by ring.
          rewrite to_uint32_small by lia. lia. }
        apply IH; [|now rewrite L1].
        intros y' x' Hin. apply Hl. now right. }
  intros L. apply G; [|exact L].
  intros y x. apply image_pixels_in.
Qed.

Lemma correct_probabilities_ok (n_trees : Z) (out : list float) :
  0 <= width -> 0 <= height ->
  length out = size ->
  exists out',
    correct_probabilities n_trees n_labels width height out = Ok out'
    /\ length out' = size.
Proof.
  intros Hw Hh L. unfold correct_probabilities.
  assert (E : (Z.to_nat height * Z.to_nat width * Z.to_nat n_labels)%nat
              = size) by nia.
  rewrite E, L, Nat.leb_refl.
  eexists. split; [reflexivity|].
  rewrite length_app, length_map, length_firstn, length_skipn, L. lia.
Qed.

End Total.

(** On a forest of complete trees whose leaves name tables the trees
    hold, for a depth image of [width * height] depths, with [width] and
    [height] below [2^31] and the probabilities of an image fitting an
    array indexed by [uint32_t], [infer_labels] returns: every walk ends
    in its tree array, every table read lies within the tables of its
    tree and is added inside [output_pr], and the result has
    [width * height * n_labels] entries. *)
Theorem infer_labels_returns (fuel : nat) (forest : list RDTree)
    (n_trees : Z) (depth_image : list half) (width height : Z) :
  let n_labels :=
    match forest with
    | [] => 0
    | first :: _ => hdr_n_labels (rdt_header first)
    end in
  forest <> [] ->
  0 <= n_trees <= Z.of_nat (length forest) ->
  (forall tree, In tree forest ->
     tabled fuel n_labels tree
     /\ exists depth,
          complete_tree (rdt_nodes tree) depth /\ depth <= Z.of_nat fuel) ->
  0 <= width < 2 ^ 31 -> 0 <= height < 2 ^ 31 -> 0 <= n_labels ->
  width * height < 2 ^ 32 ->
  width * height * n_labels < 2 ^ 32 ->
  Z.of_nat (length depth_image) = width * height ->
  exists output_pr,
    infer_labels fuel forest n_trees depth_image width height
    = Some (Ok output_pr)
    /\ length output_pr = Z.to_nat (width * height * n_labels).
Proof.
  intros n_labels Hne Hn Hforest Hw Hh Hlabels _ Hsize _.
  destruct forest as [|first rest]; [contradiction|].
  unfold infer_labels, infer_forest. fold n_labels.
  destruct (Z.ltb_spec (Z.of_nat (length (first :: rest))) n_trees); [lia|].
  rewrite to_uint32_small by nia.
  assert (G : forall trees,
            (forall tree, In tree trees -> In tree (first :: rest)) ->
            forall out,
              length out = Z.to_nat (width * height * n_labels) ->
              exists out',
                fold_left
                  (fun (acc : run (list float)) (tree : RDTree) =>
                     run_bind acc
                       (accumulate_tree fuel tree n_labels width height
                          (half_sample depth_image width height)))
                  trees (Some (Ok out))
                = Some (Ok out')
                /\ length out' = Z.to_nat (width * height * n_labels)).
  { induction trees as [|tree trees IH]; intros Hin out L; cbn [fold_left].
    - eauto.
    - cbn [run_bind].
      destruct (Hforest tree (Hin tree (or_introl eq_refl)))
        as (Htab & depth & Hc & Hd).
      destruct (accumulate_tree_ok fuel n_labels width height
                  (half_sample depth_image width height) Hlabels Hsize
                  tree depth out Hc Hd Htab L) as (out1 & -> & L1).
      apply IH; [|exact L1].
      intros t Ht. apply Hin. now right. }
  destruct (G (firstn (Z.to_nat n_trees) (first :: rest))
              (fun t Ht => in_firstn _ _ _ Ht)
              (repeat F32.zero (Z.to_nat (width * height * n_labels)))
              (repeat_length _ _)) as (out & -> & L).
  cbn [run_bind].
  destruct (correct_probabilities_ok n_labels width height n_trees out
              ltac:(lia) ltac:(lia) L) as (out' & -> & L').
  eauto.
Qed.

(** Every walk down the tree of the demonstration problem ends at one of
    its two leaves. *)
Lemma demo_walk (sample : UVPair -> float) :
  walk_tree 2 demo_nodes sample 0
  = Some (Ok (if F32.ltb (sample uv_step) (F32.of_Z 1) then 1 else 2)).
Proof.
  change (walk_tree 2 demo_nodes sample 0)
    with (walk_tree 1 demo_nodes sample
            (if F32.ltb (sample uv_step) (F32.of_Z 1)
             then to_uint32 (2 * 0 + 1) else to_uint32 (2 * 0 + 2))).
  now destruct (F32.ltb (sample uv_step) (F32.of_Z 1)).
Qed.

Lemma demo_tabled : tabled 2 2 (trained_tree demo_ctx demo_trained).
Proof.
  constructor; [reflexivity|].
  intros sample leaf.
  change (rdt_nodes (trained_tree demo_ctx demo_trained)) with demo_nodes.
  rewrite demo_walk. intros [= <-].
  match goal with
  | |- context [if ?b then _ else _] => destruct b
  end; split; vm_compute; discriminate.
Defined.

Lemma infer_labels_returns_witness :
  exists output_pr,
    infer_labels 2 [trained_tree demo_ctx demo_trained] 1
                 (training_image demo_ctx 1) 2 1
    = Some (Ok output_pr)
    /\ length output_pr = Z.to_nat (2 * 1 * 2).
Proof.
  refine (infer_labels_returns 2 [trained_tree demo_ctx demo_trained] 1
            (training_image demo_ctx 1) 2 1 _ _ _ _ _ _ _ _ _);
    try (cbn; lia).
  - discriminate.
  - intros tree [<-|[]]. split; [exact demo_tabled|].
    exists 2. split; [exact demo_nodes_complete|lia].
  - reflexivity.
Defined.

(** The pixels of the second training image of the demonstration
    problem: label 0 for the first and label 1 for the second, each with
    probability 1. *)
Example demo_infer_labels :
  infer_labels 2 [trained_tree demo_ctx demo_trained] 1
               (training_image demo_ctx 1) 2 1
  = Some (Ok [F32.of_Z 1; F32.zero; F32.zero; F32.of_Z 1]).
Proof. vm_compute. reflexivity. Qed.

(** ** The split the coordinator chooses *)

Lemma ltb_nan_l (a b : float) : F32.ltb a b = true -> F32.is_nan a = false.
Proof.
  destruct a; try reflexivity.
  unfold F32.ltb, SFltb. cbn. discriminate.
Qed.

(** Equal numbers are below the same numbers. *)
Lemma ltb_eqb_l (a b c : float) :
  SFeqb a b = true -> F32.ltb a c = true -> F32.ltb b c = true.
Proof.
  intros E L.
  assert (Nc : F32.is_nan c = false) by exact (ltb_not_nan a c L).
  assert (Nb : F32.is_nan b = false).
  { destruct b; try reflexivity. unfold SFeqb in E. now destruct a. }
  assert (Lab : F32.ltb a b = true -> False).
  { intros Lab. unfold SFeqb in E. unfold F32.ltb, SFltb in Lab.
    destruct (SFcompare a b) as [[]|]; discriminate. }
  destruct (F32.ltb b c) eqn:Lbc; [reflexivity|]. exfalso.
  destruct (F32.ltb c b) eqn:Lcb.
  - exact (Lab (ltb_trans a c b L Lcb)).
  - exact (Lab (ltb_eqb_r a c b L (ltb_total b c Nb Nc Lbc Lcb))).
Qed.

(** A number that is not below a second one, which is not below a third,
    is not below the third, when the second is a number. *)
Lemma ltb_neg_trans (a b c : float) :
  F32.is_nan b = false ->
  F32.ltb a b = false -> F32.ltb b c = false -> F32.ltb a c = false.
Proof.
  intros Nb Hab Hbc. destruct (F32.ltb a c) eqn:Hac; [|reflexivity].
  pose proof (ltb_nan_l a c Hac) as Na.
  destruct (F32.ltb b a) eqn:Hba.
  - now rewrite (ltb_trans b a c Hba Hac) in Hbc.
  - pose proof (ltb_total a b Na Nb Hab Hba) as E.
    now rewrite (ltb_eqb_l a b c E Hac) in Hbc.
Qed.

(** The gain a pass publishes is exceeded by no candidate of the stripe
    that is worth a look, and a positive one is the gain of a candidate of
    the stripe. *)
Lemma thread_body_unbeaten (log2f : float -> float) (ctx : TrainContext)
    (data : NodeTrainData) (c_start c_end : Z) (sig : Signals)
    (previous best : ThreadBest) (nhistogram : list float)
    (root lr : list Z) :
  well_sized ctx c_start c_end ->
  0 <= nd_n_pixels data <= 2 ^ 32 - 1 ->
  accumulate_histograms ctx data c_start c_end (in_accumulate sig)
    (cleared_root ctx) (cleared_lr ctx c_start c_end)
  = Ok (root, lr) ->
  (forall k, in_search sig k = false) ->
  nd_depth data < to_uint32 (ctx_max_depth ctx - 1) ->
  1 < snd (histogram_sums root (ctx_n_labels ctx)) ->
  thread_body log2f ctx data c_start c_end sig previous
  = Ok (best, nhistogram) ->
  let ps := processed (in_accumulate sig) 0 (node_pixels data) in
  let cands := candidates ctx c_start c_end in
  (forall k, (k < length cands)%nat ->
     ~ trivial_split ctx ps (nth k cands (0, 0)) ->
     F32.ltb (best_gain best) (candidate_gain log2f ctx root lr k) = false)
  /\ (best = mkBest F32.zero (best_uv previous) (best_t previous)
                    (n_lr_pixels previous)
      \/ exists k, (k < length cands)%nat
           /\ (best_uv best, best_t best) = nth k cands (0, 0)
           /\ best_gain best = candidate_gain log2f ctx root lr k).
Proof.
  intros Hws Hpix Hacc Hquiet Hdeep Hlabels H ps cands.
  assert (Hc : counted ctx data c_start c_end ps (root, lr))
    by (apply accumulate_histograms_counted; assumption).
  assert (Hps : Z.of_nat (length ps) <= 2 ^ 32 - 1).
  { pose proof (processed_length (in_accumulate sig) 0 (node_pixels data)).
    unfold ps, node_pixels in *. rewrite slice_length in *. lia. }
  rewrite thread_body_unfold, Hacc in H. cbn [bind fst snd] in H.
  cbv zeta in H.
  replace ((1 <? snd (histogram_sums root (ctx_n_labels ctx)))
           && (nd_depth data <? to_uint32 (ctx_max_depth ctx - 1)))
    with true in H
    by (symmetry; apply andb_true_iff; split; apply Z.ltb_lt; assumption).
  injection H as H _. rewrite <- H.
  apply (search_loop_maximal log2f ctx data c_start c_end ps
           root lr Hws Hps Hdeep Hc (in_search sig)
           (mkBest F32.zero (best_uv previous) (best_t previous)
                   (n_lr_pixels previous))
           Hquiet (candidates ctx c_start c_end) 0%nat).
  - reflexivity.
  - intros j Hj. lia.
  - now left.
Qed.

Lemma processed_all (interrupted : nat -> bool) (pixels : list Int3D) :
  (forall p, interrupted p = false) ->
  forall p, processed interrupted p pixels = pixels.
Proof.
  intros Hq. induction pixels as [|px rest IH]; intros p; cbn [processed];
    [reflexivity|].
  now rewrite Hq, IH.
Qed.

(** When no worker is interrupted, on a node above the last depth that
    holds more than one label, the gain the coordinator selects after the
    second barrier is exceeded by the gain of no candidate, in any
    worker's stripe, whose split of the pixels of the node is not trivial;
    and when a worker is selected, the gain, the uv combination and the
    threshold selected are those of one candidate of its stripe, with a
    positive gain. Otherwise the gain selected is 0. *)
Theorem selected_split_is_best (log2f : float -> float)
    (ctx : TrainContext) (data : NodeTrainData) (n_threads : Z)
    (sig : nat -> Signals) (pub pub' : Published)
    (g : float) (u t : Z) (winner : option nat) :
  let c_start := fun i => fst (stripe ctx n_threads (Z.of_nat i)) in
  let c_end := fun i => snd (stripe ctx n_threads (Z.of_nat i)) in
  let counts := fun i =>
    accumulate_histograms ctx data (c_start i) (c_end i)
      (in_accumulate (sig i)) (cleared_root ctx)
      (cleared_lr ctx (c_start i) (c_end i)) in
  valid_run ctx data n_threads ->
  published_sized (Z.to_nat n_threads) pub ->
  (forall i p, in_accumulate (sig i) p = false) ->
  (forall i k, in_search (sig i) k = false) ->
  nd_depth data < to_uint32 (ctx_max_depth ctx - 1) ->
  1 < snd (histogram_sums (label_histogram ctx data) (ctx_n_labels ctx)) ->
  run_threads log2f ctx data n_threads sig pub = Ok pub' ->
  best_of_threads n_threads pub' = (g, u, t, winner) ->
  (forall i root lr k,
     (i < Z.to_nat n_threads)%nat ->
     counts i = Ok (root, lr) ->
     (k < length (candidates ctx (c_start i) (c_end i)))%nat ->
     ~ trivial_split ctx (node_pixels data)
         (nth k (candidates ctx (c_start i) (c_end i)) (0, 0)) ->
     F32.ltb g (candidate_gain log2f ctx root lr k) = false)
  /\ match winner with
     | Some w =>
         (w < Z.to_nat n_threads)%nat
         /\ F32.ltb F32.zero g = true
         /\ exists root lr k,
              counts w = Ok (root, lr)
              /\ (k < length (candidates ctx (c_start w) (c_end w)))%nat
              /\ (u, t) = nth k (candidates ctx (c_start w) (c_end w)) (0, 0)
              /\ g = candidate_gain log2f ctx root lr k
     | None => g = F32.zero
     end.
Proof.
  intros c_start c_end counts Hv Hs Hqa Hqs Hdeep Hlabels Hrun Hbest.
  destruct (run_threads_prefix log2f ctx data n_threads sig pub Hs
              _ pub' Hrun) as (_ & Slots & _).
  pose proof (best_of_threads_reduced n_threads pub') as R.
  rewrite Hbest in R. unfold reduced in R.
  (* what each worker has published *)
  assert (Worker : forall i,
            (i < Z.to_nat n_threads)%nat ->
            exists best nh root lr,
              thread_body log2f ctx data (c_start i) (c_end i) (sig i)
                          (published_by pub i)
              = Ok (best, nh)
              /\ nth i (best_gains pub') F32.zero = best_gain best
              /\ nth i (best_uvs pub') 0 = best_uv best
              /\ nth i (best_ts pub') 0 = best_t best
              /\ counts i = Ok (root, lr)
              /\ 1 < snd (histogram_sums root (ctx_n_labels ctx))
              /\ well_sized ctx (c_start i) (c_end i)).
  { intros i Hi. destruct (Slots i Hi Hi) as (best & nh & TB & Hp).
    assert (Hws : well_sized ctx (c_start i) (c_end i))
      by (apply (stripe_well_sized ctx data n_threads (Z.of_nat i) Hv); lia).
    assert (Hc0 : counts i
                  = accumulate_histograms ctx data
                      (fst (stripe ctx n_threads (Z.of_nat i)))
                      (snd (stripe ctx n_threads (Z.of_nat i)))
                      (in_accumulate (sig i)) (cleared_root ctx)
                      (cleared_lr ctx
                         (fst (stripe ctx n_threads (Z.of_nat i)))
                         (snd (stripe ctx n_threads (Z.of_nat i)))))
      by reflexivity.
    pose proof TB as TB'. rewrite thread_body_unfold, <- Hc0 in TB'.
    destruct (counts i) as [[root lr]| |] eqn:Hc; try rewrite Hc in TB';
      cbn [bind] in TB'; try discriminate.
    exists best, nh, root, lr.
    split; [exact TB|]. do 3 (split; [now rewrite <- Hp|]).
    split; [reflexivity|]. split; [|exact Hws].
    destruct (accumulate_label_histogram ctx data (c_start i) (c_end i)
                (in_accumulate (sig i)) root lr Hws (vr_pixels _ _ _ Hv)
                (Hqa i) Hc) as [-> _].
    exact Hlabels. }
  assert (Unbeaten : forall i root lr k,
            (i < Z.to_nat n_threads)%nat ->
            counts i = Ok (root, lr) ->
            (k < length (candidates ctx (c_start i) (c_end i)))%nat ->
            ~ trivial_split ctx (node_pixels data)
                (nth k (candidates ctx (c_start i) (c_end i)) (0, 0)) ->
            F32.is_nan (nth i (best_gains pub') F32.zero) = false
            /\ F32.ltb (nth i (best_gains pub') F32.zero)
                       (candidate_gain log2f ctx root lr k) = false).
  { intros i root lr k Hi Hc Hk NT.
    destruct (Worker i Hi)
      as (best & nh & root' & lr' & TB & Eg & _ & _ & Hc' & Hl & Hws).
    rewrite Hc in Hc'. injection Hc' as <- <-.
    rewrite Eg. split.
    - destruct (thread_body_best log2f ctx data _ _ _ _ _ _ Hws
                  (vr_pixels _ _ _ Hv) TB) as [->|[Hpos _]];
        [reflexivity|exact (ltb_not_nan _ _ Hpos)].
    - destruct (thread_body_unbeaten log2f ctx data _ _ (sig i) _ best nh
                  root lr Hws (vr_pixels _ _ _ Hv) Hc (Hqs i) Hdeep Hl TB)
        as [U _].
      cbv zeta in U. rewrite processed_all in U by apply Hqa.
      now apply U. }
  split.
  - intros i root lr k Hi Hc Hk NT.
    destruct (Unbeaten i root lr k Hi Hc Hk NT) as [Nan U].
    destruct winner as [w|].
    + destruct R as (_ & -> & _ & _ & _ & Hmax & _).
      exact (ltb_neg_trans _ _ _ Nan (Hmax i Hi) U).
    + destruct R as (-> & _ & _ & Hz).
      exact (ltb_neg_trans _ _ _ Nan (Hz i Hi) U).
  - destruct winner as [w|]; [|now destruct R].
    destruct R as (Hw & -> & -> & -> & Hpos & _).
    split; [exact Hw|]. split; [exact Hpos|].
    destruct (Worker w Hw)
      as (best & nh & root & lr & TB & Eg & Eu & Et & Hc & Hl & Hws).
    exists root, lr.
    destruct (thread_body_unbeaten log2f ctx data _ _ (sig w) _ best nh
                root lr Hws (vr_pixels _ _ _ Hv) Hc (Hqs w) Hdeep Hl TB)
      as [_ [E|(k & Hk & Huv & Hg)]].
    + rewrite Eg, E in Hpos. cbn [best_gain] in Hpos.
      now rewrite ltb_irrefl in Hpos.
    + exists k. rewrite Eg, Eu, Et. repeat split; assumption.
Qed.

Lemma selected_split_is_best_witness :
  (forall i root lr k,
     (i < Z.to_nat 2)%nat ->
     accumulate_histograms demo_ctx demo_root
       (fst (stripe demo_ctx 2 (Z.of_nat i)))
       (snd (stripe demo_ctx 2 (Z.of_nat i)))
       (in_accumulate quiet) (cleared_root demo_ctx)
       (cleared_lr demo_ctx (fst (stripe demo_ctx 2 (Z.of_nat i)))
                   (snd (stripe demo_ctx 2 (Z.of_nat i))))
     = Ok (root, lr) ->
     (k < length (candidates demo_ctx
                    (fst (stripe demo_ctx 2 (Z.of_nat i)))
                    (snd (stripe demo_ctx 2 (Z.of_nat i)))))%nat ->
     ~ trivial_split demo_ctx (node_pixels demo_root)
         (nth k (candidates demo_ctx
                   (fst (stripe demo_ctx 2 (Z.of_nat i)))
                   (snd (stripe demo_ctx 2 (Z.of_nat i)))) (0, 0)) ->
     F32.ltb (F32.of_Z 1) (candidate_gain log2_of_power demo_ctx root lr k)
     = false)
  /\ (1 < Z.to_nat 2)%nat
  /\ F32.ltb F32.zero (F32.of_Z 1) = true
  /\ exists root lr k,
       accumulate_histograms demo_ctx demo_root
         (fst (stripe demo_ctx 2 (Z.of_nat 1)))
         (snd (stripe demo_ctx 2 (Z.of_nat 1)))
         (in_accumulate quiet) (cleared_root demo_ctx)
         (cleared_lr demo_ctx (fst (stripe demo_ctx 2 (Z.of_nat 1)))
                     (snd (stripe demo_ctx 2 (Z.of_nat 1))))
       = Ok (root, lr)
       /\ (k < length (candidates demo_ctx
                         (fst (stripe demo_ctx 2 (Z.of_nat 1)))
                         (snd (stripe demo_ctx 2 (Z.of_nat 1)))))%nat
       /\ (1, 1) = nth k (candidates demo_ctx
                            (fst (stripe demo_ctx 2 (Z.of_nat 1)))
                            (snd (stripe demo_ctx 2 (Z.of_nat 1)))) (0, 0)
       /\ F32.of_Z 1 = candidate_gain log2_of_power demo_ctx root lr k.
Proof.
  refine (selected_split_is_best log2_of_power demo_ctx demo_root 2
            (fun _ => quiet) demo_published
            (mkPublished [F32.zero; F32.of_Z 1] [0; 1] [0; 1] [0; 0; 2; 2]
                         [pow2 (-1); pow2 (-1)])
            (F32.of_Z 1) 1 1 (Some 1%nat)
            demo_valid_run demo_published_sized
            (fun _ _ => eq_refl) (fun _ _ => eq_refl) _ _ _ _).
  - cbn. lia.
  - vm_compute. reflexivity.
  - vm_compute. reflexivity.
  - vm_compute. reflexivity.
Defined.
